(** * ModuleNet: the program-to-module execution engine

    A shallow embedding of [vr/models/module_net.py]: the registry built by
    [ModuleNet.__init__], the conditioning-id table, answer-vocabulary
    expansion, the explicit-form and token-sequence interpreters and the
    top-level dispatch of [forward].

    Conventions.
    - A Python exception is a value of [exn]; a call that may raise returns
      an [outcome].
    - A tensor whose first dimension is the batch is the list of its slices
      along that dimension: [feats[i:i+1]] is [take 1 (drop i feats)] and
      [torch.cat(ts, 0)] is list concatenation.
    - A module instance lives at an address in a heap of module objects, so
      that two registry keys bound to one instance are visibly aliased.
    - The layers of [vr.models.layers], [vr.models.filmed_net] and
      [vr.models.tfilmed_net] and the helper [vr.programs.function_to_str]
      are not part of this file's source; they are the fields of the class
      [Layers]. *)

From stdpp Require Import gmap strings list fin_maps sorting.
From Stdlib Require Import ZArith DecimalString.

Open Scope Z_scope.

(** ** Python exceptions and outcomes *)

Inductive exn : Type :=
| KeyError (key : string)
| IndexError
| TypeError
| ValueError (msg : string)
| AttributeError (attr : string)
| NameError (name : string)
| UnboundLocalError (name : string)
| AssertionError
| RuntimeError.

(** [Fuel] is not a Python outcome: it marks a run of the recursive
    interpreter cut short by the recursion bound of the model. *)
Inductive outcome (A : Type) : Type :=
| Ok (a : A)
| Raise (e : exn)
| Fuel.

Arguments Ok {A} a.
Arguments Raise {A} e.
Arguments Fuel {A}.

Definition obind {A B : Type} (m : outcome A) (k : A -> outcome B) : outcome B :=
  match m with
  | Ok a => k a
  | Raise e => Raise e
  | Fuel => Fuel
  end.

(** A call into a layer either raises or returns. *)
Definition of_sum {A : Type} (r : exn + A) : outcome A :=
  match r with
  | inl e => Raise e
  | inr a => Ok a
  end.

#[global] Instance outcome_ret : MRet outcome := @Ok.
#[global] Instance outcome_bind : MBind outcome := fun A B k m => obind m k.

Fixpoint omapM {A B : Type} (f : A -> outcome B) (l : list A) : outcome (list B) :=
  match l with
  | [] => Ok []
  | a :: l' => b ← f a; bs ← omapM f l'; Ok (b :: bs)
  end.

(** [d[k]] on a dict with string keys. *)
Definition dict_get {V : Type} (d : gmap string V) (k : string) : outcome V :=
  match d !! k with
  | Some v => Ok v
  | None => Raise (KeyError k)
  end.

(** [d[k]] on a dict with integer keys. *)
Definition dict_getZ {V : Type} (d : gmap Z V) (k : Z) : outcome V :=
  match d !! k with
  | Some v => Ok v
  | None => Raise (KeyError (NilZero.string_of_int (Z.to_int k)))
  end.

(** [str(n)] on an integer. *)
Definition str (z : Z) : string := NilZero.string_of_int (Z.to_int z).

(** [l[k]] on a list, with Python's negative indices. *)
Definition py_index {A : Type} (l : list A) (k : Z) : outcome A :=
  let n := Z.of_nat (length l) in
  let k' := if k <? 0 then k + n else k in
  if (k' <? 0) || (n <=? k') then Raise IndexError
  else match l !! Z.to_nat k' with
       | Some a => Ok a
       | None => Raise IndexError
       end.

(** Reading an attribute that may not have been assigned yet. *)
Definition getattr {A : Type} (name : string) (a : option A) : outcome A :=
  match a with
  | Some v => Ok v
  | None => Raise (AttributeError name)
  end.

(** Reading a local variable that may not have been bound yet. *)
Definition getlocal {A : Type} (name : string) (a : option A) : outcome A :=
  match a with
  | Some v => Ok v
  | None => Raise (UnboundLocalError name)
  end.

(** ** Vocabulary *)

(** The three dictionaries of [vocab] the model reads.  The keys of
    [program_token_to_idx] are iterated in insertion order, so that one is a
    list of pairs. *)
Record Vocab : Type := {
  program_token_to_idx : list (string * Z);
  program_token_arity : gmap string Z;
  program_idx_to_token : gmap Z string;
  answer_idx_to_token : list string
}.

(** A node of an explicit-form program: [f['function']],
    [f['value_inputs']] and [f['inputs']]. *)
Record Node : Type := {
  function : string;
  value_inputs : list string;
  inputs : list Z
}.

(** A rank-2 integer tensor: [size1] is [program.size(1)] and [data] holds
    the rows. *)
Record Tensor2 : Type := {
  size1 : nat;
  data : list (list Z)
}.

(** The program argument of [forward], by the runtime type the dispatch
    inspects.  A [Variable] is not a tensor for [torch.is_tensor], and
    [type(program) is Variable] is false of a plain tensor.  [shape] is
    [program.size()]; [rows] are the entries of a rank-2 value.  [POther] is
    any other object, with its [len()] when it has one. *)
Inductive Program : Type :=
| PList (nodes : list (list Node))
| PTuple (nodes : list (list Node))
| PVariable (shape : list nat) (rows : list (list Z))
| PTensor (shape : list nat)
| POther (len : option nat).

Definition is_list (p : Program) : bool :=
  match p with PList _ => true | _ => false end.
Definition is_tuple (p : Program) : bool :=
  match p with PTuple _ => true | _ => false end.
Definition is_Variable (p : Program) : bool :=
  match p with PVariable _ _ => true | _ => false end.
Definition is_tensor (p : Program) : bool :=
  match p with PTensor _ => true | _ => false end.

(** [program.dim()], read only behind a type test that makes it defined. *)
Definition dim (p : Program) : nat :=
  match p with
  | PVariable shape _ | PTensor shape => length shape
  | _ => 0%nat
  end.

(** [len(program)]: a 0-dimensional tensor and an object without
    [__len__] raise [TypeError]. *)
Definition py_len (p : Program) : outcome nat :=
  match p with
  | PList l | PTuple l => Ok (length l)
  | PVariable shape _ | PTensor shape =>
      match shape with
      | [] => Raise TypeError
      | n :: _ => Ok n
      end
  | POther (Some n) => Ok n
  | POther None => Raise TypeError
  end.

Definition as_nodes (p : Program) : list (list Node) :=
  match p with PList l | PTuple l => l | _ => [] end.

Definition as_tensor2 (p : Program) : Tensor2 :=
  match p with
  | PVariable shape rows => {| size1 := nth 1 shape 0%nat; data := rows |}
  | _ => {| size1 := 0; data := [] |}
  end.

(** ** The layers the model is built from *)

(** The final [nn.Linear] of the classifier: one weight row and one bias
    entry per answer id. *)
Record Linear (F : Type) : Type := {
  in_features : nat;
  weight : list (list F);
  bias : list F
}.
Arguments in_features {F} _.
Arguments weight {F} _.
Arguments bias {F} _.

(** What the model takes from [torch] and from the layer modules of the
    repository.  [Row] is one example's slice of a feature tensor, so a
    batch is a [list Row].  [init_params n] are the parameters drawn by the
    constructor call that allocates heap address [n]. *)
Class Layers : Type := {
  F : Type;
  Row : Type;
  Params : Type;
  Stem : Type;
  Hidden : Type;
  Config : Type;
  init_params : nat -> Params;
  residual_forward : Params -> list Row -> list Row;
  concat_forward : Params -> list Row -> list Row -> list Row;
  filmed_forward : Params -> list (list Row) -> exn + list Row;
  build_stem : Config -> exn + Stem;
  stem_forward : Stem -> list Row -> list Row;
  build_classifier : Config -> nat -> exn + (Hidden * Linear F);
  hidden_forward : Hidden -> list Row -> list (list F);
  affine : list F -> F -> list F -> F;
  normal_sample : nat -> nat -> F;
  fmul : F -> F -> F;
  function_to_str : Node -> string
}.

(** ** The model object *)

Section Model.
Context `{Layers}.

Abbreviation Tensor := (list Row).

(** A module instance, by class.  The FiLMed classes are only built when
    [use_film] is set. *)
Inductive ModuleObj : Type :=
| ResidualBlock (p : Params)
| ConcatBlock (p : Params)
| FiLMedResBlock (p : Params)
| ConcatFiLMedResBlock (p : Params).

(** Calling a module on the list of its inputs: a [ResidualBlock] takes one input and a
    [ConcatBlock] two. *)
Definition call_module (m : ModuleObj) (module_inputs : list Tensor) : outcome Tensor :=
  match m, module_inputs with
  | ResidualBlock p, [x] => Ok (residual_forward p x)
  | ConcatBlock p, [x; y] => Ok (concat_forward p x y)
  | ResidualBlock _, _ | ConcatBlock _, _ => Raise TypeError
  | FiLMedResBlock p, xs | ConcatFiLMedResBlock p, xs => of_sum (filmed_forward p xs)
  end.

(** The attributes of [self].  [function_modules] and [_modules] hold
    addresses into [modules_heap]; [gammas] and [betas] are [None] or a
    coefficient bank. *)
Record ModuleNet : Type := {
  use_film : bool;
  sharing_patterns : list Z;
  stem : Stem;
  gammas : option (list (list F));
  betas : option (list (list F));
  classifier_hidden : Hidden;
  classifier_final : Linear F;
  function_modules : gmap string nat;
  function_modules_num_inputs : gmap string Z;
  fn_str_2_filmId : gmap string Z;
  vocab : Vocab;
  modules_heap : list ModuleObj;
  _modules : gmap string nat;
  save_module_outputs : bool;
  all_module_outputs : list (list Tensor);
  all_module_grad_outputs : list (list (option Tensor));
  used_fns : list (list Z)
}.

Definition set_function_modules (v : gmap string nat) (s : ModuleNet) : ModuleNet :=
  {| use_film := use_film s; sharing_patterns := sharing_patterns s; stem := stem s;
     gammas := gammas s; betas := betas s; classifier_hidden := classifier_hidden s;
     classifier_final := classifier_final s; function_modules := v;
     function_modules_num_inputs := function_modules_num_inputs s;
     fn_str_2_filmId := fn_str_2_filmId s; vocab := vocab s;
     modules_heap := modules_heap s; _modules := _modules s;
     save_module_outputs := save_module_outputs s;
     all_module_outputs := all_module_outputs s;
     all_module_grad_outputs := all_module_grad_outputs s; used_fns := used_fns s |}.

Definition set_function_modules_num_inputs (v : gmap string Z) (s : ModuleNet) : ModuleNet :=
  {| use_film := use_film s; sharing_patterns := sharing_patterns s; stem := stem s;
     gammas := gammas s; betas := betas s; classifier_hidden := classifier_hidden s;
     classifier_final := classifier_final s; function_modules := function_modules s;
     function_modules_num_inputs := v;
     fn_str_2_filmId := fn_str_2_filmId s; vocab := vocab s;
     modules_heap := modules_heap s; _modules := _modules s;
     save_module_outputs := save_module_outputs s;
     all_module_outputs := all_module_outputs s;
     all_module_grad_outputs := all_module_grad_outputs s; used_fns := used_fns s |}.

Definition set_fn_str_2_filmId (v : gmap string Z) (s : ModuleNet) : ModuleNet :=
  {| use_film := use_film s; sharing_patterns := sharing_patterns s; stem := stem s;
     gammas := gammas s; betas := betas s; classifier_hidden := classifier_hidden s;
     classifier_final := classifier_final s; function_modules := function_modules s;
     function_modules_num_inputs := function_modules_num_inputs s;
     fn_str_2_filmId := v; vocab := vocab s;
     modules_heap := modules_heap s; _modules := _modules s;
     save_module_outputs := save_module_outputs s;
     all_module_outputs := all_module_outputs s;
     all_module_grad_outputs := all_module_grad_outputs s; used_fns := used_fns s |}.

Definition set_modules_heap (v : list ModuleObj) (s : ModuleNet) : ModuleNet :=
  {| use_film := use_film s; sharing_patterns := sharing_patterns s; stem := stem s;
     gammas := gammas s; betas := betas s; classifier_hidden := classifier_hidden s;
     classifier_final := classifier_final s; function_modules := function_modules s;
     function_modules_num_inputs := function_modules_num_inputs s;
     fn_str_2_filmId := fn_str_2_filmId s; vocab := vocab s;
     modules_heap := v; _modules := _modules s;
     save_module_outputs := save_module_outputs s;
     all_module_outputs := all_module_outputs s;
     all_module_grad_outputs := all_module_grad_outputs s; used_fns := used_fns s |}.

Definition set__modules (v : gmap string nat) (s : ModuleNet) : ModuleNet :=
  {| use_film := use_film s; sharing_patterns := sharing_patterns s; stem := stem s;
     gammas := gammas s; betas := betas s; classifier_hidden := classifier_hidden s;
     classifier_final := classifier_final s; function_modules := function_modules s;
     function_modules_num_inputs := function_modules_num_inputs s;
     fn_str_2_filmId := fn_str_2_filmId s; vocab := vocab s;
     modules_heap := modules_heap s; _modules := v;
     save_module_outputs := save_module_outputs s;
     all_module_outputs := all_module_outputs s;
     all_module_grad_outputs := all_module_grad_outputs s; used_fns := used_fns s |}.

Definition set_classifier_final (v : Linear F) (s : ModuleNet) : ModuleNet :=
  {| use_film := use_film s; sharing_patterns := sharing_patterns s; stem := stem s;
     gammas := gammas s; betas := betas s; classifier_hidden := classifier_hidden s;
     classifier_final := v; function_modules := function_modules s;
     function_modules_num_inputs := function_modules_num_inputs s;
     fn_str_2_filmId := fn_str_2_filmId s; vocab := vocab s;
     modules_heap := modules_heap s; _modules := _modules s;
     save_module_outputs := save_module_outputs s;
     all_module_outputs := all_module_outputs s;
     all_module_grad_outputs := all_module_grad_outputs s; used_fns := used_fns s |}.

Definition set_all_module_outputs (v : list (list Tensor)) (s : ModuleNet) : ModuleNet :=
  {| use_film := use_film s; sharing_patterns := sharing_patterns s; stem := stem s;
     gammas := gammas s; betas := betas s; classifier_hidden := classifier_hidden s;
     classifier_final := classifier_final s; function_modules := function_modules s;
     function_modules_num_inputs := function_modules_num_inputs s;
     fn_str_2_filmId := fn_str_2_filmId s; vocab := vocab s;
     modules_heap := modules_heap s; _modules := _modules s;
     save_module_outputs := save_module_outputs s;
     all_module_outputs := v;
     all_module_grad_outputs := all_module_grad_outputs s; used_fns := used_fns s |}.

Definition set_all_module_grad_outputs (v : list (list (option Tensor))) (s : ModuleNet)
  : ModuleNet :=
  {| use_film := use_film s; sharing_patterns := sharing_patterns s; stem := stem s;
     gammas := gammas s; betas := betas s; classifier_hidden := classifier_hidden s;
     classifier_final := classifier_final s; function_modules := function_modules s;
     function_modules_num_inputs := function_modules_num_inputs s;
     fn_str_2_filmId := fn_str_2_filmId s; vocab := vocab s;
     modules_heap := modules_heap s; _modules := _modules s;
     save_module_outputs := save_module_outputs s;
     all_module_outputs := all_module_outputs s;
     all_module_grad_outputs := v; used_fns := used_fns s |}.

Definition set_used_fns (v : list (list Z)) (s : ModuleNet) : ModuleNet :=
  {| use_film := use_film s; sharing_patterns := sharing_patterns s; stem := stem s;
     gammas := gammas s; betas := betas s; classifier_hidden := classifier_hidden s;
     classifier_final := classifier_final s; function_modules := function_modules s;
     function_modules_num_inputs := function_modules_num_inputs s;
     fn_str_2_filmId := fn_str_2_filmId s; vocab := vocab s;
     modules_heap := modules_heap s; _modules := _modules s;
     save_module_outputs := save_module_outputs s;
     all_module_outputs := all_module_outputs s;
     all_module_grad_outputs := all_module_grad_outputs s; used_fns := v |}.

(** The module object a registry key is bound to.  A reference always
    points to an object, so the heap lookup cannot fail on a registry built
    by [__init__]; a dangling address is reported as [RuntimeError]. *)
Definition deref (heap : list ModuleObj) (a : nat) : outcome ModuleObj :=
  match heap !! a with
  | Some m => Ok m
  | None => Raise RuntimeError
  end.

(** *** Construction *)

(** [declare_film_coefficients] reads [self.use_film],
    [self.fn_str_2_filmId] and [self.module_dim]; the last two are passed as
    attribute slots, [None] for an attribute not assigned so far.  The
    arguments of [torch.Tensor(1, len(...), self.module_dim)] are evaluated
    left to right, then the global [xavier_uniform] is looked up; the file
    imports no such name. *)
Definition declare_film_coefficients (use_film : bool)
    (fn_str_2_filmId_attr : option (gmap string Z)) (module_dim_attr : option Z)
  : outcome (option (list (list F)) * option (list (list F))) :=
  if use_film then
    _ ← getattr "fn_str_2_filmId" fn_str_2_filmId_attr;
    _ ← getattr "module_dim" module_dim_attr;
    Raise (NameError "xavier_uniform")
  else Ok (None, None).

(** The local variables of [__init__] that outlive one iteration of the
    loop over the vocabulary; [None] is a variable not bound yet. *)
Record Locals : Type := {
  l_mod : option nat;
  l_stored_name : option string;
  l_newModule : option bool
}.

(** A constructor call: the new object gets the next heap address. *)
Definition alloc (mk : Params -> ModuleObj) (self : ModuleNet) : nat * ModuleNet :=
  let a := length (modules_heap self) in
  (a, set_modules_heap (modules_heap self ++ [mk (init_params a)]) self).

(** [self.add_module(name, mod)]. *)
Definition add_module (name : string) (a : nat) (self : ModuleNet) : ModuleNet :=
  set__modules (<[name := a]> (_modules self)) self.

(** The body of [for fn_str in vocab['program_token_to_idx']]. *)
Definition registry_step (fn_str : string) (st : ModuleNet * Locals)
  : outcome (ModuleNet * Locals) :=
  let '(self, loc) := st in
  num_inputs ← dict_get (program_token_arity (vocab self)) fn_str;
  let self := set_function_modules_num_inputs
                (<[fn_str := num_inputs]> (function_modules_num_inputs self)) self in
  self ← (if use_film self then
            sp1 ← py_index (sharing_patterns self) 1;
            if decide (sp1 = 1) then
              let numId := if decide (fn_str = "scence") then 1 else num_inputs in
              Ok (set_fn_str_2_filmId
                    (<[str numId := numId - 1]> (fn_str_2_filmId self)) self)
            else
              Ok (set_fn_str_2_filmId
                    (<[fn_str := Z.of_nat (size (fn_str_2_filmId self))]>
                       (fn_str_2_filmId self)) self)
          else Ok self);
  '(self, loc) ←
    (if decide (fn_str = "scene" ∨ num_inputs = 1) then
       if use_film self then
         sp0 ← py_index (sharing_patterns self) 0;
         match (if decide (sp0 = 1) then function_modules self !! "1" else None) with
         | Some a =>
             Ok (self, {| l_mod := Some a; l_stored_name := Some "1";
                          l_newModule := Some false |})
         | None =>
             let '(a, self) := alloc FiLMedResBlock self in
             Ok (self, {| l_mod := Some a;
                          l_stored_name := Some (if decide (sp0 = 1) then "1" else fn_str);
                          l_newModule := Some true |})
         end
       else
         let '(a, self) := alloc ResidualBlock self in
         Ok (self, {| l_mod := Some a; l_stored_name := l_stored_name loc;
                      l_newModule := l_newModule loc |})
     else if decide (num_inputs = 2) then
       if use_film self then
         sp0 ← py_index (sharing_patterns self) 0;
         match (if decide (sp0 = 1) then function_modules self !! "2" else None) with
         | Some a =>
             Ok (self, {| l_mod := Some a; l_stored_name := Some "2";
                          l_newModule := Some false |})
         | None =>
             let '(a, self) := alloc ConcatFiLMedResBlock self in
             Ok (self, {| l_mod := Some a;
                          l_stored_name := Some (if decide (sp0 = 1) then "2" else fn_str);
                          l_newModule := Some true |})
         end
       else
         let '(a, self) := alloc ConcatBlock self in
         Ok (self, {| l_mod := Some a; l_stored_name := l_stored_name loc;
                      l_newModule := l_newModule loc |})
     else Ok (self, loc));
  if use_film self then
    newModule ← getlocal "newModule" (l_newModule loc);
    if (newModule : bool) then
      stored_name ← getlocal "stored_name" (l_stored_name loc);
      mod_ ← getlocal "mod" (l_mod loc);
      let self := add_module stored_name mod_ self in
      Ok (set_function_modules (<[stored_name := mod_]> (function_modules self)) self, loc)
    else Ok (self, loc)
  else
    mod_ ← getlocal "mod" (l_mod loc);
    let self := add_module fn_str mod_ self in
    Ok (set_function_modules (<[fn_str := mod_]> (function_modules self)) self, loc).

Fixpoint registry_loop (keys : list string) (st : ModuleNet * Locals)
  : outcome (ModuleNet * Locals) :=
  match keys with
  | [] => Ok st
  | fn_str :: keys' => st' ← registry_step fn_str st; registry_loop keys' st'
  end.

Definition no_locals : Locals :=
  {| l_mod := None; l_stored_name := None; l_newModule := None |}.

(** [self] as the assignments before the loop leave it: the dictionaries
    empty, no module allocated. *)
Definition before_loop (vocab : Vocab) (use_film : bool) (sharing_patterns : list Z)
    (stem : Stem) (gammas betas : option (list (list F)))
    (hidden : Hidden) (final : Linear F) : ModuleNet :=
  {| use_film := use_film; sharing_patterns := sharing_patterns; stem := stem;
     gammas := gammas; betas := betas; classifier_hidden := hidden;
     classifier_final := final; function_modules := ∅;
     function_modules_num_inputs := ∅; fn_str_2_filmId := ∅; vocab := vocab;
     modules_heap := []; _modules := ∅; save_module_outputs := false;
     all_module_outputs := []; all_module_grad_outputs := []; used_fns := [] |}.

(** [ModuleNet.__init__].  When [declare_film_coefficients] is called, the
    only attributes assigned are [use_film], [sharing_patterns] and [stem]:
    [fn_str_2_filmId] is assigned after it and [module_dim] is never
    assigned. *)
Definition __init__ (vocab : Vocab) (cfg : Config) (use_film : bool)
    (sharing_patterns : list Z) : outcome ModuleNet :=
  stem ← of_sum (build_stem cfg);
  '(gammas, betas) ← declare_film_coefficients use_film None None;
  let num_answers := length (answer_idx_to_token vocab) in
  '(hidden, final) ← of_sum (build_classifier cfg num_answers);
  let self := before_loop vocab use_film sharing_patterns stem gammas betas hidden final in
  '(self, _) ← registry_loop (program_token_to_idx vocab).*1 (self, no_locals);
  Ok self.

(** *** Answer-vocabulary expansion *)

Definition py_max (l : list Z) : outcome Z :=
  match l with
  | [] => Raise (ValueError "max() arg is an empty sequence")
  | x :: l' => Ok (foldr Z.max x l')
  end.

(** [old_weight.new(n, d).normal_()]: an [n] by [d] matrix of draws. *)
Definition normal_ (n d : nat) : list (list F) :=
  map (fun r => map (fun c => normal_sample r c) (seq 0 d)) (seq 0 n).

(** [expand_answer_vocab(answer_to_idx, std, init_b)].  [copy_] into the
    slice [[:old_N]] needs as many rows as [old_weight] has. *)
Definition expand_answer_vocab (answer_to_idx : gmap string Z) (std init_b : F)
    (self : ModuleNet) : outcome ModuleNet :=
  let final_linear := classifier_final self in
  let old_weight := weight final_linear in
  let old_bias := bias final_linear in
  let old_N := length old_weight in
  let D := in_features final_linear in
  m ← py_max (map_to_list answer_to_idx).*2;
  let new_N := 1 + m in
  if new_N <? 0 then Raise RuntimeError else
  let new_weight := map (map (fun v => fmul v std)) (normal_ (Z.to_nat new_N) D) in
  let new_bias := replicate (Z.to_nat new_N) init_b in
  if (Z.to_nat new_N <? old_N)%nat then Raise RuntimeError else
  if negb (length old_bias =? old_N)%nat then Raise RuntimeError else
  Ok (set_classifier_final
        {| in_features := D;
           weight := old_weight ++ drop old_N new_weight;
           bias := old_bias ++ drop old_N new_bias |} self).

(** The final linear layer: output [k] is a function of weight row [k],
    bias entry [k] and the input. *)
Definition linear_forward (l : Linear F) (x : list F) : list F :=
  zip_with (fun w b => affine w b x) (weight l) (bias l).

Definition classifier_forward (self : ModuleNet) (x : Tensor) : list (list F) :=
  map (linear_forward (classifier_final self)) (hidden_forward (classifier_hidden self) x).

(** *** Evaluation: state and exceptions *)

(** A method that reads and writes attributes of [self] and may raise. *)
Definition M (A : Type) : Type := ModuleNet -> ModuleNet * outcome A.

Definition Mret {A : Type} (a : A) : M A := fun s => (s, Ok a).

Definition Mbind {A B : Type} (m : M A) (k : A -> M B) : M B :=
  fun s =>
    match m s with
    | (s', Ok a) => k a s'
    | (s', Raise e) => (s', Raise e)
    | (s', Fuel) => (s', Fuel)
    end.

#[global] Instance M_ret : MRet M := @Mret.
#[global] Instance M_bind : MBind M := fun A B k m => Mbind m k.

Definition lift {A : Type} (o : outcome A) : M A := fun s => (s, o).
Definition get : M ModuleNet := fun s => (s, Ok s).
Definition modify (f : ModuleNet -> ModuleNet) : M unit := fun s => (f s, Ok tt).

(** [feats[i:i+1]]. *)
Definition slice (feats : Tensor) (i : nat) : Tensor := take 1 (drop i feats).

(** [torch.cat(ts, 0)]; an empty list of tensors is an error. *)
Definition torch_cat (ts : list Tensor) : outcome Tensor :=
  match ts with
  | [] => Raise RuntimeError
  | _ => Ok (concat ts)
  end.

(** [ls[-1].append(x)]. *)
Definition append_last {A : Type} (x : A) (ls : list (list A)) : outcome (list (list A)) :=
  match last ls with
  | None => Raise IndexError
  | Some l => Ok (<[pred (length ls) := l ++ [x]]> ls)
  end.

(** *** Explicit-form evaluation *)

(** One iteration of [for j, f in enumerate(program[i])]; the result is
    [module_outputs] after the [append].  [register_hook] acts on the
    output tensor, not on [self]. *)
Definition json_node (feats : Tensor) (i : nat) (module_outputs : list Tensor) (f : Node)
  : M (list Tensor) :=
  self ← get;
  let f_str := function_to_str f in
  a ← lift (dict_get (function_modules self) f_str);
  module ← lift (deref (modules_heap self) a);
  module_inputs ← lift (if decide (f_str = "scene") then Ok [slice feats i]
                        else omapM (py_index module_outputs) (inputs f));
  out ← lift (call_module module module_inputs);
  (if save_module_outputs self then
     amo ← lift (append_last out (all_module_outputs self));
     modify (set_all_module_outputs amo)
   else Mret tt);;
  Mret (module_outputs ++ [out]).

Fixpoint json_nodes (feats : Tensor) (i : nat) (module_outputs : list Tensor)
    (nodes : list Node) : M (list Tensor) :=
  match nodes with
  | [] => Mret module_outputs
  | f :: nodes' =>
      module_outputs' ← json_node feats i module_outputs f;
      json_nodes feats i module_outputs' nodes'
  end.

(** One iteration of [for i in range(N)]; the result is the example's
    [module_outputs[-1]]. *)
Definition json_example (feats : Tensor) (program : list (list Node)) (i : nat) : M Tensor :=
  self ← get;
  (if save_module_outputs self then
     modify (fun s => set_all_module_outputs (all_module_outputs s ++ [[]]) s);;
     nodes ← lift (py_index program (Z.of_nat i));
     modify (fun s => set_all_module_grad_outputs
                        (all_module_grad_outputs s ++ [replicate (length nodes) None]) s)
   else Mret tt);;
  nodes ← lift (py_index program (Z.of_nat i));
  module_outputs ← json_nodes feats i [] nodes;
  lift (py_index module_outputs (-1)).

Fixpoint json_examples (feats : Tensor) (program : list (list Node)) (idx : list nat)
    (final_module_outputs : list Tensor) : M (list Tensor) :=
  match idx with
  | [] => Mret final_module_outputs
  | i :: idx' =>
      out ← json_example feats program i;
      json_examples feats program idx' (final_module_outputs ++ [out])
  end.

Definition _forward_modules_json (feats : Tensor) (program : list (list Node)) : M Tensor :=
  modify (set_all_module_outputs []);;
  modify (set_all_module_grad_outputs []);;
  let N := length feats in
  final_module_outputs ← json_examples feats program (seq 0 N) [];
  lift (torch_cat final_module_outputs).

(** *** Token-sequence evaluation *)

(** [program.data[i, j]]. *)
Definition index2 (program : Tensor2) (i j : nat) : outcome Z :=
  match data program !! i with
  | Some row =>
      match row !! j with
      | Some v => Ok v
      | None => Raise IndexError
      end
  | None => Raise IndexError
  end.

(** The conditioning id of an operator: the key is the arity class under
    conditioning-parameter sharing and the name otherwise, and the [assert]
    guards the lookup. *)
Definition film_id (self : ModuleNet) (fn_str : string) (num_inputs : Z) : outcome Z :=
  sp1 ← py_index (sharing_patterns self) 1;
  let query_id := if decide (sp1 = 1) then str num_inputs else fn_str in
  match fn_str_2_filmId self !! query_id with
  | Some midx => Ok midx
  | None => Raise AssertionError
  end.

(** The module of an operator under conditioning: the key is the arity
    class under module-weight sharing and the name otherwise. *)
Definition module_of (self : ModuleNet) (fn_str : string) (num_inputs : Z) : outcome nat :=
  sp0 ← py_index (sharing_patterns self) 0;
  let query_id := if decide (sp0 = 1) then str num_inputs else fn_str in
  match function_modules self !! query_id with
  | Some a => Ok a
  | None => Raise AssertionError
  end.

(** The choice of [midx] and [module] in the helper. *)
Definition resolve (self : ModuleNet) (fn_str : string) (num_inputs : Z)
  : outcome (Z * nat) :=
  if use_film self then
    midx ← film_id self fn_str num_inputs;
    a ← module_of self fn_str num_inputs;
    Ok (midx, a)
  else
    a ← dict_get (function_modules self) fn_str;
    Ok (-1, a).

(** [while len(module_inputs) < num_inputs]: each iteration appends one
    input, so from [module_inputs] the loop runs [k] more times, where [k] is
    what is missing; [rec] is the recursive call at a position. *)
Fixpoint gather_inputs (rec : nat -> M (Tensor * nat)) (k : nat)
    (module_inputs : list Tensor) (j : nat) : M (list Tensor * nat) :=
  match k with
  | O => Mret (module_inputs, j)
  | S k' =>
      '(cur_input, j') ← rec j;
      gather_inputs rec k' (module_inputs ++ [cur_input]) j'
  end.

(** [self.used_fns[i, j] = 1]. *)
Definition mark_used (i j : nat) (s : ModuleNet) : ModuleNet :=
  set_used_fns (alter (fun row => <[j := 1]> row) i (used_fns s)) s.

(** The head of the helper: the token at position [j], or the root past
    the end of the row; the flag is [used_fn_j]. *)
Definition read_token (program : Tensor2) (i j : nat) : M (bool * string) :=
  self ← get;
  if (j <? size1 program)%nat then
    fn_idx ← lift (index2 program i j);
    fn_str ← lift (dict_getZ (program_idx_to_token (vocab self)) fn_idx);
    Mret (true, fn_str)
  else Mret (false, "scene").

(** The helper from [if used_fn_j:] on, for the operator [fn_str] read at
    position [j]; [rec] is the recursive call at a position.  In the
    conditioned branch [gammas] and [betas] are read as plain names, which
    nothing binds. *)
Definition apply_token (rec : nat -> M (Tensor * nat)) (feats : Tensor) (i j : nat)
    (used_fn_j : bool) (fn_str : string) : M (Tensor * nat) :=
  (if used_fn_j then modify (mark_used i j) else Mret tt);;
  let j := S j in
  self ← get;
  num_inputs ← lift (dict_get (function_modules_num_inputs self) fn_str);
  let num_inputs := if decide (fn_str = "scene") then 1 else num_inputs in
  '(midx, a) ← lift (resolve self fn_str num_inputs);
  '(module_inputs, j) ←
    (if decide (fn_str = "scene") then Mret ([slice feats i], j)
     else gather_inputs rec (Z.to_nat num_inputs) [] j);
  self ← get;
  if use_film self then lift (Raise (NameError "gammas"))
  else
    module ← lift (deref (modules_heap self) a);
    module_output ← lift (call_module module module_inputs);
    Mret (module_output, j).

(** [_forward_modules_ints_helper(feats, program, i, j)].  [fuel] bounds
    the depth of the recursion. *)
Fixpoint _forward_modules_ints_helper (fuel : nat) (feats : Tensor) (program : Tensor2)
    (i j : nat) : M (Tensor * nat) :=
  match fuel with
  | O => lift Fuel
  | S fuel' =>
      '(used_fn_j, fn_str) ← read_token program i j;
      if decide (fn_str = "<NULL>") then
        apply_token (_forward_modules_ints_helper fuel' feats program i) feats i j
          false "scene"
      else if decide (fn_str = "<START>") then
        _forward_modules_ints_helper fuel' feats program i (j + 1)
      else
        apply_token (_forward_modules_ints_helper fuel' feats program i) feats i j
          used_fn_j fn_str
  end.

Fixpoint ints_examples (fuel : nat) (feats : Tensor) (program : Tensor2) (idx : list nat)
    (final_module_outputs : list Tensor) : M (list Tensor) :=
  match idx with
  | [] => Mret final_module_outputs
  | i :: idx' =>
      '(cur_output, _) ← _forward_modules_ints_helper fuel feats program i 0;
      ints_examples fuel feats program idx' (final_module_outputs ++ [cur_output])
  end.

(** [_forward_modules_ints(feats, program)].  The helper is run with
    recursion bound [size1 program + 1], which it never reaches
    ([forward_modules_ints_total]). *)
Definition _forward_modules_ints (feats : Tensor) (program : Tensor2) : M Tensor :=
  let N := length feats in
  modify (set_used_fns (replicate (length (data program)) (replicate (size1 program) 0)));;
  final_module_outputs ←
    ints_examples (S (size1 program)) feats program (seq 0 N) [];
  lift (torch_cat final_module_outputs).

(** *** Dispatch *)

(** [self._forward_modules_probs]: the class defines no attribute of this
    name, so the lookup raises. *)
Definition _forward_modules_probs (feats : Tensor) (program : Program) : M Tensor :=
  lift (Raise (AttributeError "_forward_modules_probs")).

(** [forward(x, program)]. *)
Definition forward (x : Tensor) (program : Program) : M (list (list F)) :=
  let N := length x in
  n ← lift (py_len program);
  if negb (N =? n)%nat then lift (Raise AssertionError) else
  self ← get;
  let feats := stem_forward (stem self) x in
  final_module_outputs ←
    (if is_list program || is_tuple program then
       _forward_modules_json feats (as_nodes program)
     else if is_Variable program && (dim program =? 2)%nat then
       _forward_modules_ints feats (as_tensor2 program)
     else if is_tensor program && (dim program =? 3)%nat then
       _forward_modules_probs feats program
     else lift (Raise (ValueError "Unrecognized program format")));
  self ← get;
  Mret (classifier_forward self final_module_outputs).

End Model.

Arguments registry_step : simpl never.

(** ** Program trees and their two encodings *)

(** The logical tree a program stands for: the root [scene] at the leaves,
    unary and binary operators inside. *)
Inductive Tree : Type :=
| Scene
| Unary (op : string) (t : Tree)
| Binary (op : string) (t1 t2 : Tree).

Fixpoint tree_size (t : Tree) : nat :=
  match t with
  | Scene => 1
  | Unary _ t => S (tree_size t)
  | Binary _ t1 t2 => S (tree_size t1 + tree_size t2)
  end.

(** Prefix notation, root first. *)
Fixpoint prefix_names (t : Tree) : list string :=
  match t with
  | Scene => ["scene"]
  | Unary op t => op :: prefix_names t
  | Binary op t1 t2 => op :: prefix_names t1 ++ prefix_names t2
  end.

(** The token-sequence form of a tree, given the id of each name. *)
Definition encode (tok : string -> Z) (t : Tree) : list Z := tok <$> prefix_names t.

Definition node (op : string) (ins : list Z) : Node :=
  {| function := op; value_inputs := []; inputs := ins |}.

(** The explicit form of a tree: its nodes in evaluation order, children
    before their parent, each input index naming the root of a child.
    [base] is the index the first emitted node gets. *)
Fixpoint to_json (base : nat) (t : Tree) : list Node :=
  match t with
  | Scene => [node "scene" []]
  | Unary op t =>
      to_json base t ++ [node op [Z.of_nat (base + tree_size t - 1)]]
  | Binary op t1 t2 =>
      to_json base t1 ++ to_json (base + tree_size t1) t2
      ++ [node op [Z.of_nat (base + tree_size t1 - 1);
                   Z.of_nat (base + tree_size t1 + tree_size t2 - 1)]]
  end.

Section TreeValue.
Context `{Layers}.

(** The value of a tree on one example's feature map, by the words of the
    specification: the root is its module applied to the feature map, an
    operator is its module applied to the values of its sub-trees. *)
Fixpoint tree_value (self : ModuleNet) (feat : list Row) (t : Tree) : outcome (list Row) :=
  match t with
  | Scene =>
      a ← dict_get (function_modules self) "scene";
      m ← deref (modules_heap self) a;
      call_module m [feat]
  | Unary op t =>
      x ← tree_value self feat t;
      a ← dict_get (function_modules self) op;
      m ← deref (modules_heap self) a;
      call_module m [x]
  | Binary op t1 t2 =>
      x ← tree_value self feat t1;
      y ← tree_value self feat t2;
      a ← dict_get (function_modules self) op;
      m ← deref (modules_heap self) a;
      call_module m [x; y]
  end.

(** A tree the token-sequence reader can consume: every name has a token
    that reads back as the name, is declared with the arity the tree uses
    it at, and no operator is spelled like the root or a sentinel. *)
Fixpoint tree_ok (self : ModuleNet) (tok : string -> Z) (t : Tree) : Prop :=
  match t with
  | Scene =>
      program_idx_to_token (vocab self) !! tok "scene" = Some "scene"
      ∧ is_Some (function_modules_num_inputs self !! "scene")
  | Unary op t =>
      op ≠ "scene" ∧ op ≠ "<NULL>" ∧ op ≠ "<START>"
      ∧ program_idx_to_token (vocab self) !! tok op = Some op
      ∧ function_modules_num_inputs self !! op = Some 1
      ∧ tree_ok self tok t
  | Binary op t1 t2 =>
      op ≠ "scene" ∧ op ≠ "<NULL>" ∧ op ≠ "<START>"
      ∧ program_idx_to_token (vocab self) !! tok op = Some op
      ∧ function_modules_num_inputs self !! op = Some 2
      ∧ tree_ok self tok t1 ∧ tree_ok self tok t2
  end.

(** A used-token mask after positions [j .. j + n - 1] of row [i] are
    marked, in increasing order. *)
Definition mark_range (i j n : nat) (used : list (list Z)) : list (list Z) :=
  foldl (fun u p => alter (fun row => <[p := 1]> row) i u) used (seq j n).

(** [used_fns[i].sum()]. *)
Definition used_count (row : list Z) : Z := foldr Z.add 0 row.

(** One row of a token-sequence program: [starts] start-of-sequence
    tokens, the tree in prefix notation, then anything ([<END>] and
    padding). *)
Definition row_of (tok : string -> Z) (r : nat * Tree * list Z) : list Z :=
  let '(starts, t, rest) := r in
  replicate starts (tok "<START>") ++ encode tok t ++ rest.

(** The mask expected for that row: set on the tokens of the tree only. *)
Definition mask_of (r : nat * Tree * list Z) : list Z :=
  let '(starts, t, rest) := r in
  replicate starts 0 ++ replicate (tree_size t) 1 ++ replicate (length rest) 0.

End TreeValue.

(** ** The registry loop, case by case *)

Section RegistryCases.
Context `{Layers}.

(** An operator the registry loop has a branch for. *)
Definition operator_ok (v : Vocab) (k : string) : Prop :=
  exists n, program_token_arity v !! k = Some n /\ (k = "scene" \/ n = 1 \/ n = 2).

Definition unary_class (v : Vocab) (k : string) : Prop :=
  k = "scene" \/ program_token_arity v !! k = Some 1.

(** The module the loop builds for operator [k] at address [a], without
    conditioning. *)
Definition block_of (v : Vocab) (a : nat) (k : string) : ModuleObj :=
  if decide (unary_class v k) then ResidualBlock (init_params a)
  else ConcatBlock (init_params a).





End RegistryCases.

(** ** Explicit-form evaluation as a value *)

Section JsonValue.
Context `{Layers}.

Abbreviation Tensor := (list Row).

(** The output of one node, as a value: what [json_node] appends, without
    the capture bookkeeping. *)
Definition node_value (s : ModuleNet) (feats : Tensor) (i : nat)
    (module_outputs : list Tensor) (f : Node) : outcome Tensor :=
  let f_str := function_to_str f in
  a ← dict_get (function_modules s) f_str;
  module ← deref (modules_heap s) a;
  module_inputs ← (if decide (f_str = "scene") then Ok [slice feats i]
                   else omapM (py_index module_outputs) (inputs f));
  call_module module module_inputs.

(** The outputs of an example after its nodes, in list order. *)
Fixpoint nodes_value (s : ModuleNet) (feats : Tensor) (i : nat)
    (module_outputs : list Tensor) (nodes : list Node) : outcome (list Tensor) :=
  match nodes with
  | [] => Ok module_outputs
  | f :: nodes' =>
      out ← node_value s feats i module_outputs f;
      nodes_value s feats i (module_outputs ++ [out]) nodes'
  end.

(** The result of example [i]: the last of its outputs. *)
Definition example_value (s : ModuleNet) (feats : Tensor) (program : list (list Node))
    (i : nat) : outcome Tensor :=
  nodes ← py_index program (Z.of_nat i);
  module_outputs ← nodes_value s feats i [] nodes;
  py_index module_outputs (-1).

(** The batch result: the results of the examples, concatenated in input
    order. *)
Definition json_value (s : ModuleNet) (feats : Tensor) (program : list (list Node))
  : outcome Tensor :=
  final_module_outputs ← omapM (example_value s feats program) (seq 0 (length feats));
  torch_cat final_module_outputs.

(** With output capture on, [all_module_outputs] has a last list to append
    to. *)
Definition save_inv (s : ModuleNet) : Prop :=
  save_module_outputs s = true -> all_module_outputs s <> [].

(** Node [j] of example [i], given all the outputs [outs] of the example:
    its module is the registry's for its name; the root is fed the example's
    own slice of the feature maps, any other node the earlier outputs at its
    input indices; [out] is what the module returns. *)
Definition node_output_ok (s : ModuleNet) (feats : Tensor) (i : nat)
    (outs : list Tensor) (j : nat) (f : Node) (out : Tensor) : Prop :=
  exists a m ins,
    function_modules s !! function_to_str f = Some a
    /\ modules_heap s !! a = Some m
    /\ (if decide (function_to_str f = "scene") then ins = [slice feats i]
        else Forall2 (fun k x => py_index (take j outs) k = Ok x) (inputs f) ins)
    /\ call_module m ins = Ok out.

Definition example_outputs (s : ModuleNet) (feats : Tensor) (i : nat)
    (nodes : list Node) (outs : list Tensor) : Prop :=
  length outs = length nodes
  /\ forall j f out, nodes !! j = Some f -> outs !! j = Some out ->
       node_output_ok s feats i outs j f out.

End JsonValue.

(** ** Predicates on runs *)

Section Runs.
Context `{Layers}.

(** What a run of [m] from [s] leaves behind and returns satisfies [Q]. *)
Definition wp {A : Type} (m : M A) (s : ModuleNet)
    (Q : ModuleNet -> outcome A -> Prop) : Prop :=
  Q (m s).1 (m s).2.

(** [s'] differs from [s] at most in the capture buffers
    [all_module_outputs], [all_module_grad_outputs] and [used_fns]: the
    registry, the conditioning table and every other attribute are the
    same. *)
Definition unchanged (s s' : ModuleNet) : Prop :=
  use_film s' = use_film s /\ sharing_patterns s' = sharing_patterns s
  /\ stem s' = stem s /\ gammas s' = gammas s /\ betas s' = betas s
  /\ classifier_hidden s' = classifier_hidden s
  /\ classifier_final s' = classifier_final s
  /\ function_modules s' = function_modules s
  /\ function_modules_num_inputs s' = function_modules_num_inputs s
  /\ fn_str_2_filmId s' = fn_str_2_filmId s /\ vocab s' = vocab s
  /\ modules_heap s' = modules_heap s /\ _modules s' = _modules s
  /\ save_module_outputs s' = save_module_outputs s.

(** Every run of [m] leaves the model [unchanged], whatever it returns. *)
Definition keeps {A : Type} (m : M A) : Prop := forall s, unchanged s (m s).1.

(** A module of one of the two unconditioned classes. *)
Definition plain_module (m : ModuleObj) : Prop :=
  match m with
  | ResidualBlock _ | ConcatBlock _ => True
  | FiLMedResBlock _ | ConcatFiLMedResBlock _ => False
  end.

(** What [forward] does with the output of the evaluator it selected. *)
Definition then_classify (m : M (list Row)) : M (list (list F)) :=
  final_module_outputs ← m;
  self ← get;
  Mret (classifier_forward self final_module_outputs).

(** [raise ValueError('Unrecognized program format')]. *)
Definition unrecognized {A : Type} : outcome A :=
  Raise (ValueError "Unrecognized program format").

(** A run of the helper that ends (the recursion bound is not reached),
    and if it returns, at a position past [j]. *)
Definition ends_after {A : Type} (j : nat) (r : outcome (A * nat)) : Prop :=
  r <> Fuel /\ forall out j', r = Ok (out, j') -> (j < j')%nat.

(** An outcome other than a [NameError]. *)
Definition no_name_error {A : Type} (r : outcome A) : Prop :=
  forall n, r <> Raise (NameError n).

(** A model without conditioning: [use_film] is off and the heap holds
    unconditioned modules only. *)
Definition unconditioned (s : ModuleNet) : Prop :=
  use_film s = false /\ Forall plain_module (modules_heap s).

End Runs.

(** ** A sample instance *)

(** Integer-valued layers on which the model runs by computation: a
    residual block doubles and shifts, a concat block mixes its two inputs,
    the stem is the identity. *)
Definition sample_function_to_str (f : Node) : string :=
  match value_inputs f with
  | [] => function f
  | vs => function f +:+ "[" +:+ String.concat "," vs +:+ "]"
  end.

Definition sample_layers : Layers :=
  {| F := Z; Row := Z; Params := Z; Stem := unit; Hidden := unit; Config := unit;
     init_params := fun n => Z.of_nat n + 1;
     residual_forward := fun p x => map (fun v => 2 * v + p) x;
     concat_forward := fun p x y => zip_with (fun a b => 3 * a + 5 * b + p) x y;
     filmed_forward := fun _ _ => inl TypeError;
     build_stem := fun _ => inr tt;
     stem_forward := fun _ x => x;
     build_classifier := fun _ n =>
       inr (tt, {| in_features := 1; weight := replicate n [1]; bias := replicate n 0 |});
     hidden_forward := fun _ x => map (fun v => [v]) x;
     affine := fun w b x => foldr Z.add b (zip_with Z.mul w x);
     normal_sample := fun r c => Z.of_nat (r + c);
     fmul := Z.mul;
     function_to_str := sample_function_to_str |}.

(** The vocabulary written by [generate_flatqa.py], with two colours and
    two shapes. *)
Definition sample_tokens : list string :=
  ["<NULL>"; "<START>"; "<END>"; "scene"; "And"; "red"; "blue"; "square"; "circle"].

Definition arity (token : string) : Z :=
  if decide (token = "And") then 2
  else if decide (token = "scene") then 0
  else 1.

Definition make_vocab (tokens : list string) (arities : list Z) : Vocab :=
  {| program_token_to_idx := zip tokens (Z.of_nat <$> seq 0 (length tokens));
     program_token_arity := list_to_map (zip tokens arities);
     program_idx_to_token := list_to_map (zip (Z.of_nat <$> seq 0 (length tokens)) tokens);
     answer_idx_to_token := ["false"; "true"] |}.

Definition sample_vocab : Vocab := make_vocab sample_tokens (arity <$> sample_tokens).

(** The vocabulary of the concrete scenario: scene 0, And 2, red 1,
    square 1. *)
Definition scenario_vocab : Vocab :=
  make_vocab ["scene"; "And"; "red"; "square"] [0; 2; 1; 1].

Definition scenario_program : list Node :=
  [ {| function := "scene"; value_inputs := []; inputs := [] |};
    {| function := "square"; value_inputs := []; inputs := [0] |};
    {| function := "red"; value_inputs := []; inputs := [1] |} ].

(** The token id of a name, from [program_token_to_idx]. *)
Definition tok_of (v : Vocab) (name : string) : Z :=
  default 0 ((list_to_map (program_token_to_idx v) : gmap string Z) !! name).

Definition blank_model : @ModuleNet sample_layers :=
  @before_loop sample_layers sample_vocab false [] tt None None tt
    {| in_features := 1; weight := []; bias := [] |}.

(** The model a construction returned. *)
Definition built (o : outcome (@ModuleNet sample_layers)) : @ModuleNet sample_layers :=
  match o with
  | Ok s => s
  | _ => blank_model
  end.

Definition sample_model : @ModuleNet sample_layers :=
  built (@__init__ sample_layers sample_vocab tt false [0; 0]).

(** The scenario's model, built with both sharing switches on. *)
Definition scenario_model : @ModuleNet sample_layers :=
  built (@__init__ sample_layers scenario_vocab tt false [1; 1]).

(** Two rows, [<START> And red scene square scene <END>] and
    [<START> And blue scene circle scene <END>], as start count, tree and
    tail. *)
Definition sample_specs : list (nat * Tree * list Z) :=
  [ (1%nat, Binary "And" (Unary "red" Scene) (Unary "square" Scene), [2]);
    (1%nat, Binary "And" (Unary "blue" Scene) (Unary "circle" Scene), [2]) ].

Definition sample_rows : list (list Z) :=
  [[1; 4; 5; 3; 7; 3; 2]; [1; 4; 6; 3; 8; 3; 2]].

(** An answer vocabulary with one new label, at id 2. *)
Definition sample_answers : gmap string Z := {["maybe" := 2]}.



(** ** Further predicates on the model and its runs *)

Section MoreRuns.
Context `{Layers}.

(** [self.save_module_outputs = v], as a user of the model sets it. *)
Definition set_save_module_outputs (v : bool) (s : ModuleNet) : ModuleNet :=
  {| use_film := use_film s; sharing_patterns := sharing_patterns s; stem := stem s;
     gammas := gammas s; betas := betas s; classifier_hidden := classifier_hidden s;
     classifier_final := classifier_final s; function_modules := function_modules s;
     function_modules_num_inputs := function_modules_num_inputs s;
     fn_str_2_filmId := fn_str_2_filmId s; vocab := vocab s;
     modules_heap := modules_heap s; _modules := _modules s;
     save_module_outputs := v;
     all_module_outputs := all_module_outputs s;
     all_module_grad_outputs := all_module_grad_outputs s; used_fns := used_fns s |}.

(** What the registry loop maintains without conditioning: the modules
    registered with [add_module] are those of [function_modules], the heap
    holds unconditioned modules only, and every address in the registry, like
    the one the local [mod] holds, is allocated. *)
Definition registry_inv (s : ModuleNet) (l : Locals) : Prop :=
  use_film s = false
  /\ _modules s = function_modules s
  /\ Forall plain_module (modules_heap s)
  /\ (forall k a, function_modules s !! k = Some a -> (a < length (modules_heap s))%nat)
  /\ (forall a, l_mod l = Some a -> (a < length (modules_heap s))%nat).






(** A position of the program that holds an operator token: in range, with
    a name that is neither padding nor the start marker. *)
Definition operator_at (v : Vocab) (program : Tensor2) (i j : nat) : Prop :=
  exists row z name,
    data program !! i = Some row /\ row !! j = Some z /\ (j < size1 program)%nat
    /\ program_idx_to_token v !! z = Some name
    /\ name <> "<NULL>" /\ name <> "<START>".

(** A used-token mask of the program's shape, with entries 0 and 1, set
    only in the first [n] rows and only where the program holds an operator
    token. *)
Definition mask_inv (v : Vocab) (program : Tensor2) (n : nat) (u : list (list Z)) : Prop :=
  length u = length (data program)
  /\ Forall (fun row => length row = size1 program
                        /\ Forall (fun z => z = 0 \/ z = 1) row) u
  /\ forall i j row, u !! i = Some row -> row !! j = Some 1 ->
       (i < n)%nat /\ operator_at v program i j.

(** A run of [m] from a state of the model [s0] that satisfies the mask
    invariant ends in such a state. *)
Definition keeps_mask {A : Type} (s0 : ModuleNet) (program : Tensor2) (n : nat) (m : M A)
  : Prop :=
  forall s, unchanged s0 s -> mask_inv (vocab s0) program n (used_fns s) ->
    unchanged s0 (m s).1 /\ mask_inv (vocab s0) program n (used_fns (m s).1).

(** The outputs of all the nodes of example [i]. *)
Definition example_outs (s : ModuleNet) (feats : list Row) (program : list (list Node))
    (i : nat) : outcome (list (list Row)) :=
  nodes ← py_index program (Z.of_nat i);
  nodes_value s feats i [] nodes.

(** The capture buffers of [s'] are those of [s] with [outs] appended to the last list of
    outputs, when capture is on, and those of [s] when it is off. *)
Definition captured (s : ModuleNet) (outs : list (list Row)) (s' : ModuleNet) : Prop :=
  unchanged s s'
  /\ all_module_grad_outputs s' = all_module_grad_outputs s
  /\ if save_module_outputs s
     then exists ls l, all_module_outputs s = ls ++ [l]
                       /\ all_module_outputs s' = ls ++ [l ++ outs]
     else all_module_outputs s' = all_module_outputs s.

(** The largest id of an answer mapping. *)
Definition largest_id (answer_to_idx : gmap string Z) (m : Z) : Prop :=
  (exists k, answer_to_idx !! k = Some m)
  /\ forall k v, answer_to_idx !! k = Some v -> v <= m.


(** The value of a tree when the module of an operator is the one
    allocated at address [addr op]. *)
Fixpoint tree_apply (addr : string -> nat) (feat : list Row) (t : Tree) : list Row :=
  match t with
  | Scene => residual_forward (init_params (addr "scene")) feat
  | Unary op t => residual_forward (init_params (addr op)) (tree_apply addr feat t)
  | Binary op t1 t2 =>
      concat_forward (init_params (addr op)) (tree_apply addr feat t1) (tree_apply addr feat t2)
  end.

End MoreRuns.

(** * The dataset scripts *)

(** ** Dicts in insertion order *)

(** A Python dict with string keys, as the list of its items in insertion
    order. *)
Definition dict_setitem {V : Type} (d : list (string * V)) (k : string) (v : V)
  : list (string * V) :=
  if decide (k ∈ d.*1)
  then (fun kv : string * V => if decide (kv.1 = k) then (k, v) else kv) <$> d
  else d ++ [(k, v)].

Fixpoint dict_item {V : Type} (d : list (string * V)) (k : string) : option V :=
  match d with
  | [] => None
  | (k', v) :: d' => if decide (k' = k) then Some v else dict_item d' k
  end.

(** [d[k]]. *)
Definition dict_getitem {V : Type} (d : list (string * V)) (k : string) : outcome V :=
  match dict_item d k with
  | Some v => Ok v
  | None => Raise (KeyError k)
  end.

(** [{word: i for i, word in enumerate(words)}]. *)
Definition enumerate_dict (words : list string) : list (string * Z) :=
  foldl (fun d iw => dict_setitem d iw.2 (Z.of_nat iw.1)) []
    (zip (seq 0 (length words)) words).

(** [sorted(l)] on strings. *)
Definition sorted (l : list string) : list string := merge_sort String.le l.

(** ** preprocess_shapes.py *)

Definition _arity (token : string) : Z :=
  if String.prefix "_And" token then 2
  else if decide (token = "scene") then 0
  else 1.

(** The body of the inner loop of [create_vocab]. *)
Definition add_word (question_vocab : list (string * Z)) (w : string) : list (string * Z) :=
  if decide (w ∈ question_vocab.*1) then question_vocab
  else dict_setitem question_vocab w (Z.of_nat (length question_vocab)).

Definition create_vocab (questions : list (list string)) : list (string * Z) :=
  foldl (fun question_vocab q => foldl add_word question_vocab q)
    [("<NULL>", 0); ("<START>", 1); ("<END>", 2)] questions.

(** A parsed query and a module layout: a string or a tuple. *)
#[warnings="-register-all"]
Inductive PyObj : Type :=
| PyStr (s : string)
| PyTuple (items : list PyObj).

(** The choice of [module] in [layout_from_parsing]: bound only for the
    five heads the function knows, so any other head leaves it unbound. *)
Definition head_module (head : PyObj) : outcome string :=
  match head with
  | PyStr h =>
      if decide (h = "is") then Ok "_Answer"
      else if decide (h ∈ ["above"; "below"; "left_of"; "right_of"])
           then Ok ("_Transform[" +:+ h +:+ "]")
           else Raise (UnboundLocalError "module")
  | PyTuple _ => Raise (UnboundLocalError "module")
  end.

(** [layout_from_parsing(parse)].  [head] is [parse[0]]; with three items
    the two sub-layouts are fused under ["_And"], with two the layout below
    is that of [parse[1]], and more than three fail the assertion. *)
Fixpoint layout_from_parsing (parse : PyObj) : outcome PyObj :=
  match parse with
  | PyStr s => Ok (PyTuple [PyStr ("_Find[" +:+ s +:+ "]")])
  | PyTuple [] => Raise IndexError
  | PyTuple (head :: rest) =>
      below ←
        match rest with
        | [] => Raise IndexError
        | [p1] => layout_from_parsing p1
        | [p1; p2] =>
            l1 ← layout_from_parsing p1;
            l2 ← layout_from_parsing p2;
            Ok (PyTuple [PyStr "_And"; l1; l2])
        | _ :: _ :: _ :: _ => Raise AssertionError
        end;
      module ← head_module head;
      Ok (PyTuple [PyStr module; below])
  end.

(** [flatten_layout(module_layout)]: the head first, then the flattened
    sub-layouts in order. *)
Fixpoint flatten_layout (module_layout : PyObj) : outcome (list PyObj) :=
  match module_layout with
  | PyStr s => Ok [PyStr s]
  | PyTuple [] => Raise IndexError
  | PyTuple (module :: rest) =>
      PN ← (fix go (ms : list PyObj) (PN : list PyObj) : outcome (list PyObj) :=
              match ms with
              | [] => Ok PN
              | m :: ms' => sub ← flatten_layout m; go ms' (PN ++ sub)
              end) rest [module];
      Ok PN
  end.

(** The loop of [main] that puts ['scene'] after every [_Find] token. *)
Fixpoint with_scenes (program : list PyObj) (buffer_ : list string) : outcome (list string) :=
  match program with
  | [] => Ok buffer_
  | PyStr token :: program' =>
      with_scenes program'
        (if String.prefix "_Find" token then buffer_ ++ [token; "scene"] else buffer_ ++ [token])
  | PyTuple _ :: _ => Raise (AttributeError "startswith")
  end.

(** The program [main] builds for one parsed line. *)
Definition program_of_line (parse : PyObj) : outcome (list string) :=
  layout ← layout_from_parsing parse;
  program ← flatten_layout layout;
  buffer_ ← with_scenes program [];
  Ok (["<START>"] ++ buffer_ ++ ["<END>"]).

(** A row of [numpy.zeros((n, max_len))] after [row[:][:len(p)] = p]. *)
Definition pad_row (max_len : nat) (p : list Z) : list Z :=
  p ++ replicate (max_len - length p) 0.

(** The programs of the training part, as [main] writes them: the
    vocabulary, the width and the padded rows. *)
Definition train_programs (parses : list PyObj)
  : outcome (list (string * Z) * nat * list (list Z)) :=
  programs ← omapM program_of_line parses;
  max_program_len ← py_max ((fun p : list string => Z.of_nat (length p)) <$> programs);
  let program_vocab := create_vocab programs in
  ids ← omapM (omapM (dict_getitem program_vocab)) programs;
  Ok (program_vocab, Z.to_nat max_program_len,
      pad_row (Z.to_nat max_program_len) <$> (ids : list (list Z))).

(** The vocabulary a model is given after [vocab.json] is loaded: the
    arity of every token as the script computes it; the inverse dicts are
    added by the loader, which is not part of these sources. *)
Definition saved_vocab (program_vocab : list (string * Z)) (arity : string -> Z) : Vocab :=
  {| program_token_to_idx := program_vocab;
     program_token_arity := list_to_map ((fun name => (name, arity name)) <$> program_vocab.*1);
     program_idx_to_token := list_to_map (prod_swap <$> program_vocab);
     answer_idx_to_token := ["false"; "true"] |}.

(** ** generate_flatqa.py *)

Definition COLOR2RGB : list (string * (Z * Z * Z)) :=
  [("red", (255, 0, 0)); ("green", (0, 255, 0)); ("blue", (0, 0, 255));
   ("yellow", (255, 255, 0)); ("cyan", (0, 255, 255)); ("purple", (128, 0, 128));
   ("brown", (165, 42, 42)); ("gray", (128, 128, 128))].
Definition COLORS : list string := COLOR2RGB.*1.
Definition SHAPES : list string :=
  ["square"; "empty_square"; "circle"; "triangle"; "empty_triangle"; "cross"; "bar"].

Definition question_words : list string :=
  ["<NULL>"; "<START>"; "<END>"; "is"; "there"; "a"] ++ sorted COLOR2RGB.*1 ++ SHAPES.
Definition question_vocab : list (string * Z) := enumerate_dict question_words.
Definition program_words : list string :=
  ["<NULL>"; "<START>"; "<END>"; "scene"; "And"] ++ sorted COLOR2RGB.*1 ++ SHAPES.
Definition program_vocab : list (string * Z) := enumerate_dict program_words.

(** The question and the program rows [generate_dataset] writes for a
    shape and a colour. *)
Definition flatqa_rows (shape color : string) : outcome (list Z * list Z) :=
  let question := ["is"; "there"; "a"] ++ [color; shape] in
  let program := ["<START>"; "And"; shape; "scene"; color; "scene"; "<END>"] in
  q ← omapM (dict_getitem question_vocab) question;
  p ← omapM (dict_getitem program_vocab) program;
  Ok (q, p).

(** [list.index(x)]. *)
Definition list_index (l : list string) (x : string) : outcome nat :=
  match list_find (fun y => y = x) l with
  | Some (i, _) => Ok i
  | None => Raise (ValueError ("'" +:+ x +:+ "' is not in list"))
  end.

Definition RestrictSquaresAndTriangles (square_colors triangle_colors : list string)
    (test : bool) (obj : string * string) (purpose : string) : bool :=
  let '(shape, color) := obj in
  if decide (shape = "square") then bool_decide (color ∈ square_colors)
  else if decide (shape = "triangle") then bool_decide (color ∈ triangle_colors)
  else if test && negb (bool_decide (purpose = "generate")) then false
  else true.

Definition set1 : list string := ["gray"; "blue"; "brown"; "yellow"].
Definition set2 : list string := ["red"; "green"; "purple"; "cyan"].

Definition ExcludeDiagonal (test : bool) (obj : string * string) (purpose : string)
  : outcome bool :=
  let '(shape, color) := obj in
  shape_number ← list_index SHAPES shape;
  color_number ← list_index COLORS color;
  let diagonal := bool_decide (shape_number = color_number) in
  Ok (if test then bool_decide (purpose = "generate") || diagonal else negb diagonal).

(** [ObjectRestriction.__call__] over the [allow] of a subclass;
    [restrict_scene] is an integer read as a truth value. *)
Definition ObjectRestriction (allow : string * string -> string -> bool)
    (inverse : bool) (restrict_scene : Z) (obj : string * string) (purpose : string) : bool :=
  if bool_decide (restrict_scene = 0) && bool_decide (purpose = "generate") then true
  else if inverse then allow obj purpose
  else negb (allow obj purpose).

Definition ExcludeRedSquare_allow (obj : string * string) (purpose : string) : bool :=
  bool_decide (obj = ("square", "red")).

(** ** Predicates on what the scripts write *)

(** A dict whose [i]-th key, in insertion order, has the value [i]. *)
Definition dense (d : list (string * Z)) : Prop :=
  NoDup d.*1 /\ d.*2 = Z.of_nat <$> seq 0 (length d).

(** The three entries [create_vocab] starts from. *)
Definition sentinels : list (string * Z) := [("<NULL>", 0); ("<START>", 1); ("<END>", 2)].

(** The module a head of a query names. *)
Definition module_of_head (head : PyObj) : option string :=
  match head with
  | PyStr h =>
      if decide (h = "is") then Some "_Answer"
      else if decide (h ∈ ["above"; "below"; "left_of"; "right_of"])
           then Some ("_Transform[" +:+ h +:+ "]")
           else None
  | PyTuple _ => None
  end.

(** The logical tree of a parsed query: a string [s] finds [s] in the
    scene, a head applies its module to the layout below it, and two layouts
    below a head are joined by ["_And"]. *)
Fixpoint query_tree (parse : PyObj) : option Tree :=
  match parse with
  | PyStr s => Some (Unary ("_Find[" +:+ s +:+ "]") Scene)
  | PyTuple [head; p1] =>
      t1 ← query_tree p1;
      module ← module_of_head head;
      Some (Unary module t1)
  | PyTuple [head; p1; p2] =>
      t1 ← query_tree p1;
      t2 ← query_tree p2;
      module ← module_of_head head;
      Some (Unary module (Binary "_And" t1 t2))
  | _ => None
  end.

(** Every operator of the tree is used at the arity [arity] gives it, and
    none is spelled like the root or a sentinel. *)
Fixpoint arity_ok (arity : string -> Z) (t : Tree) : Prop :=
  match t with
  | Scene => True
  | Unary op t =>
      arity op = 1 /\ op <> "scene" /\ op <> "<NULL>" /\ op <> "<START>" /\ arity_ok arity t
  | Binary op t1 t2 =>
      arity op = 2 /\ op <> "scene" /\ op <> "<NULL>" /\ op <> "<START>"
      /\ arity_ok arity t1 /\ arity_ok arity t2
  end.

(** What [main] gets for a query with a tree: the layout flattens to
    strings, and the scene loop turns them into the tree's prefix
    notation. *)
Definition flattens_to (l : PyObj) (t : Tree) : Prop :=
  exists toks,
    flatten_layout l = Ok (PyStr <$> toks)
    /\ forall buf, with_scenes (PyStr <$> toks) buf = Ok (buf ++ prefix_names t).

(** The exceptions of [layout_from_parsing]. *)
Definition layout_error (e : exn) : Prop :=
  e = IndexError \/ e = AssertionError \/ e = UnboundLocalError "module".

(** The operators of the tree are keys of the vocabulary. *)
Fixpoint tree_in (keys : list string) (t : Tree) : Prop :=
  match t with
  | Scene => "scene" ∈ keys
  | Unary op t => op ∈ keys /\ tree_in keys t
  | Binary op t1 t2 => op ∈ keys /\ tree_in keys t1 /\ tree_in keys t2
  end.

(** The id of a token, 0 for a word the vocabulary lacks. *)
Definition token_id (program_vocab : list (string * Z)) (w : string) : Z :=
  default 0 (dict_item program_vocab w).

(** An arity function with a branch of the registry loop for every
    key. *)
Definition arities_ok (keys : list string) (arity : string -> Z) : Prop :=
  forall k, k ∈ keys -> k = "scene" \/ arity k = 1 \/ arity k = 2.

(** The program of a tree, as [main] writes it. *)
Definition tree_program (t : Tree) : list string :=
  ["<START>"] ++ prefix_names t ++ ["<END>"].

(** The tree a generated question stands for. *)
Definition flatqa_tree (o : string * string) : Tree :=
  Binary "And" (Unary o.1 Scene) (Unary o.2 Scene).

(** ** Further sample inputs *)

(** The scenario's model with output capture switched on. *)
Definition capturing_model : @ModuleNet sample_layers :=
  @set_save_module_outputs sample_layers true scenario_model.

(** A model with [use_film] set by hand. *)
Definition conditioned_model : @ModuleNet sample_layers :=
  @before_loop sample_layers sample_vocab true [1; 1] tt None None tt
    {| in_features := 1; weight := [[1]; [1]]; bias := [0; 0] |}.


(** Two parsed queries and their trees. *)
Definition sample_parses : list PyObj :=
  [PyTuple [PyStr "is"; PyTuple [PyStr "above"; PyStr "red"]; PyStr "circle"];
   PyTuple [PyStr "is"; PyStr "red"]].
Definition sample_query_trees : list Tree :=
  [Unary "_Answer"
     (Binary "_And" (Unary "_Transform[above]" (Unary "_Find[red]" Scene))
        (Unary "_Find[circle]" Scene));
   Unary "_Answer" (Unary "_Find[red]" Scene)].

(** * Properties *)

Section Proofs.
Context `{Layers}.

Abbreviation Tensor := (list Row).

Ltac unbind := unfold mbind, outcome_bind, obind, mret, outcome_ret in *.

(** ** Reasoning about runs *)

Lemma wp_bind {A B : Type} (m : M A) (k : A -> M B) s Q :
  wp m s (fun s' r => match r with
                      | Ok a => wp (k a) s' Q
                      | Raise e => Q s' (Raise e)
                      | Fuel => Q s' Fuel
                      end) ->
  wp (m ≫= k) s Q.
Proof.
  unfold wp, mbind, M_bind, Mbind. destruct (m s) as [s' [a|e|]]; simpl; auto.
Qed.

Lemma wp_ret {A : Type} (a : A) s (Q : ModuleNet -> outcome A -> Prop) :
  Q s (Ok a) -> wp (Mret a) s Q.
Proof. done. Qed.

Lemma wp_lift {A : Type} (o : outcome A) s (Q : ModuleNet -> outcome A -> Prop) :
  Q s o -> wp (lift o) s Q.
Proof. done. Qed.

Lemma wp_get s (Q : ModuleNet -> outcome ModuleNet -> Prop) :
  Q s (Ok s) -> wp get s Q.
Proof. done. Qed.

Lemma wp_modify f s (Q : ModuleNet -> outcome unit -> Prop) :
  Q (f s) (Ok tt) -> wp (modify f) s Q.
Proof. done. Qed.

Lemma wp_mono {A : Type} (m : M A) s (Q Q' : ModuleNet -> outcome A -> Prop) :
  wp m s Q -> (forall s' r, Q s' r -> Q' s' r) -> wp m s Q'.
Proof. unfold wp. auto. Qed.

Lemma unchanged_refl s : unchanged s s.
Proof. by repeat split. Qed.

Lemma unchanged_trans s1 s2 s3 : unchanged s1 s2 -> unchanged s2 s3 -> unchanged s1 s3.
Proof. unfold unchanged. intuition congruence. Qed.

Lemma keeps_bind {A B : Type} (m : M A) (k : A -> M B) :
  keeps m -> (forall a, keeps (k a)) -> keeps (m ≫= k).
Proof.
  intros Hm Hk s. unfold mbind, M_bind, Mbind. specialize (Hm s).
  destruct (m s) as [s' [a|e|]]; simpl in *; auto.
  eapply unchanged_trans; [exact Hm | apply Hk].
Qed.

Lemma keeps_ret {A : Type} (a : A) : keeps (Mret a).
Proof. intros s. apply unchanged_refl. Qed.

Lemma keeps_lift {A : Type} (o : outcome A) : keeps (lift o).
Proof. intros s. apply unchanged_refl. Qed.

Lemma keeps_get : keeps get.
Proof. intros s. apply unchanged_refl. Qed.

Lemma keeps_modify f : (forall s, unchanged s (f s)) -> keeps (modify f).
Proof. intros Hf s. apply Hf. Qed.

Ltac keeps_step :=
  first [ apply keeps_bind; [| intros ?] | apply keeps_get | apply keeps_lift
        | apply keeps_ret | apply keeps_modify; intros ?; by repeat split
        | case_match ].

(** ** Evaluation leaves the registry alone *)

Lemma keeps_json_node feats i outs f : keeps (json_node feats i outs f).
Proof. unfold json_node. repeat keeps_step. Qed.

Lemma keeps_json_nodes feats i nodes : forall outs, keeps (json_nodes feats i outs nodes).
Proof.
  induction nodes as [|f nodes IH]; intros outs; simpl.
  - apply keeps_ret.
  - apply keeps_bind; [apply keeps_json_node | intros ?; apply IH].
Qed.

Lemma keeps_json_example feats program i : keeps (json_example feats program i).
Proof.
  unfold json_example.
  repeat first [ apply keeps_json_nodes | keeps_step ].
Qed.

Lemma keeps_json_examples feats program idx :
  forall acc, keeps (json_examples feats program idx acc).
Proof.
  induction idx as [|i idx IH]; intros acc; simpl.
  - apply keeps_ret.
  - apply keeps_bind; [apply keeps_json_example | intros ?; apply IH].
Qed.

Lemma keeps_forward_modules_json feats program : keeps (_forward_modules_json feats program).
Proof.
  unfold _forward_modules_json.
  repeat first [ apply keeps_json_examples | keeps_step ].
Qed.

Lemma keeps_gather (rec : nat -> M (Tensor * nat)) k :
  (forall j, keeps (rec j)) -> forall acc j, keeps (gather_inputs rec k acc j).
Proof.
  intros Hrec. induction k as [|k IH]; intros acc j; simpl.
  - apply keeps_ret.
  - apply keeps_bind; [apply Hrec | intros [cur j']; apply IH].
Qed.

Lemma keeps_helper fuel feats program i :
  forall j, keeps (_forward_modules_ints_helper fuel feats program i j).
Proof.
  induction fuel as [|fuel IH]; intros j; simpl.
  - apply keeps_lift.
  - repeat first [ apply IH | apply keeps_gather; exact IH | keeps_step ].
Qed.

Lemma keeps_ints_examples fuel feats program idx :
  forall acc, keeps (ints_examples fuel feats program idx acc).
Proof.
  induction idx as [|i idx IH]; intros acc; simpl.
  - apply keeps_ret.
  - apply keeps_bind; [apply keeps_helper | intros [cur j]; apply IH].
Qed.

Lemma keeps_forward_modules_ints feats program : keeps (_forward_modules_ints feats program).
Proof.
  unfold _forward_modules_ints.
  repeat first [ apply keeps_ints_examples | keeps_step ].
Qed.

Lemma keeps_forward x program : keeps (forward x program).
Proof.
  unfold forward, _forward_modules_probs.
  repeat first [ apply keeps_forward_modules_json | apply keeps_forward_modules_ints
               | keeps_step ].
Qed.

(** C8. For every batch and every program, a run of the explicit-form
    evaluator, of the token-sequence evaluator (at any position of the
    recursive helper) and of [forward] itself leaves the module registry, the
    module parameters and the conditioning table as they were, whatever the
    run returns or raises: the state after the run differs from the state
    before at most in [all_module_outputs], [all_module_grad_outputs] and
    [used_fns]. *)
Theorem evaluation_keeps_registry :
  forall (s : ModuleNet) (feats : Tensor),
    (forall program, unchanged s (_forward_modules_json feats program s).1)
    /\ (forall program, unchanged s (_forward_modules_ints feats program s).1)
    /\ (forall fuel program i j,
          unchanged s (_forward_modules_ints_helper fuel feats program i j s).1)
    /\ (forall program, unchanged s (forward feats program s).1).
Proof.
  intros s feats. repeat split.
  all: intros; first [ apply keeps_forward_modules_json | apply keeps_forward_modules_ints
                     | apply keeps_helper | apply keeps_forward ].
Qed.

(** ** Construction under conditioning *)

Lemma registry_step_config k s l s' l' :
  registry_step k (s, l) = Ok (s', l') ->
  use_film s' = use_film s /\ sharing_patterns s' = sharing_patterns s /\ vocab s' = vocab s.
Proof.
  unfold registry_step, alloc, add_module. unbind. intros Hs.
  repeat (case_match; simplify_eq; simpl in *; try done).
Qed.

Lemma registry_step_plain k s l s' l' :
  registry_step k (s, l) = Ok (s', l') -> unconditioned s -> unconditioned s'.
Proof.
  unfold registry_step, alloc, add_module, unconditioned. unbind. intros Hs [Hf Hp].
  destruct (dict_get _ k) as [n| |]; simpl in Hs; try done.
  rewrite Hf in Hs. simpl in Hs.
  repeat (case_match; simplify_eq; simpl in *; try done).
  all: split; [done|]; try done; apply Forall_app; split; [done|]; by repeat constructor.
Qed.

Lemma registry_loop_plain keys : forall s l s' l',
  registry_loop keys (s, l) = Ok (s', l') -> unconditioned s -> unconditioned s'.
Proof.
  induction keys as [|k keys IH]; intros s l s' l' Hl Hu; simpl in Hl.
  - by simplify_eq.
  - unbind. destruct (registry_step k (s, l)) as [[s1 l1]| |] eqn:E; try done.
    eapply IH; [exact Hl|]. eapply registry_step_plain; eauto.
Qed.

Lemma init_unconditioned vocab cfg uf sp self :
  __init__ vocab cfg uf sp = Ok self -> uf = false /\ unconditioned self.
Proof.
  unfold __init__, declare_film_coefficients. unbind. intros Hi.
  destruct (build_stem cfg) as [e|st]; try done.
  destruct uf; simpl in Hi; try done.
  destruct (build_classifier cfg _) as [e|[hid fin]]; try done. simpl in Hi.
  destruct (registry_loop _ _) as [[s1 l1]| |] eqn:E; try done. simplify_eq.
  split; [done|]. eapply registry_loop_plain; [exact E|]. by split; [|constructor].
Qed.

Lemma call_plain_no_name_error m xs : plain_module m -> no_name_error (call_module m xs).
Proof. intros Hm n. destruct m; try done; simpl; repeat case_match; done. Qed.

Ltac wp_step :=
  first [ apply wp_bind | apply wp_get | apply wp_lift | apply wp_ret | apply wp_modify ].

Lemma gather_no_name_error (rec : nat -> M (Tensor * nat)) k :
  (forall j s, unconditioned s -> wp (rec j) s (fun s' r => unconditioned s' /\ no_name_error r)) ->
  forall acc j s, unconditioned s ->
    wp (gather_inputs rec k acc j) s (fun s' r => unconditioned s' /\ no_name_error r).
Proof.
  intros Hrec. induction k as [|k IH]; intros acc j s Hu; simpl.
  - apply wp_ret. split; [done|]. by intros n.
  - apply wp_bind. eapply wp_mono; [apply Hrec; exact Hu|].
    intros s' [[cur j']|e|] [Hu' Hn]; simpl; [by apply IH| |]; (split; [done|]).
    + intros n ?; simplify_eq. by eapply Hn.
    + by intros n.
Qed.

Lemma no_name_error_outcome {A B} (r : outcome A) :
  no_name_error r -> forall e, r = Raise e -> no_name_error (@Raise B e).
Proof. intros Hn e -> n ?. simplify_eq. by eapply Hn. Qed.

Ltac nne := intros ? ?; simplify_eq.

Lemma read_token_no_name_error program i j s :
  unconditioned s ->
  wp (read_token program i j) s (fun s' r => unconditioned s' /\ no_name_error r).
Proof.
  intros Hu. unfold read_token, index2, dict_getZ.
  repeat first [ wp_step | case_match | split; [done|nne] ].
Qed.

Lemma apply_token_no_name_error (rec : nat -> M (Tensor * nat)) feats i j used fn_str :
  (forall j s, unconditioned s -> wp (rec j) s (fun s' r => unconditioned s' /\ no_name_error r)) ->
  forall s, unconditioned s ->
    wp (apply_token rec feats i j used fn_str) s (fun s' r => unconditioned s' /\ no_name_error r).
Proof.
  intros Hrec s Hu. unfold apply_token.
  apply wp_bind.
  eapply (wp_mono _ _ (fun s' r => unconditioned s' /\ r = Ok tt)).
  { destruct used; [apply wp_modify | apply wp_ret]; done. }
  intros s1 r [Hu1 ->]. apply wp_bind, wp_get. apply wp_bind, wp_lift.
  unfold dict_get.
  destruct (function_modules_num_inputs s1 !! fn_str) as [num|]; [|split; [done|nne]].
  apply wp_bind, wp_lift. unfold resolve. destruct Hu1 as [Hf1 Hp1]. rewrite Hf1.
  unfold dict_get. unbind.
  destruct (function_modules s1 !! fn_str) as [a|]; [|split; [done|nne]].
  apply wp_bind.
  eapply (wp_mono _ _ (fun s' r => unconditioned s' /\ no_name_error r)).
  { case_match; [apply wp_ret; split; [done|nne] | by apply gather_no_name_error]. }
  intros s2 [[ins j2]|e|] [[Hf2 Hp2] Hn]; [| split; [done|]; nne; by eapply Hn | split; [done|nne] ].
  apply wp_bind, wp_get. rewrite Hf2.
  apply wp_bind, wp_lift. unfold deref. destruct (modules_heap s2 !! a) as [m|] eqn:Em; [|split; [done|nne]].
  apply wp_bind, wp_lift.
  pose proof (call_plain_no_name_error m ins) as Hc.
  assert (plain_module m) as Hm by (eapply Forall_lookup_1; eauto).
  specialize (Hc Hm).
  destruct (call_module m ins) as [o|e|]; [apply wp_ret; split; [done|nne] | split; [done|]; nne; by eapply Hc | split; [done|nne]].
Qed.

Lemma helper_no_name_error fuel feats program i :
  forall j s, unconditioned s ->
    wp (_forward_modules_ints_helper fuel feats program i j) s
       (fun s' r => unconditioned s' /\ no_name_error r).
Proof.
  induction fuel as [|fuel IH]; intros j s Hu; simpl.
  - apply wp_lift. split; [done|nne].
  - apply wp_bind. eapply wp_mono; [by apply read_token_no_name_error|].
    intros s1 [[used fn_str]|e|] [Hu1 Hn]; [| split; [done|]; nne; by eapply Hn | split; [done|nne]].
    repeat case_match; first [ by apply apply_token_no_name_error | by apply IH ].
Qed.

(** C10. With [use_film] set, [ModuleNet.__init__] always raises and never
    returns a model: once the stem is built, [declare_film_coefficients] raises
    [AttributeError] on [fn_str_2_filmId], which is assigned only later; were
    that attribute there, the read of [module_dim] and then the name
    [xavier_uniform] would raise in turn.  Hence every model [__init__]
    returns has [use_film] off, and no run of the token-sequence helper on
    such a model reaches the conditioned branch: it never raises the
    [NameError] of the unbound [gammas] and [betas]. *)
Theorem film_model_never_constructed :
  (forall vocab cfg sp, exists e, __init__ vocab cfg true sp = Raise e)
  /\ (forall vocab cfg sp st,
        build_stem cfg = inr st ->
        __init__ vocab cfg true sp = Raise (AttributeError "fn_str_2_filmId"))
  /\ (forall tbl d,
        declare_film_coefficients true (Some tbl) None = Raise (AttributeError "module_dim")
        /\ declare_film_coefficients true (Some tbl) (Some d)
           = Raise (NameError "xavier_uniform"))
  /\ (forall vocab cfg uf sp self,
        __init__ vocab cfg uf sp = Ok self ->
        use_film self = false
        /\ forall fuel feats program i j,
             no_name_error (_forward_modules_ints_helper fuel feats program i j self).2).
Proof.
  split; [|split; [|split]].
  - intros vocab cfg sp. unfold __init__.
    destruct (build_stem cfg) as [e|st]; simpl; eauto.
  - intros vocab cfg sp st Hst. unfold __init__. by rewrite Hst.
  - done.
  - intros vocab cfg uf sp self Hi. apply init_unconditioned in Hi as [_ Hu].
    split; [by destruct Hu|]. intros fuel feats program i j.
    by destruct (helper_no_name_error fuel feats program i j self Hu) as [_ ?].
Qed.

(** ** Dispatch *)

Lemma forward_cases (x : Tensor) (program : Program) (s : ModuleNet) :
  (py_len program = Ok (length x) ->
   forward x program s =
     let feats := stem_forward (stem s) x in
     match program with
     | PList l | PTuple l => then_classify (_forward_modules_json feats l) s
     | PVariable shape rows =>
         if decide (length shape = 2%nat)
         then then_classify
                (_forward_modules_ints feats {| size1 := nth 1 shape 0%nat; data := rows |}) s
         else (s, unrecognized)
     | PTensor shape =>
         if decide (length shape = 3%nat)
         then then_classify (_forward_modules_probs feats program) s
         else (s, unrecognized)
     | POther _ => (s, unrecognized)
     end)
  /\ (forall n, py_len program = Ok n -> n <> length x ->
        forward x program s = (s, Raise AssertionError))
  /\ (forall e, py_len program = Raise e -> forward x program s = (s, Raise e)).
Proof.
  split; [|split].
  - intros Hlen. unfold forward, then_classify, unrecognized.
    unfold mbind at 1. unfold M_bind, Mbind. unfold lift at 1. rewrite Hlen.
    rewrite Nat.eqb_refl. simpl negb. cbv iota.
    destruct program as [l|l|shape rows|shape|o]; simpl.
    + done.
    + done.
    + destruct (decide (length shape = 2%nat)) as [->|Hn]; [done|].
      apply Nat.eqb_neq in Hn. by rewrite Hn.
    + destruct (decide (length shape = 3%nat)) as [->|Hn]; [done|].
      apply Nat.eqb_neq in Hn. by rewrite Hn.
    + done.
  - intros n Hlen Hn. unfold forward.
    unfold mbind at 1. unfold M_bind, Mbind. unfold lift at 1. rewrite Hlen.
    assert ((length x =? n)%nat = false) as -> by (apply Nat.eqb_neq; congruence). done.
  - intros e Hlen. unfold forward.
    unfold mbind at 1. unfold M_bind, Mbind. unfold lift at 1. by rewrite Hlen.
Qed.

(** C5, as the code has it.  When [len(program)] is the batch size, a list
    or a tuple is evaluated in explicit form, an autograd [Variable] of rank 2
    in token-sequence form, a plain tensor of rank 3 is handed to
    [_forward_modules_probs], and every other argument, a plain tensor of
    rank 2 and a [Variable] of rank 3 among them, raises
    [ValueError('Unrecognized program format')]; the selected evaluator's
    output goes to the classifier.  An argument of another length fails the
    assertion and one without a length raises [TypeError], before any
    dispatch. *)
Theorem forward_dispatch (x : Tensor) (program : Program) (s : ModuleNet) :
  (py_len program = Ok (length x) ->
   forward x program s =
     let feats := stem_forward (stem s) x in
     match program with
     | PList l | PTuple l => then_classify (_forward_modules_json feats l) s
     | PVariable shape rows =>
         if decide (length shape = 2%nat)
         then then_classify
                (_forward_modules_ints feats {| size1 := nth 1 shape 0%nat; data := rows |}) s
         else (s, unrecognized)
     | PTensor shape =>
         if decide (length shape = 3%nat)
         then then_classify (_forward_modules_probs feats program) s
         else (s, unrecognized)
     | POther _ => (s, unrecognized)
     end)
  /\ (forall n, py_len program = Ok n -> n <> length x ->
        forward x program s = (s, Raise AssertionError))
  /\ (forall e, py_len program = Raise e -> forward x program s = (s, Raise e)).
Proof. apply forward_cases. Qed.

(** ** Answer-vocabulary expansion *)

Lemma normal_length n d : length (normal_ n d) = n.
Proof. unfold normal_. by rewrite length_map, length_seq. Qed.


(** ** The registry loop *)

Lemma registry_step_nofilm k s l :
  use_film s = false -> operator_ok (vocab s) k ->
  exists s' l',
    registry_step k (s, l) = Ok (s', l')
    /\ use_film s' = false /\ vocab s' = vocab s
    /\ modules_heap s' = modules_heap s ++ [block_of (vocab s) (length (modules_heap s)) k]
    /\ function_modules s' = <[k := length (modules_heap s)]> (function_modules s)
    /\ function_modules_num_inputs s'
       = <[k := default 0 (program_token_arity (vocab s) !! k)]> (function_modules_num_inputs s).
Proof.
  intros Hf (n & Hn & Hc). unfold registry_step, dict_get, block_of, unary_class. rewrite Hn. unbind.
  simpl. rewrite Hf. simpl.
  destruct (decide (k = "scene" ∨ n = 1)) as [Hd|Hd].
  - simpl. rewrite !Hf. simpl. rewrite !Hf. eexists _, _. split; [reflexivity|]. simpl.
    repeat split; try done.
    rewrite decide_True; [done|]. destruct Hd as [? | ->]; auto.
  - destruct (decide (n = 2)) as [->|Hn2]; [|exfalso; destruct Hc as [?|[?|?]]; auto].
    simpl. rewrite !Hf. simpl. rewrite !Hf. eexists _, _. split; [reflexivity|]. simpl.
    repeat split; try done.
    rewrite decide_False; [done|]. intros [?|?]; [auto | simplify_eq].
Qed.

Lemma registry_loop_nofilm keys : forall s l,
  use_film s = false -> Forall (operator_ok (vocab s)) keys ->
  exists s' l',
    registry_loop keys (s, l) = Ok (s', l')
    /\ use_film s' = false /\ vocab s' = vocab s
    /\ length (modules_heap s') = (length (modules_heap s) + length keys)%nat
    /\ (forall a m, modules_heap s !! a = Some m -> modules_heap s' !! a = Some m)
    /\ (forall i k, keys !! i = Some k ->
          modules_heap s' !! (length (modules_heap s) + i)%nat
          = Some (block_of (vocab s) (length (modules_heap s) + i) k))
    /\ (forall k, k ∉ keys -> function_modules s' !! k = function_modules s !! k)
    /\ (forall k, k ∉ keys ->
          function_modules_num_inputs s' !! k = function_modules_num_inputs s !! k)
    /\ (forall k, k ∈ keys ->
          function_modules_num_inputs s' !! k = program_token_arity (vocab s) !! k)
    /\ (NoDup keys -> forall i k, keys !! i = Some k ->
          function_modules s' !! k = Some (length (modules_heap s) + i)%nat).
Proof.
  induction keys as [|k keys IH]; intros s l Hf Hok.
  - eexists _, _. split; [reflexivity|]. repeat split; try done.
    all: try (simpl; lia).
    all: try (intros k Hk; by apply elem_of_nil in Hk).
    all: try (intros i k Hk; by rewrite lookup_nil in Hk).
    all: try (intros ? i k Hk; by rewrite lookup_nil in Hk).
  - apply Forall_cons in Hok as [Hk Hok].
    destruct (registry_step_nofilm k s l Hf Hk) as (s1 & l1 & Hs & Hf1 & Hv1 & Hh1 & Hm1 & Hn1).
    rewrite <- Hv1 in Hok.
    destruct (IH s1 l1 Hf1 Hok) as (s' & l' & Hl & Hf' & Hv' & Hlen & Hold & Hnew & Hfm & Hni & Hni' & Hnd).
    exists s', l'. simpl. rewrite Hs. unbind. split; [exact Hl|].
    rewrite Hh1 in *. rewrite length_app in *. simpl in *.
    split; [done|]. split; [congruence|]. split; [lia|].
    split; [|split; [|split; [|split; [|split]]]].
    + intros a m Ha. apply Hold. by apply lookup_app_l_Some.
    + intros [|i] k' Hi; simpl in Hi.
      * simplify_eq. rewrite Nat.add_0_r. apply Hold.
        rewrite lookup_app_r by lia. by rewrite Nat.sub_diag.
      * specialize (Hnew i k' Hi). rewrite Hv1 in Hnew.
        replace (length (modules_heap s) + S i)%nat with (length (modules_heap s) + 1 + i)%nat by lia.
        done.
    + intros k' Hk'. apply not_elem_of_cons in Hk' as [Hne Hk'].
      rewrite Hfm by done. rewrite Hm1. by rewrite lookup_insert_ne.
    + intros k' Hk'. apply not_elem_of_cons in Hk' as [Hne Hk'].
      rewrite Hni by done. rewrite Hn1. by rewrite lookup_insert_ne.
    + intros k' Hk'. destruct (decide (k' ∈ keys)) as [Hin|Hnin].
      * rewrite Hni' by done. by rewrite Hv1.
      * apply elem_of_cons in Hk' as [-> | ?]; [|done].
        rewrite Hni by done. rewrite Hn1, lookup_insert_eq.
        destruct Hk as (n & -> & _). done.
    + intros Hdup [|i] k' Hi; simpl in Hi; apply NoDup_cons in Hdup as [Hnotin Hdup].
      * simplify_eq. rewrite Hfm by done. rewrite Hm1, lookup_insert_eq. f_equal. lia.
      * rewrite (Hnd Hdup i k' Hi). f_equal. lia.
Qed.




Lemma init_nofilm vocab cfg sp st hid fin :
  build_stem cfg = inr st ->
  build_classifier cfg (length (answer_idx_to_token vocab)) = inr (hid, fin) ->
  Forall (operator_ok vocab) (program_token_to_idx vocab).*1 ->
  exists self l,
    __init__ vocab cfg false sp = Ok self
    /\ registry_loop (program_token_to_idx vocab).*1
         (before_loop vocab false sp st None None hid fin, no_locals) = Ok (self, l).
Proof.
  intros Hst Hcl Hok.
  destruct (registry_loop_nofilm (program_token_to_idx vocab).*1
              (before_loop vocab false sp st None None hid fin) no_locals eq_refl Hok)
    as (s' & l' & Hl & _).
  exists s', l'. split; [|done].
  unfold __init__, declare_film_coefficients. rewrite Hst. unbind. simpl. rewrite Hcl. simpl.
  by rewrite Hl.
Qed.

Lemma init_nofilm_registry vocab cfg sp st hid fin :
  build_stem cfg = inr st ->
  build_classifier cfg (length (answer_idx_to_token vocab)) = inr (hid, fin) ->
  NoDup (program_token_to_idx vocab).*1 ->
  Forall (operator_ok vocab) (program_token_to_idx vocab).*1 ->
  exists self,
    __init__ vocab cfg false sp = Ok self
    /\ length (modules_heap self) = length (program_token_to_idx vocab)
    /\ (forall i k, (program_token_to_idx vocab).*1 !! i = Some k ->
          function_modules self !! k = Some i
          /\ modules_heap self !! i = Some (block_of vocab i k)
          /\ function_modules_num_inputs self !! k = program_token_arity vocab !! k)
    /\ (forall k, k ∉ (program_token_to_idx vocab).*1 -> function_modules self !! k = None).
Proof.
  intros Hst Hcl Hnd Hok.
  destruct (init_nofilm vocab cfg sp st hid fin Hst Hcl Hok) as (self & l & Hi & Hl).
  destruct (registry_loop_nofilm (program_token_to_idx vocab).*1
              (before_loop vocab false sp st None None hid fin) no_locals eq_refl Hok)
    as (s' & l' & Hl' & _ & _ & Hlen & _ & Hnew & Hfm & _ & Hni & Hkeys).
  rewrite Hl in Hl'. simplify_eq. simpl in *.
  exists s'. split; [done|]. split; [by rewrite Hlen, length_fmap|].
  split.
  - intros i k Hk. split; [by apply Hkeys|]. split; [by apply Hnew|].
    apply Hni. by eapply list_elem_of_lookup_2.
  - intros k Hk. by rewrite Hfm.
Qed.



(** ** Explicit-form evaluation *)

Ltac unM := unfold mbind, M_bind, Mbind, get, lift, modify, Mret in *.

Lemma node_value_unchanged s s' feats i outs f :
  unchanged s s' -> node_value s' feats i outs f = node_value s feats i outs f.
Proof.
  intros Hu. unfold node_value. destruct Hu as (_&_&_&_&_&_&_&->&_&_&_&->&_). done.
Qed.

Lemma nodes_value_unchanged s s' feats i nodes : forall outs,
  unchanged s s' -> nodes_value s' feats i outs nodes = nodes_value s feats i outs nodes.
Proof.
  induction nodes as [|f nodes IH]; intros outs Hu; simpl; [done|].
  rewrite (node_value_unchanged s s') by done. unbind.
  destruct (node_value s feats i outs f); try done. by apply IH.
Qed.

Lemma append_last_ok {A} (x : A) ls : ls <> [] -> exists ls', append_last x ls = Ok ls' /\ ls' <> [].
Proof.
  intros Hne. unfold append_last. destruct (last ls) as [l|] eqn:E.
  - eexists. split; [done|]. intros Hnil. apply (f_equal length) in Hnil.
    rewrite length_insert in Hnil. destruct ls; simpl in *; done.
  - apply last_None in E. done.
Qed.

Lemma json_node_value feats i outs f s :
  save_inv s ->
  exists s',
    json_node feats i outs f s
    = (s', out ← node_value s feats i outs f; Ok (outs ++ [out]))
    /\ unchanged s s' /\ save_inv s'.
Proof.
  intros Hinv. unfold json_node, node_value. unM. unbind. simpl.
  destruct (dict_get _ _) as [a| |]; simpl; try by (eexists; split; [done|split; [apply unchanged_refl|done]]).
  destruct (deref _ a) as [m| |]; simpl; try by (eexists; split; [done|split; [apply unchanged_refl|done]]).
  destruct (if decide (function_to_str f = "scene") then _ else _) as [ins| |]; simpl;
    try by (eexists; split; [done|split; [apply unchanged_refl|done]]).
  destruct (call_module m ins) as [out| |]; simpl;
    try by (eexists; split; [done|split; [apply unchanged_refl|done]]).
  destruct (save_module_outputs s) eqn:Es; simpl.
  - destruct (append_last_ok out (all_module_outputs s) (Hinv Es)) as (ls' & -> & Hne). simpl.
    eexists. split; [done|]. split; [by repeat split|]. intros _. done.
  - eexists. split; [done|]. split; [apply unchanged_refl|done].
Qed.

Lemma json_nodes_value feats i nodes : forall outs s,
  save_inv s ->
  exists s',
    json_nodes feats i outs nodes s = (s', nodes_value s feats i outs nodes)
    /\ unchanged s s' /\ save_inv s'.
Proof.
  induction nodes as [|f nodes IH]; intros outs s Hinv; simpl.
  - eexists. split; [done|]. split; [apply unchanged_refl|done].
  - destruct (json_node_value feats i outs f s Hinv) as (s1 & Hrun & Hu1 & Hinv1).
    unfold mbind at 1. unfold M_bind, Mbind. rewrite Hrun. unbind.
    destruct (node_value s feats i outs f) as [out| |]; simpl.
    + destruct (IH (outs ++ [out]) s1 Hinv1) as (s' & Hrun' & Hu' & Hinv').
      exists s'. rewrite Hrun'. split; [|split; [by eapply unchanged_trans|done]].
      by rewrite (nodes_value_unchanged s s1).
    + eexists. split; [done|]. done.
    + eexists. split; [done|]. done.
Qed.

Lemma example_value_unchanged s s' feats program i :
  unchanged s s' -> example_value s' feats program i = example_value s feats program i.
Proof.
  intros Hu. unfold example_value. unbind. destruct (py_index program _); try done.
  by rewrite (nodes_value_unchanged s s').
Qed.

Lemma json_example_value feats program i s :
  exists s',
    json_example feats program i s = (s', example_value s feats program i)
    /\ unchanged s s'.
Proof.
  unfold json_example, example_value.
  unfold mbind at 1. unfold M_bind, Mbind. unfold get at 1.
  destruct (save_module_outputs s) eqn:Es.
  - unM. unbind. simpl.
    destruct (py_index program (Z.of_nat i)) as [nodes| |] eqn:Ei; simpl;
      try (eexists; split; [done|by repeat split]).
    set (s1 := set_all_module_grad_outputs _ _).
    assert (Hinv1 : save_inv s1) by (intros _; simpl; by destruct (all_module_outputs s)).
    assert (Hu1 : unchanged s s1) by by repeat split.
    destruct (json_nodes_value feats i nodes [] s1 Hinv1) as (s' & -> & Hu' & _).
    rewrite (nodes_value_unchanged s s1) by done.
    exists s'. split; [|by eapply unchanged_trans].
    by destruct (nodes_value s feats i [] nodes).
  - unM. unbind. simpl.
    destruct (py_index program (Z.of_nat i)) as [nodes| |] eqn:Ei; simpl;
      try (eexists; split; [done|by repeat split]).
    assert (Hinv1 : save_inv s) by (intros ?; congruence).
    destruct (json_nodes_value feats i nodes [] s Hinv1) as (s' & -> & Hu' & _).
    exists s'. split; [|done].
    by destruct (nodes_value s feats i [] nodes).
Qed.

Lemma omapM_unchanged_ext {A B} (f g : A -> outcome B) l :
  (forall a, f a = g a) -> omapM f l = omapM g l.
Proof. intros Hfg. induction l as [|a l IH]; simpl; [done|]. by rewrite Hfg, IH. Qed.

Lemma json_examples_value feats program idx : forall acc s,
  exists s',
    json_examples feats program idx acc s
    = (s', rs ← omapM (example_value s feats program) idx; Ok (acc ++ rs))
    /\ unchanged s s'.
Proof.
  induction idx as [|i idx IH]; intros acc s; simpl.
  - eexists. split; [by rewrite app_nil_r|apply unchanged_refl].
  - destruct (json_example_value feats program i s) as (s1 & Hrun & Hu1).
    unfold mbind at 1. unfold M_bind, Mbind. rewrite Hrun. unbind.
    destruct (example_value s feats program i) as [out| |]; simpl;
      try (eexists; split; [done|done]).
    destruct (IH (acc ++ [out]) s1) as (s' & -> & Hu').
    exists s'. split; [|by eapply unchanged_trans].
    rewrite (omapM_unchanged_ext _ (example_value s feats program))
      by (intros; by apply example_value_unchanged).
    destruct (omapM _ idx); simpl; try done. by rewrite <- app_assoc.
Qed.

Lemma forward_modules_json_value feats program s :
  (_forward_modules_json feats program s).2 = json_value s feats program.
Proof.
  unfold _forward_modules_json, json_value.
  unfold mbind at 1. unfold M_bind, Mbind. unfold modify at 1.
  unfold mbind at 1. unfold M_bind, Mbind. unfold modify at 1.
  set (s1 := set_all_module_grad_outputs _ _).
  assert (Hu1 : unchanged s s1) by by repeat split.
  unfold mbind at 1. unfold M_bind, Mbind.
  destruct (json_examples_value feats program (seq 0 (length feats)) [] s1) as (s' & -> & _).
  rewrite (omapM_unchanged_ext _ (example_value s feats program))
    by (intros; by apply example_value_unchanged).
  unbind. by destruct (omapM _ _).
Qed.

Lemma omapM_Ok {A B} (f : A -> outcome B) l r :
  omapM f l = Ok r <-> Forall2 (fun a b => f a = Ok b) l r.
Proof.
  revert r. induction l as [|a l IH]; intros r; simpl.
  - split; [intros; simplify_eq; constructor | intros Hr; by inversion Hr].
  - unbind. split.
    + destruct (f a) as [b| |] eqn:Ea; try done.
      destruct (omapM f l) as [bs| |] eqn:El; try done.
      intros; simplify_eq. constructor; [done|]. by apply IH.
    + intros Hr. inversion Hr as [|? b ? bs Hb Hbs]; subst.
      rewrite Hb. apply IH in Hbs. by rewrite Hbs.
Qed.

Lemma node_value_Ok s feats i prev f out :
  node_value s feats i prev f = Ok out <->
  exists a m ins,
    function_modules s !! function_to_str f = Some a
    /\ modules_heap s !! a = Some m
    /\ (if decide (function_to_str f = "scene") then ins = [slice feats i]
        else Forall2 (fun k x => py_index prev k = Ok x) (inputs f) ins)
    /\ call_module m ins = Ok out.
Proof.
  unfold node_value, dict_get, deref. unbind. split.
  - destruct (function_modules s !! _) as [a|] eqn:Ea; try done.
    destruct (modules_heap s !! a) as [m|] eqn:Em; try done.
    destruct (decide (function_to_str f = "scene")).
    + intros Hc. by exists a, m, [slice feats i].
    + destruct (omapM _ _) as [ins| |] eqn:Ei; try done.
      intros Hc. exists a, m, ins. by apply omapM_Ok in Ei.
  - intros (a & m & ins & -> & -> & Hins & Hc).
    destruct (decide (function_to_str f = "scene")).
    + by subst ins.
    + apply omapM_Ok in Hins. by rewrite Hins.
Qed.

Lemma nodes_value_Ok s feats i nodes : forall prev res,
  nodes_value s feats i prev nodes = Ok res <->
  exists outs,
    res = prev ++ outs /\ length outs = length nodes
    /\ forall j f out, nodes !! j = Some f -> outs !! j = Some out ->
         node_value s feats i (prev ++ take j outs) f = Ok out.
Proof.
  induction nodes as [|f nodes IH]; intros prev res; simpl.
  - split.
    + intros; simplify_eq. exists []. by rewrite app_nil_r.
    + intros (outs & -> & Hlen & _). destruct outs; [|done]. by rewrite app_nil_r.
  - unbind. split.
    + destruct (node_value s feats i prev f) as [out| |] eqn:En; try done.
      intros Hr. apply IH in Hr as (outs & -> & Hlen & Hall).
      exists (out :: outs). split; [by rewrite <- app_assoc|]. split; [simpl; lia|].
      intros [|j] f' out' Hf Ho; simpl in *; simplify_eq.
      * by rewrite app_nil_r.
      * specialize (Hall j f' out' Hf Ho). by rewrite <- app_assoc in Hall.
    + intros (outs & -> & Hlen & Hall). destruct outs as [|out outs]; [done|].
      pose proof (Hall 0%nat f out eq_refl eq_refl) as H0. simpl in H0.
      rewrite app_nil_r in H0. rewrite H0.
      apply IH. exists outs. split; [by rewrite <- app_assoc|]. split; [simpl in *; lia|].
      intros j f' out' Hf Ho. specialize (Hall (S j) f' out' Hf Ho). simpl in Hall.
      by rewrite <- app_assoc.
Qed.

Lemma py_index_nat {A} (l : list A) (i : nat) x :
  py_index l (Z.of_nat i) = Ok x <-> l !! i = Some x.
Proof.
  unfold py_index. cbv zeta.
  assert (H0 : (Z.of_nat i <? 0) = false) by (apply Z.ltb_ge; lia).
  rewrite !H0. simpl. rewrite ?H0, Nat2Z.id. simpl. rewrite ?H0. simpl.
  destruct (l !! i) as [y|] eqn:E.
  - apply lookup_lt_Some in E as Hlt.
    assert ((Z.of_nat (length l) <=? Z.of_nat i) = false) as -> by (apply Z.leb_gt; lia).
    split; intros; by simplify_eq.
  - destruct (_ <=? _); split; intros; by simplify_eq.
Qed.

Lemma py_index_last {A} (l : list A) x :
  py_index l (-1) = Ok x <-> last l = Some x.
Proof.
  unfold py_index. cbv zeta. simpl (-1 <? 0). cbv iota.
  destruct l as [|a l _] using rev_ind.
  - simpl. split; intros; by simplify_eq.
  - rewrite last_snoc, length_app. simpl length. change (-1 <? 0) with true. cbv iota.
    assert ((-1 + Z.of_nat (length l + 1) <? 0) = false) as -> by (apply Z.ltb_ge; lia).
    assert ((Z.of_nat (length l + 1) <=? -1 + Z.of_nat (length l + 1)) = false) as ->
      by (apply Z.leb_gt; lia).
    replace (Z.to_nat (-1 + Z.of_nat (length l + 1))) with (length l) by lia.
    rewrite lookup_app_r by lia. rewrite Nat.sub_diag. simpl.
    split; intros; by simplify_eq.
Qed.

Lemma example_value_Ok s feats program i r :
  example_value s feats program i = Ok r <->
  exists nodes outs,
    program !! i = Some nodes /\ example_outputs s feats i nodes outs /\ last outs = Some r.
Proof.
  unfold example_value, example_outputs. unbind. split.
  - destruct (py_index program _) as [nodes| |] eqn:Ep; try done.
    apply py_index_nat in Ep.
    destruct (nodes_value s feats i [] nodes) as [res| |] eqn:En; try done.
    apply nodes_value_Ok in En as (outs & -> & Hlen & Hall). simpl.
    intros Hl. apply py_index_last in Hl.
    exists nodes, outs. split; [done|]. split; [|done]. split; [done|].
    intros j f out Hf Ho. specialize (Hall j f out Hf Ho). simpl in Hall.
    by apply node_value_Ok in Hall.
  - intros (nodes & outs & Hp & [Hlen Hall] & Hl).
    apply py_index_nat in Hp. rewrite Hp.
    assert (nodes_value s feats i [] nodes = Ok outs) as ->.
    { apply nodes_value_Ok. exists outs. split; [done|]. split; [done|].
      intros j f out Hf Ho. simpl. apply node_value_Ok. by apply Hall. }
    by apply py_index_last.
Qed.

Lemma json_value_Ok s feats program out :
  json_value s feats program = Ok out <->
  feats <> []
  /\ exists results,
       length results = length feats /\ out = concat results
       /\ forall i r, results !! i = Some r ->
            exists nodes outs,
              program !! i = Some nodes /\ example_outputs s feats i nodes outs
              /\ last outs = Some r.
Proof.
  unfold json_value, torch_cat. unbind. split.
  - destruct (omapM _ _) as [results| |] eqn:Eo; try done.
    apply omapM_Ok in Eo. pose proof (Forall2_length _ _ _ Eo) as Hlen.
    rewrite length_seq in Hlen.
    destruct results as [|r0 results]; [done|]. intros Ho. simplify_eq.
    split; [by destruct feats|]. eexists. split; [done|]. split; [done|].
    intros i r Hr. apply example_value_Ok.
    eapply Forall2_lookup_r in Eo as (i' & Hi' & Hv); [|exact Hr].
    apply lookup_seq in Hi' as [-> _]. done.
  - intros (Hne & results & Hlen & -> & Hall).
    assert (omapM (example_value s feats program) (seq 0 (length feats)) = Ok results) as ->.
    { apply omapM_Ok. apply Forall2_same_length_lookup_2; [by rewrite length_seq|].
      intros i i' r Hi Hr. apply lookup_seq in Hi as [-> _]. simpl.
      apply example_value_Ok. by apply Hall. }
    destruct results; [|done]. by destruct feats.
Qed.

Lemma scenario_keys : (program_token_to_idx scenario_vocab).*1 = ["scene"; "And"; "red"; "square"].
Proof. reflexivity. Qed.

Lemma scenario_operators_ok :
  Forall (operator_ok scenario_vocab) (program_token_to_idx scenario_vocab).*1.
Proof.
  rewrite scenario_keys.
  repeat constructor.
  - exists 0. split; [by vm_compute|auto].
  - exists 2. split; [by vm_compute|auto].
  - exists 1. split; [by vm_compute|auto].
  - exists 1. split; [by vm_compute|auto].
Qed.

(** C1. A run of the explicit-form evaluator returns [out] exactly when
    the batch is not empty and [out] is the concatenation, in input order, of
    one result per example, where the result of example [i] is the last of
    the outputs of its node list, and the output of each node, in list order,
    is its registered module applied to example [i]'s own slice of the
    feature maps for the root [scene], and to the previously computed outputs
    at the node's input indices for every other node.  In particular, on the
    model built for the vocabulary scene 0, And 2, red 1, square 1, the
    program [scene, square(0), red(1)] evaluates on every example to the red
    module applied to the square module applied to the scene module applied
    to the example's feature map. *)
Theorem explicit_form_evaluation :
  (forall s feats program out,
     (_forward_modules_json feats program s).2 = Ok out <->
     feats <> []
     /\ exists results,
          length results = length feats /\ out = concat results
          /\ forall i r, results !! i = Some r ->
               exists nodes outs,
                 program !! i = Some nodes /\ example_outputs s feats i nodes outs
                 /\ last outs = Some r)
  /\ (forall cfg sp st hid fin feats,
        build_stem cfg = inr st ->
        build_classifier cfg (length (answer_idx_to_token scenario_vocab)) = inr (hid, fin) ->
        (forall f, value_inputs f = [] -> function_to_str f = function f) ->
        feats <> [] ->
        exists self,
          __init__ scenario_vocab cfg false sp = Ok self
          /\ (_forward_modules_json feats (replicate (length feats) scenario_program) self).2
             = Ok (concat ((fun i => residual_forward (init_params 2)
                                      (residual_forward (init_params 3)
                                         (residual_forward (init_params 0) (slice feats i))))
                           <$> (seq 0 (length feats))))).
Proof.
  split.
  - intros s feats program out. rewrite forward_modules_json_value. apply json_value_Ok.
  - intros cfg sp st hid fin feats Hst Hcl Hstr Hne.
    destruct (init_nofilm_registry scenario_vocab cfg sp st hid fin Hst Hcl)
      as (self & Hi & _ & Hkeys & _).
    { rewrite scenario_keys. apply (bool_decide_unpack _). by vm_compute. }
    { apply scenario_operators_ok. }
    exists self. split; [done|].
    rewrite forward_modules_json_value. apply json_value_Ok. split; [done|].
    eexists. split; [|split; [reflexivity|]].
    { by rewrite length_fmap, length_seq. }
    intros i r Hr. rewrite list_lookup_fmap in Hr.
    destruct (seq 0 (length feats) !! i) as [i'|] eqn:Ei; [|done].
    apply lookup_seq in Ei as [-> Hlt]. simpl in Hr. simplify_eq.
    destruct (Hkeys 0%nat "scene" eq_refl) as (Hf0 & Hh0 & _).
    destruct (Hkeys 2%nat "red" eq_refl) as (Hf2 & Hh2 & _).
    destruct (Hkeys 3%nat "square" eq_refl) as (Hf3 & Hh3 & _).
    exists scenario_program,
      [residual_forward (init_params 0) (slice feats i);
       residual_forward (init_params 3) (residual_forward (init_params 0) (slice feats i));
       residual_forward (init_params 2)
         (residual_forward (init_params 3) (residual_forward (init_params 0) (slice feats i)))].
    split; [by apply lookup_replicate_2|]. split; [|done].
    split; [done|].
    intros [|[|[|j]]] f out Hf Ho; simpl in Hf, Ho; simplify_eq.
    + exists 0%nat, (ResidualBlock (init_params 0)), [slice feats i].
      rewrite Hstr by done. simpl. repeat split; done.
    + exists 3%nat, (ResidualBlock (init_params 3)),
        [residual_forward (init_params 0) (slice feats i)].
      rewrite Hstr by done. simpl. repeat split; try done.
      repeat constructor.
    + exists 2%nat, (ResidualBlock (init_params 2)),
        [residual_forward (init_params 3) (residual_forward (init_params 0) (slice feats i))].
      rewrite Hstr by done. simpl. repeat split; try done.
      repeat constructor.
Qed.

(** ** Token-sequence evaluation of a tree *)

Lemma tree_value_unchanged s s' feat t :
  unchanged s s' -> tree_value s' feat t = tree_value s feat t.
Proof.
  intros Hu. destruct Hu as (_&_&_&_&_&_&_&Hfm&_&_&_&Hh&_).
  induction t as [|op t IH|op t1 IH1 t2 IH2]; simpl; rewrite ?Hfm, ?Hh, ?IH, ?IH1, ?IH2; done.
Qed.

Lemma mark_used_set i j s :
  mark_used i j s = set_used_fns (mark_range i j 1 (used_fns s)) s.
Proof. done. Qed.

Lemma mark_range_app i j n1 n2 u :
  mark_range i j (n1 + n2) u = mark_range i (j + n1) n2 (mark_range i j n1 u).
Proof. unfold mark_range. by rewrite seq_app, foldl_app. Qed.

(** The token at position [j] of row [i] reads as the name [name]. *)
Lemma read_token_at program i j s row z name :
  data program !! i = Some row -> row !! j = Some z -> (j < size1 program)%nat ->
  program_idx_to_token (vocab s) !! z = Some name ->
  read_token program i j s = (s, Ok (true, name)).
Proof.
  intros Hrow Hz Hj Hname. unfold read_token, index2, dict_getZ. unM.
  apply Nat.ltb_lt in Hj. rewrite Hj. by rewrite Hrow, Hz, Hname.
Qed.

Lemma encode_Scene tok : encode tok Scene = [tok "scene"].
Proof. done. Qed.
Lemma encode_Unary tok op t : encode tok (Unary op t) = tok op :: encode tok t.
Proof. done. Qed.
Lemma encode_Binary tok op t1 t2 :
  encode tok (Binary op t1 t2) = tok op :: encode tok t1 ++ encode tok t2.
Proof. unfold encode. simpl. by rewrite fmap_app. Qed.
Lemma encode_length tok t : length (encode tok t) = tree_size t.
Proof.
  unfold encode. rewrite length_fmap.
  induction t; simpl; rewrite ?length_app; lia.
Qed.

Lemma take_drop_cons {A} (row : list A) j n z rest :
  take (S n) (drop j row) = z :: rest ->
  row !! j = Some z /\ take n (drop (S j) row) = rest.
Proof.
  intros Ht. destruct (drop j row) as [|z' r] eqn:Ed; [done|]. simpl in Ht. simplify_eq.
  split.
  - rewrite <- (Nat.add_0_r j), <- lookup_drop, Ed. done.
  - replace (S j) with (j + 1)%nat by lia. rewrite <- drop_drop, Ed. done.
Qed.

Lemma take_drop_app {A} (row : list A) j n1 n2 l1 l2 :
  take (n1 + n2) (drop j row) = l1 ++ l2 -> length l1 = n1 ->
  take n1 (drop j row) = l1 /\ take n2 (drop (j + n1) row) = l2.
Proof.
  intros Ht Hl. subst n1.
  assert (Hlen : (length l1 <= length (drop j row))%nat).
  { apply (f_equal length) in Ht. rewrite length_take, length_app in Ht. lia. }
  split.
  - apply (f_equal (take (length l1))) in Ht.
    rewrite take_take, take_app_length in Ht.
    by replace (length l1 `min` (length l1 + n2))%nat with (length l1) in Ht by lia.
  - apply (f_equal (drop (length l1))) in Ht.
    rewrite drop_app_length in Ht. rewrite <- Ht.
    by rewrite <- take_drop_commute, drop_drop.
Qed.

Lemma apply_token_scene (rec : nat -> M (Tensor * nat)) feats i j (used : bool) s n0 a m :
  use_film s = false ->
  function_modules_num_inputs s !! "scene" = Some n0 ->
  function_modules s !! "scene" = Some a ->
  modules_heap s !! a = Some m ->
  apply_token rec feats i j used "scene" s
  = ((if used then mark_used i j s else s),
     out ← call_module m [slice feats i]; Ok (out, S j)).
Proof.
  intros Hf Hn Ha Hm.
  unfold apply_token, mark_used, resolve, dict_get, deref. unM. unbind.
  destruct used; simpl; rewrite Hn; simpl; rewrite Hf, Ha; simpl; rewrite Hf, Hm;
    by destruct (call_module m _).
Qed.

Lemma apply_token_op (rec : nat -> M (Tensor * nat)) feats i j (used : bool) fn_str s n a m s2
    (ins : list Tensor) (j2 : nat) :
  fn_str <> "scene" ->
  use_film s = false ->
  function_modules_num_inputs s !! fn_str = Some n ->
  function_modules s !! fn_str = Some a ->
  modules_heap s !! a = Some m ->
  gather_inputs rec (Z.to_nat n) [] (S j) (if used then mark_used i j s else s)
  = (s2, Ok (ins, j2)) ->
  unchanged s s2 ->
  apply_token rec feats i j used fn_str s
  = (s2, out ← call_module m ins; Ok (out, j2)).
Proof.
  intros Hne Hf Hn Ha Hm Hg Hu.
  destruct Hu as (Huf&_&_&_&_&_&_&_&_&_&_&Hh&_).
  unfold apply_token, resolve, dict_get, deref. unM. unbind.
  destruct (decide (fn_str = "scene")) as [?|_]; [done|].
  destruct used; simpl; rewrite Hn; simpl; rewrite Hf, Ha; simpl; rewrite Hg; simpl;
    rewrite Huf, Hf, Hh, Hm; by destruct (call_module m _).
Qed.

Lemma helper_step fuel feats program i j s row z name :
  data program !! i = Some row -> row !! j = Some z -> (j < size1 program)%nat ->
  program_idx_to_token (vocab s) !! z = Some name ->
  name <> "<NULL>" -> name <> "<START>" ->
  _forward_modules_ints_helper (S fuel) feats program i j s
  = apply_token (_forward_modules_ints_helper fuel feats program i) feats i j true name s.
Proof.
  intros Hrow Hz Hj Hname Hn1 Hn2. simpl.
  unfold mbind at 1. unfold M_bind, Mbind.
  rewrite (read_token_at program i j s row z name) by done.
  by rewrite !decide_False by done.
Qed.

Lemma helper_tree s0 tok feats program i row t : forall fuel j s v,
  use_film s0 = false ->
  unchanged s0 s ->
  tree_ok s0 tok t ->
  tree_value s0 (slice feats i) t = Ok v ->
  data program !! i = Some row ->
  take (tree_size t) (drop j row) = encode tok t ->
  (j + tree_size t <= size1 program)%nat ->
  (tree_size t <= fuel)%nat ->
  _forward_modules_ints_helper fuel feats program i j s
  = (set_used_fns (mark_range i j (tree_size t) (used_fns s)) s,
     Ok (v, (j + tree_size t)%nat)).
Proof.
  induction t as [|op t IH|op t1 IH1 t2 IH2]; intros fuel j s v Hf Hu Hok Hv Hrow Henc Hj Hfuel.
  - destruct fuel as [|fuel]; [simpl in Hfuel; lia|].
    destruct Hok as [Htok [n0 Hn0]].
    rewrite encode_Scene in Henc. simpl tree_size in *.
    apply take_drop_cons in Henc as [Hz _].
    pose proof Hu as (Huf&_&_&_&_&_&_&Hfm&Hni&_&Hvoc&Hh&_).
    rewrite (helper_step fuel feats program i j s row (tok "scene") "scene")
      by (try done; try lia; by rewrite Hvoc).
    simpl in Hv. unfold dict_get, deref in Hv. unbind.
    destruct (function_modules s0 !! "scene") as [a|] eqn:Ea; [|done]. simpl in Hv.
    destruct (modules_heap s0 !! a) as [m|] eqn:Em; [|done]. simpl in Hv.
    rewrite (apply_token_scene _ feats i j true s n0 a m) by congruence.
    rewrite Hv. simpl. rewrite mark_used_set. do 3 f_equal. lia.
  - destruct fuel as [|fuel]; [simpl in Hfuel; lia|].
    destruct Hok as (Hn1 & Hn2 & Hn3 & Htok & Har & Hok).
    rewrite encode_Unary in Henc. simpl tree_size in *.
    apply take_drop_cons in Henc as [Hz Henc].
    pose proof Hu as (Huf&_&_&_&_&_&_&Hfm&Hni&_&Hvoc&Hh&_).
    rewrite (helper_step fuel feats program i j s row (tok op) op)
      by (try done; try lia; by rewrite Hvoc).
    simpl in Hv. unbind.
    destruct (tree_value s0 (slice feats i) t) as [x| |] eqn:Ex; try done.
    unfold dict_get, deref in Hv.
    destruct (function_modules s0 !! op) as [a|] eqn:Ea; [|done]. simpl in Hv.
    destruct (modules_heap s0 !! a) as [m|] eqn:Em; [|done]. simpl in Hv.
    assert (Hu1 : unchanged s0 (mark_used i j s)).
    { eapply unchanged_trans; [exact Hu|]. by repeat split. }
    assert (Hg : gather_inputs (_forward_modules_ints_helper fuel feats program i)
                   (Z.to_nat 1) [] (S j) (mark_used i j s)
                 = (set_used_fns (mark_range i (S j) (tree_size t)
                                    (used_fns (mark_used i j s))) (mark_used i j s),
                    Ok ([x], (S j + tree_size t)%nat))).
    { simpl. unfold mbind at 1. unfold M_bind, Mbind.
      by rewrite (IH fuel (S j) (mark_used i j s) x) by (try done; lia). }
    rewrite (apply_token_op _ feats i j true op s 1 a m _ _ _ Hn1
               ltac:(congruence) ltac:(congruence) ltac:(congruence) ltac:(congruence)
               Hg ltac:(by repeat split)).
    rewrite Hv. simpl.
    replace (S (tree_size t)) with (1 + tree_size t)%nat by done.
    rewrite mark_range_app. replace (j + 1)%nat with (S j) by lia.
    f_equal; try done; do 2 f_equal; lia.
  - destruct fuel as [|fuel]; [simpl in Hfuel; lia|].
    destruct Hok as (Hn1 & Hn2 & Hn3 & Htok & Har & Hok1 & Hok2).
    rewrite encode_Binary in Henc. simpl tree_size in *.
    apply take_drop_cons in Henc as [Hz Henc].
    apply take_drop_app in Henc as [Henc1 Henc2]; [|by rewrite encode_length].
    pose proof Hu as (Huf&_&_&_&_&_&_&Hfm&Hni&_&Hvoc&Hh&_).
    rewrite (helper_step fuel feats program i j s row (tok op) op)
      by (try done; try lia; by rewrite Hvoc).
    simpl in Hv. unbind.
    destruct (tree_value s0 (slice feats i) t1) as [x| |] eqn:Ex; try done.
    destruct (tree_value s0 (slice feats i) t2) as [y| |] eqn:Ey; try done.
    unfold dict_get, deref in Hv.
    destruct (function_modules s0 !! op) as [a|] eqn:Ea; [|done]. simpl in Hv.
    destruct (modules_heap s0 !! a) as [m|] eqn:Em; [|done]. simpl in Hv.
    assert (Hu1 : unchanged s0 (mark_used i j s)).
    { eapply unchanged_trans; [exact Hu|]. by repeat split. }
    assert (Hg : gather_inputs (_forward_modules_ints_helper fuel feats program i)
                   (Z.to_nat 2) [] (S j) (mark_used i j s)
                 = (set_used_fns
                      (mark_range i (S j + tree_size t1) (tree_size t2)
                         (mark_range i (S j) (tree_size t1) (used_fns (mark_used i j s))))
                      (mark_used i j s),
                    Ok ([x; y], (S j + tree_size t1 + tree_size t2)%nat))).
    { simpl. unfold mbind at 1. unfold M_bind, Mbind.
      rewrite (IH1 fuel (S j) (mark_used i j s) x) by (try done; lia).
      simpl. unfold mbind at 1. unfold M_bind, Mbind.
      rewrite (IH2 fuel (S j + tree_size t1)%nat _ y); try done; try lia;
        try (eapply unchanged_trans; [exact Hu1|]; by repeat split). }
    rewrite (apply_token_op _ feats i j true op s 2 a m _ _ _ Hn1
               ltac:(congruence) ltac:(congruence) ltac:(congruence) ltac:(congruence)
               Hg ltac:(by repeat split)).
    rewrite Hv. simpl.
    replace (S (tree_size t1 + tree_size t2))
      with (1 + (tree_size t1 + tree_size t2))%nat by done.
    rewrite !mark_range_app. replace (j + 1)%nat with (S j) by lia.
    f_equal; try done; do 2 f_equal; lia.
Qed.

Lemma helper_start fuel feats program i j s row z :
  data program !! i = Some row -> row !! j = Some z -> (j < size1 program)%nat ->
  program_idx_to_token (vocab s) !! z = Some "<START>" ->
  _forward_modules_ints_helper (S fuel) feats program i j s
  = _forward_modules_ints_helper fuel feats program i (j + 1) s.
Proof.
  intros Hrow Hz Hj Hname. simpl.
  unfold mbind at 1. unfold M_bind, Mbind.
  by rewrite (read_token_at program i j s row z "<START>") by done.
Qed.

Lemma helper_null fuel feats program i j s row z :
  data program !! i = Some row -> row !! j = Some z -> (j < size1 program)%nat ->
  program_idx_to_token (vocab s) !! z = Some "<NULL>" ->
  _forward_modules_ints_helper (S fuel) feats program i j s
  = apply_token (_forward_modules_ints_helper fuel feats program i) feats i j false "scene" s.
Proof.
  intros Hrow Hz Hj Hname. simpl.
  unfold mbind at 1. unfold M_bind, Mbind.
  by rewrite (read_token_at program i j s row z "<NULL>") by done.
Qed.

Lemma helper_past_end fuel feats program i j s :
  (size1 program <= j)%nat ->
  _forward_modules_ints_helper (S fuel) feats program i j s
  = apply_token (_forward_modules_ints_helper fuel feats program i) feats i j false "scene" s.
Proof.
  intros Hj. simpl. unfold mbind at 1. unfold M_bind, Mbind.
  unfold read_token. unM. apply Nat.ltb_ge in Hj. rewrite Hj. done.
Qed.

Lemma helper_starts feats program i s row z a : forall fuel j,
  data program !! i = Some row ->
  take a (drop j row) = replicate a z ->
  (j + a <= size1 program)%nat ->
  program_idx_to_token (vocab s) !! z = Some "<START>" ->
  _forward_modules_ints_helper (a + fuel) feats program i j s
  = _forward_modules_ints_helper fuel feats program i (j + a) s.
Proof.
  induction a as [|a IH]; intros fuel j Hrow Ht Hj Hz.
  - by rewrite Nat.add_0_r.
  - simpl replicate in Ht. apply take_drop_cons in Ht as [Hzj Ht].
    replace (S a + fuel)%nat with (S (a + fuel)) by lia.
    rewrite (helper_start _ feats program i j s row z) by (try done; lia).
    replace (j + 1)%nat with (S j) by lia.
    rewrite IH by (try done; lia). f_equal. lia.
Qed.

Lemma mark_range_row i j n : forall (u : list (list Z)) row,
  u !! i = Some row -> (j + n <= length row)%nat ->
  mark_range i j n u = <[i := take j row ++ replicate n 1 ++ drop (j + n) row]> u.
Proof.
  induction n as [|n IH]; intros u row Hi Hlen.
  - unfold mark_range. simpl. rewrite Nat.add_0_r, take_drop. by rewrite list_insert_id by done.
  - replace (S n) with (n + 1)%nat by lia. rewrite mark_range_app.
    rewrite (IH u row) by (try done; lia).
    unfold mark_range. simpl.
    apply list_eq. intros k. destruct (decide (k = i)) as [->|Hk].
    + rewrite list_lookup_alter_eq, !list_lookup_insert_eq by (by eapply lookup_lt_Some).
      simpl. f_equal.
      rewrite insert_app_r_alt by (rewrite length_take; lia).
      rewrite length_take. replace (j + n - j `min` length row)%nat with n by lia.
      rewrite insert_app_r_alt by (rewrite length_replicate; lia).
      rewrite length_replicate, Nat.sub_diag.
      destruct (drop (j + n) row) as [|x r] eqn:Ed.
      { apply (f_equal length) in Ed. rewrite length_drop in Ed. simpl in Ed. lia. }
      simpl. f_equal.
      replace (replicate (n + 1) 1) with (replicate n 1 ++ [1]) by (by rewrite replicate_add).
      rewrite <- app_assoc. simpl. do 2 f_equal.
      replace (j + (n + 1))%nat with (S (j + n)) by lia.
      replace (S (j + n)) with (j + n + 1)%nat by lia. by rewrite <- drop_drop, Ed.
    + rewrite list_lookup_alter_ne by done. by rewrite !list_lookup_insert_ne by done.
Qed.

Lemma mark_range_zeros i j n L (u : list (list Z)) :
  u !! i = Some (replicate L 0) -> (j + n <= L)%nat ->
  mark_range i j n u
  = <[i := replicate j 0 ++ replicate n 1 ++ replicate (L - (j + n)) 0]> u.
Proof.
  intros Hi Hlen. rewrite (mark_range_row i j n u (replicate L 0)) by (by rewrite ?length_replicate).
  by rewrite take_replicate, drop_replicate, Nat.min_l by lia.
Qed.

Lemma used_count_replicate n z : used_count (replicate n z) = Z.of_nat n * z.
Proof. unfold used_count. induction n as [|n IH]; simpl; [lia|]. rewrite IH. lia. Qed.

Lemma used_count_app l1 l2 : used_count (l1 ++ l2) = used_count l1 + used_count l2.
Proof. unfold used_count. induction l1 as [|x l1 IH]; simpl; [lia|]. rewrite IH. lia. Qed.

Lemma to_json_length base t : length (to_json base t) = tree_size t.
Proof.
  revert base. induction t as [|op t IH|op t1 IH1 t2 IH2]; intros base; simpl.
  - done.
  - rewrite length_app, IH. simpl. lia.
  - rewrite !length_app, IH1, IH2. simpl. lia.
Qed.

Lemma used_count_mask r :
  used_count (mask_of r) = Z.of_nat (tree_size r.1.2)
  /\ tree_size r.1.2 = length (to_json 0 r.1.2).
Proof.
  destruct r as [[a t] rest]. simpl. split; [|by rewrite to_json_length].
  rewrite !used_count_app, !used_count_replicate. lia.
Qed.


Lemma helper_example s0 tok feats program i a t rest v s L :
  use_film s0 = false ->
  unchanged s0 s ->
  program_idx_to_token (vocab s0) !! tok "<START>" = Some "<START>" ->
  tree_ok s0 tok t ->
  tree_value s0 (slice feats i) t = Ok v ->
  data program !! i = Some (row_of tok (a, t, rest)) ->
  length (row_of tok (a, t, rest)) = L ->
  size1 program = L ->
  used_fns s !! i = Some (replicate L 0) ->
  _forward_modules_ints_helper (S L) feats program i 0 s
  = (set_used_fns (<[i := mask_of (a, t, rest)]> (used_fns s)) s,
     Ok (v, (a + tree_size t)%nat)).
Proof.
  intros Hf Hu Hstart Hok Hv Hrow Hlen HL Hzero.
  pose proof Hu as (_&_&_&_&_&_&_&_&_&_&Hvoc&_).
  simpl in Hlen. rewrite !length_app, length_replicate, encode_length in Hlen.
  replace (S L) with (a + (S L - a))%nat by lia.
  rewrite (helper_starts feats program i s (row_of tok (a, t, rest)) (tok "<START>") a); try done.
  - rewrite (helper_tree s0 tok feats program i (row_of tok (a, t, rest)) t (S L - a) (0 + a) s v); try done.
    + rewrite (mark_range_zeros i (0 + a) (tree_size t) L) by (try done; lia).
      simpl. by replace (L - (a + tree_size t))%nat with (length rest) by lia.
    + simpl. rewrite drop_app_length' by (by rewrite length_replicate).
      apply take_app_length'. by rewrite encode_length.
    + lia.
    + lia.
  - simpl. apply take_app_length'. by rewrite length_replicate.
  - lia.
  - by rewrite Hvoc.
Qed.

Lemma ints_examples_trees s0 tok feats L specs : forall n k acc s vs,
  use_film s0 = false ->
  unchanged s0 s ->
  program_idx_to_token (vocab s0) !! tok "<START>" = Some "<START>" ->
  Forall (fun r => length (row_of tok r) = L /\ tree_ok s0 tok r.1.2) specs ->
  (k + n <= length specs)%nat ->
  used_fns s = (mask_of <$> take k specs) ++ replicate (length specs - k) (replicate L 0) ->
  Forall2 (fun i v => exists r, specs !! i = Some r
                                /\ tree_value s0 (slice feats i) r.1.2 = Ok v)
    (seq k n) vs ->
  ints_examples (S L) feats {| size1 := L; data := row_of tok <$> specs |} (seq k n) acc s
  = (set_used_fns ((mask_of <$> take (k + n) specs)
                   ++ replicate (length specs - (k + n)) (replicate L 0)) s,
     Ok (acc ++ vs)).
Proof.
  induction n as [|n IH]; intros k acc s vs Hf Hu Hstart Hspecs Hkn Hused Hvs.
  - inversion Hvs; subst. simpl. unM. rewrite Nat.add_0_r, app_nil_r, <- Hused.
    by destruct s.
  - simpl in Hvs. inversion Hvs as [|? v ? vs' (r & Hr & Hv) Hvs']; subst.
    destruct r as [[a t] rest]. simpl in Hv.
    pose proof (proj1 (Forall_lookup _ _) Hspecs k _ Hr) as [Hlen Hok]. simpl in Hok.
    change (seq k (S n)) with (k :: seq (S k) n). cbn [ints_examples].
    unfold mbind at 1. unfold M_bind, Mbind.
    rewrite (helper_example s0 tok feats _ k a t rest v s L); try done.
    + assert (Hins : <[k := mask_of (a, t, rest)]> (used_fns s)
                     = (mask_of <$> take (S k) specs)
                       ++ replicate (length specs - S k) (replicate L 0)).
      { rewrite Hused. rewrite insert_app_r_alt by (rewrite length_fmap, length_take; lia).
        rewrite length_fmap, length_take.
        replace (k - k `min` length specs)%nat with 0%nat by lia.
        replace (length specs - k)%nat with (S (length specs - S k)) by lia.
        simpl. rewrite (take_S_r _ _ _ Hr), fmap_app. simpl.
        by rewrite <- app_assoc. }
      rewrite (IH (S k) (acc ++ [v]) _ vs'); try done.
      * simpl. rewrite <- app_assoc. simpl.
        by replace (k + S n)%nat with (S (k + n)) by lia.
      * lia.
    + simpl. by rewrite list_lookup_fmap, Hr.
    + rewrite Hused. rewrite lookup_app_r by (rewrite length_fmap, length_take; lia).
      rewrite length_fmap, length_take. apply lookup_replicate_2. lia.
Qed.

Lemma forward_modules_ints_trees s tok feats L specs vs :
  use_film s = false ->
  program_idx_to_token (vocab s) !! tok "<START>" = Some "<START>" ->
  Forall (fun r => length (row_of tok r) = L /\ tree_ok s tok r.1.2) specs ->
  length feats = length specs ->
  feats <> [] ->
  Forall2 (fun i v => exists r, specs !! i = Some r
                                /\ tree_value s (slice feats i) r.1.2 = Ok v)
    (seq 0 (length feats)) vs ->
  _forward_modules_ints feats {| size1 := L; data := row_of tok <$> specs |} s
  = (set_used_fns (mask_of <$> specs) s, Ok (concat vs)).
Proof.
  intros Hf Hstart Hspecs Hlen Hne Hvs.
  unfold _forward_modules_ints. unfold mbind at 1. unfold M_bind, Mbind. unfold modify.
  simpl size1. simpl data.
  unfold mbind at 1. unfold M_bind, Mbind.
  rewrite (ints_examples_trees s tok feats L specs (length feats) 0 [] _ vs); try done.
  - simpl. unfold lift, torch_cat.
    rewrite Hlen, take_ge, Nat.sub_diag by lia. simpl. rewrite app_nil_r.
    destruct vs as [|v vs]; [|done].
    apply Forall2_length in Hvs. rewrite length_seq in Hvs. by destruct feats.
  - simpl. lia.
  - simpl. by rewrite length_fmap, Nat.sub_0_r.
Qed.

Lemma nodes_value_app s feats i l1 l2 : forall prev,
  nodes_value s feats i prev (l1 ++ l2)
  = (r ← nodes_value s feats i prev l1; nodes_value s feats i r l2).
Proof.
  induction l1 as [|f l1 IH]; intros prev; simpl; [done|]. unbind.
  destruct (node_value s feats i prev f); try done; apply IH.
Qed.

Lemma py_index_app_last {A} (prev outs : list A) x n :
  length outs = n -> last outs = Some x -> (0 < n)%nat ->
  py_index (prev ++ outs) (Z.of_nat (length prev + n - 1)) = Ok x.
Proof.
  intros Hlen Hlast Hn. apply py_index_nat.
  rewrite lookup_app_r by lia. rewrite last_lookup in Hlast.
  by replace (length prev + n - 1 - length prev)%nat with (pred (length outs)) by lia.
Qed.

Lemma tree_size_pos t : (0 < tree_size t)%nat.
Proof. destruct t; simpl; lia. Qed.

Lemma nodes_value_tree s tok feats i t : forall prev v,
  (forall f, value_inputs f = [] -> function_to_str f = function f) ->
  tree_ok s tok t ->
  tree_value s (slice feats i) t = Ok v ->
  exists outs,
    nodes_value s feats i prev (to_json (length prev) t) = Ok (prev ++ outs)
    /\ length outs = tree_size t /\ last outs = Some v.
Proof.
  induction t as [|op t IH|op t1 IH1 t2 IH2]; intros prev v Hstr Hok Hv.
  - exists [v]. simpl in *. unfold node_value. rewrite Hstr by done. simpl.
    unbind. destruct (dict_get _ _) as [a| |]; try done. simpl in *.
    destruct (deref _ a) as [m| |]; try done. simpl in *. by rewrite Hv.
  - destruct Hok as (Hn1 & _ & _ & _ & _ & Hok). simpl in Hv. unbind.
    destruct (tree_value s (slice feats i) t) as [x| |] eqn:Ex; try done.
    destruct (IH prev x Hstr Hok eq_refl) as (outs & Hrun & Hlen & Hlast).
    exists (outs ++ [v]). simpl to_json. rewrite nodes_value_app, Hrun. unbind.
    simpl. unfold node_value. rewrite Hstr by done. simpl. unbind.
    destruct (dict_get _ _) as [a| |]; try done. simpl in *.
    destruct (deref _ a) as [m| |]; try done. simpl in *.
    rewrite decide_False by done. simpl.
    rewrite (py_index_app_last prev outs x (tree_size t)) by (try done; apply tree_size_pos).
    simpl. rewrite Hv. simpl. rewrite <- app_assoc.
    split; [done|]. split; [rewrite length_app; simpl; lia | by rewrite last_snoc].
  - destruct Hok as (Hn1 & _ & _ & _ & _ & Hok1 & Hok2). simpl in Hv. unbind.
    destruct (tree_value s (slice feats i) t1) as [x| |] eqn:Ex; try done.
    destruct (tree_value s (slice feats i) t2) as [y| |] eqn:Ey; try done.
    destruct (IH1 prev x Hstr Hok1 eq_refl) as (outs1 & Hrun1 & Hlen1 & Hlast1).
    destruct (IH2 (prev ++ outs1) y Hstr Hok2 eq_refl) as (outs2 & Hrun2 & Hlen2 & Hlast2).
    rewrite length_app, Hlen1 in Hrun2.
    exists (outs1 ++ outs2 ++ [v]). simpl to_json.
    rewrite nodes_value_app, Hrun1. unbind.
    rewrite nodes_value_app, Hrun2. unbind.
    simpl. unfold node_value. rewrite Hstr by done. simpl. unbind.
    destruct (dict_get _ _) as [a| |]; try done. simpl in *.
    destruct (deref _ a) as [m| |]; try done. simpl in *.
    rewrite decide_False by done. simpl.
    assert (py_index ((prev ++ outs1) ++ outs2)
              (Z.of_nat (length prev + tree_size t1 - 1)) = Ok x) as ->.
    { pose proof (tree_size_pos t1).
      apply py_index_nat. rewrite <- app_assoc, lookup_app_r by lia.
      rewrite lookup_app_l by (pose proof (tree_size_pos t1); lia).
      rewrite last_lookup in Hlast1.
      by replace (length prev + tree_size t1 - 1 - length prev)%nat
        with (pred (length outs1)) by lia. }
    simpl.
    assert (py_index ((prev ++ outs1) ++ outs2)
              (Z.of_nat (length prev + tree_size t1 + tree_size t2 - 1)) = Ok y) as ->.
    { replace (length prev + tree_size t1)%nat with (length (prev ++ outs1))
        by (rewrite length_app; lia).
      apply py_index_app_last; [done|done|apply tree_size_pos]. }
    simpl. rewrite Hv. simpl. rewrite <- !app_assoc.
    split; [done|]. split; [rewrite !length_app; simpl; lia|].
    by rewrite !app_assoc, last_snoc.
Qed.

Lemma json_value_trees s tok feats (specs : list (nat * Tree * list Z)) vs :
  (forall f, value_inputs f = [] -> function_to_str f = function f) ->
  Forall (fun r => tree_ok s tok r.1.2) specs ->
  feats <> [] ->
  Forall2 (fun i v => exists r, specs !! i = Some r
                                /\ tree_value s (slice feats i) r.1.2 = Ok v)
    (seq 0 (length feats)) vs ->
  json_value s feats ((fun r => to_json 0 r.1.2) <$> specs) = Ok (concat vs).
Proof.
  intros Hstr Hspecs Hne Hvs. unfold json_value.
  assert (omapM (example_value s feats ((fun r => to_json 0 r.1.2) <$> specs))
            (seq 0 (length feats)) = Ok vs) as ->.
  { apply omapM_Ok. eapply Forall2_impl; [exact Hvs|].
    intros i v (r & Hr & Hv). unfold example_value.
    assert (py_index ((fun r => to_json 0 r.1.2) <$> specs) (Z.of_nat i)
            = Ok (to_json 0 r.1.2)) as ->.
    { apply py_index_nat. by rewrite list_lookup_fmap, Hr. }
    unbind.
    destruct (nodes_value_tree s tok feats i r.1.2 [] v Hstr) as (outs & Hrun & _ & Hlast);
      [by eapply (proj1 (Forall_lookup _ _) Hspecs) | done |].
    simpl in Hrun. rewrite Hrun. simpl. by apply py_index_last. }
  unbind. unfold torch_cat. destruct vs; [|done].
  apply Forall2_length in Hvs. rewrite length_seq in Hvs. by destruct feats.
Qed.

(** ** The recursion bound is never reached *)

Lemma dict_get_no_fuel {V} (d : gmap string V) k : dict_get d k <> Fuel.
Proof. unfold dict_get. by destruct (d !! k). Qed.
Lemma dict_getZ_no_fuel {V} (d : gmap Z V) k : dict_getZ d k <> Fuel.
Proof. unfold dict_getZ. by destruct (d !! k). Qed.
Lemma index2_no_fuel program i j : index2 program i j <> Fuel.
Proof. unfold index2. repeat case_match; done. Qed.
Lemma py_index_no_fuel {A} (l : list A) k : py_index l k <> Fuel.
Proof. unfold py_index. repeat case_match; done. Qed.
Lemma deref_no_fuel heap a : deref heap a <> Fuel.
Proof. unfold deref. by destruct (heap !! a). Qed.
Lemma call_module_no_fuel m xs : call_module m xs <> Fuel.
Proof. unfold call_module, of_sum. repeat case_match; done. Qed.
Lemma resolve_no_fuel s fn_str n : resolve s fn_str n <> Fuel.
Proof.
  unfold resolve, film_id, module_of, dict_get. unbind.
  pose proof (@py_index_no_fuel Z (sharing_patterns s)) as Hp.
  repeat (case_match; simplify_eq; try done); exfalso; eapply Hp; eassumption.
Qed.

Ltac no_fuel :=
  exfalso;
  first [ eapply dict_get_no_fuel; eassumption
        | eapply dict_getZ_no_fuel; eassumption
        | eapply index2_no_fuel; eassumption
        | eapply deref_no_fuel; eassumption
        | eapply call_module_no_fuel; eassumption
        | eapply resolve_no_fuel; eassumption ].

Ltac ends := split; [done | intros; simplify_eq; try done; try lia].

Lemma gather_total (rec : nat -> M (Tensor * nat)) j0 k :
  (forall j s, (j0 < j)%nat -> wp (rec j) s (fun _ r => ends_after j r)) ->
  forall acc j s, (j0 < j)%nat ->
    wp (gather_inputs rec k acc j) s
       (fun _ r => r <> Fuel /\ forall ins j', r = Ok (ins, j') -> (j0 < j')%nat).
Proof.
  intros Hrec. induction k as [|k IH]; intros acc j s Hj; simpl.
  - apply wp_ret. split; [done|]. intros; simplify_eq. done.
  - apply wp_bind. eapply wp_mono; [by apply Hrec|].
    intros s' [[cur j']|e|] [Hn Hlt]; simpl; [|ends|done].
    apply IH. specialize (Hlt _ _ eq_refl). lia.
Qed.

Lemma apply_token_total (rec : nat -> M (Tensor * nat)) feats i j used fn_str s :
  (fn_str <> "scene" ->
   forall j' s', (j < j')%nat -> wp (rec j') s' (fun _ r => ends_after j' r)) ->
  wp (apply_token rec feats i j used fn_str) s (fun _ r => ends_after j r).
Proof.
  intros Hrec. unfold apply_token.
  apply wp_bind.
  eapply (wp_mono _ _ (fun _ r => r = Ok tt)).
  { destruct used; [apply wp_modify | apply wp_ret]; done. }
  intros s1 r ->. apply wp_bind, wp_get. apply wp_bind, wp_lift.
  destruct (dict_get _ fn_str) as [num| |] eqn:E1; [|ends|no_fuel].
  apply wp_bind, wp_lift.
  destruct (resolve _ _ _) as [[midx a]| |] eqn:E2; [|ends|no_fuel].
  apply wp_bind.
  eapply (wp_mono _ _ (fun _ r => r <> Fuel
                          /\ forall ins j', r = Ok (ins, j') -> (j < j')%nat)).
  { case_match.
    - apply wp_ret. split; [done|]. intros; simplify_eq. lia.
    - apply (gather_total rec j); [|lia]. intros j' s' Hj'. by apply Hrec. }
  intros s2 [[ins j2]|e|] [Hn Hlt]; [|ends|done].
  specialize (Hlt _ _ eq_refl).
  apply wp_bind, wp_get. destruct (use_film _); [apply wp_lift; ends|].
  apply wp_bind, wp_lift. destruct (deref _ a) as [m| |] eqn:E3; [|ends|no_fuel].
  apply wp_bind, wp_lift. destruct (call_module m ins) as [o| |] eqn:E4; [|ends|no_fuel].
  apply wp_ret. split; [done|]. intros; simplify_eq. done.
Qed.

Lemma read_token_total program i j s :
  wp (read_token program i j) s
     (fun s' r => r <> Fuel
                  /\ forall used fn_str, r = Ok (used, fn_str) ->
                       (size1 program <= j)%nat -> fn_str = "scene").
Proof.
  unfold read_token. apply wp_bind, wp_get.
  destruct (j <? size1 program)%nat eqn:Ej.
  - apply Nat.ltb_lt in Ej. apply wp_bind, wp_lift.
    destruct (index2 program i j) eqn:E1; [|done|no_fuel].
    apply wp_bind, wp_lift. destruct (dict_getZ _ _) eqn:E2; [|done|no_fuel].
    apply wp_ret. split; [done|]. intros; lia.
  - apply wp_ret. split; [done|]. intros; by simplify_eq.
Qed.

Lemma helper_total feats program i : forall fuel j s,
  (1 <= fuel)%nat -> (size1 program + 1 <= fuel + j)%nat ->
  wp (_forward_modules_ints_helper fuel feats program i j) s (fun _ r => ends_after j r).
Proof.
  induction fuel as [|fuel IH]; intros j s H1 HL; [lia|]. simpl.
  apply wp_bind. eapply wp_mono; [apply read_token_total|].
  intros s1 [[used fn_str]|e|] [Hn Hscene]; [|ends|done].
  specialize (Hscene _ _ eq_refl).
  assert (Hrec : fn_str <> "scene" -> forall j' s', (j < j')%nat ->
            wp (_forward_modules_ints_helper fuel feats program i j') s'
               (fun _ r => ends_after j' r)).
  { intros Hne j' s' Hj'.
    assert (j < size1 program)%nat by (destruct (decide (size1 program <= j)%nat); [by apply Hscene in l|lia]).
    apply IH; lia. }
  destruct (decide (fn_str = "<NULL>")); [by apply apply_token_total|].
  destruct (decide (fn_str = "<START>")) as [->|?]; [|by apply apply_token_total].
  eapply wp_mono; [apply Hrec; [done|lia]|]. intros s' r [? Hlt]. split; [done|].
  intros out j' ->. specialize (Hlt _ _ eq_refl). lia.
Qed.

Lemma ints_examples_total feats program idx : forall acc s,
  (ints_examples (S (size1 program)) feats program idx acc s).2 <> Fuel.
Proof.
  induction idx as [|i idx IH]; intros acc s; [done|]. cbn [ints_examples].
  unfold mbind at 1. unfold M_bind, Mbind.
  pose proof (helper_total feats program i (S (size1 program)) 0 s
                ltac:(lia) ltac:(lia)) as Hw.
  unfold wp in Hw. destruct Hw as [Hn _].
  destruct (_forward_modules_ints_helper (S (size1 program)) feats program i 0 s)
    as [s1 [[cur j]|e|]]; cbn [fst snd] in *; [apply IH | done | done].
Qed.

Lemma forward_modules_ints_total feats program s :
  (_forward_modules_ints feats program s).2 <> Fuel.
Proof.
  unfold _forward_modules_ints. unfold mbind at 1. unfold M_bind, Mbind, modify.
  unfold mbind at 1. unfold M_bind, Mbind.
  pose proof (ints_examples_total feats program (seq 0 (length feats)) []
                (set_used_fns
                   (replicate (length (data program)) (replicate (size1 program) 0)) s)) as Hn.
  destruct (ints_examples _ _ _ _ _ _) as [s1 [o|e|]]; simpl in *; [|done|done].
  unfold lift, torch_cat. by destruct o.
Qed.

(** ** Token-sequence evaluation, in full *)

(** C2. In token-sequence evaluation without conditioning: a padding
    token, like a position past the end of the row, is evaluated as the root
    [scene] on the example's feature map, the position advances by one and
    the mask is left as it was; a start-of-sequence token is skipped, the
    helper going on at the next position with the same state; an encoded tree
    at position [j] is consumed whole, one sub-tree per declared input of each
    operator, the helper returning the tree's value and the position just
    after the tree, with exactly the positions of the tree's tokens marked;
    and on a batch whose rows are start tokens, a tree in prefix notation and
    a tail, the evaluator returns the concatenated values and a mask set
    exactly on the tokens of each tree, whose count per row is the number of
    nodes of the tree's explicit form. *)
Theorem token_sequence_consumption :
  (forall fuel feats program i j s n0 a m,
     use_film s = false ->
     ((size1 program <= j)%nat
      \/ exists row z, data program !! i = Some row /\ row !! j = Some z
                       /\ (j < size1 program)%nat
                       /\ program_idx_to_token (vocab s) !! z = Some "<NULL>") ->
     function_modules_num_inputs s !! "scene" = Some n0 ->
     function_modules s !! "scene" = Some a ->
     modules_heap s !! a = Some m ->
     _forward_modules_ints_helper (S fuel) feats program i j s
     = (s, out ← call_module m [slice feats i]; Ok (out, S j)))
  /\ (forall fuel feats program i j s row z,
        data program !! i = Some row -> row !! j = Some z -> (j < size1 program)%nat ->
        program_idx_to_token (vocab s) !! z = Some "<START>" ->
        _forward_modules_ints_helper (S fuel) feats program i j s
        = _forward_modules_ints_helper fuel feats program i (j + 1) s)
  /\ (forall s tok feats program i row t fuel j v,
        use_film s = false ->
        tree_ok s tok t ->
        tree_value s (slice feats i) t = Ok v ->
        data program !! i = Some row ->
        take (tree_size t) (drop j row) = encode tok t ->
        (j + tree_size t <= size1 program)%nat ->
        (tree_size t <= fuel)%nat ->
        _forward_modules_ints_helper fuel feats program i j s
        = (set_used_fns (mark_range i j (tree_size t) (used_fns s)) s,
           Ok (v, (j + tree_size t)%nat)))
  /\ (forall s tok feats L (specs : list (nat * Tree * list Z)) vs,
        use_film s = false ->
        program_idx_to_token (vocab s) !! tok "<START>" = Some "<START>" ->
        Forall (fun r => length (row_of tok r) = L /\ tree_ok s tok r.1.2) specs ->
        length feats = length specs ->
        feats <> [] ->
        Forall2 (fun i v => exists r, specs !! i = Some r
                                      /\ tree_value s (slice feats i) r.1.2 = Ok v)
          (seq 0 (length feats)) vs ->
        _forward_modules_ints feats {| size1 := L; data := row_of tok <$> specs |} s
        = (set_used_fns (mask_of <$> specs) s, Ok (concat vs))
        /\ forall r, r ∈ specs ->
             used_count (mask_of r) = Z.of_nat (tree_size r.1.2)
             /\ tree_size r.1.2 = length (to_json 0 r.1.2)).
Proof.
  split; [|split; [|split]].
  - intros fuel feats program i j s n0 a m Hf Hcase Hn Ha Hm.
    destruct Hcase as [Hpast | (row & z & Hrow & Hz & Hj & Hnull)].
    + rewrite helper_past_end by done.
      by rewrite (apply_token_scene _ feats i j false s n0 a m).
    + rewrite (helper_null fuel feats program i j s row z) by done.
      by rewrite (apply_token_scene _ feats i j false s n0 a m).
  - intros. by eapply helper_start.
  - intros s tok feats program i row t fuel j v Hf Hok Hv Hrow Henc Hj Hfuel.
    by apply (helper_tree s tok feats program i row); [|apply unchanged_refl|..].
  - intros s tok feats L specs vs Hf Hstart Hspecs Hlen Hne Hvs. split.
    + by apply forward_modules_ints_trees.
    + intros r _. apply used_count_mask.
Qed.

(** C3, as the code has it.  Without conditioning, for every batch of
    logical trees the explicit form and the token-sequence form give the same
    batch output, from the evaluators and from [forward]: the concatenation of
    the trees' values, then classified.  The soft form is left out: the
    class has no evaluator for it. *)
Theorem explicit_and_token_forms_agree s tok (x feats : Tensor) L
    (specs : list (nat * Tree * list Z)) vs :
  use_film s = false ->
  program_idx_to_token (vocab s) !! tok "<START>" = Some "<START>" ->
  (forall f, value_inputs f = [] -> function_to_str f = function f) ->
  Forall (fun r => length (row_of tok r) = L /\ tree_ok s tok r.1.2) specs ->
  feats = stem_forward (stem s) x ->
  length x = length specs ->
  length feats = length specs ->
  feats <> [] ->
  Forall2 (fun i v => exists r, specs !! i = Some r
                                /\ tree_value s (slice feats i) r.1.2 = Ok v)
    (seq 0 (length feats)) vs ->
  let explicit := (fun r => to_json 0 r.1.2) <$> specs in
  let tokens := row_of tok <$> specs in
  (_forward_modules_json feats explicit s).2 = Ok (concat vs)
  /\ (_forward_modules_ints feats {| size1 := L; data := tokens |} s).2 = Ok (concat vs)
  /\ (forward x (PList explicit) s).2 = Ok (classifier_forward s (concat vs))
  /\ (forward x (PVariable [length specs; L] tokens) s).2
     = Ok (classifier_forward s (concat vs)).
Proof.
  intros Hf Hstart Hstr Hspecs Hfeats Hx Hlen Hne Hvs explicit tokens.
  assert (Hjson : (_forward_modules_json feats explicit s).2 = Ok (concat vs)).
  { rewrite forward_modules_json_value. eapply json_value_trees; try done.
    eapply Forall_impl; [exact Hspecs|]. by intros r [_ ?]. }
  assert (Hints : _forward_modules_ints feats {| size1 := L; data := tokens |} s
                  = (set_used_fns (mask_of <$> specs) s, Ok (concat vs)))
    by by apply forward_modules_ints_trees.
  split; [done|]. split; [by rewrite Hints|].
  split.
  - destruct (forward_cases x (PList explicit) s) as [Hd _].
    rewrite Hd by (simpl; unfold explicit; by rewrite length_fmap, Hx).
    cbv zeta. rewrite <- Hfeats. unfold then_classify.
    unfold mbind at 1. unfold M_bind, Mbind.
    pose proof (keeps_forward_modules_json feats explicit s) as Hk.
    destruct (_forward_modules_json feats explicit s) as [s' r]. simpl in *. subst r.
    unM. simpl. unfold classifier_forward.
    by destruct Hk as (_&_&_&_&_&->&->&_).
  - destruct (forward_cases x (PVariable [length specs; L] tokens) s) as [Hd _].
    rewrite Hd by (simpl; by rewrite Hx).
    cbv zeta. rewrite <- Hfeats. simpl. unfold then_classify.
    unfold mbind at 1. unfold M_bind, Mbind. rewrite Hints. done.
Qed.

(** ** Every successful construction *)

(** The registry after one body of the loop, without conditioning. *)
Lemma registry_step_nofilm_effect k s l s' l' :
  use_film s = false ->
  registry_step k (s, l) = Ok (s', l') ->
  exists n a,
    program_token_arity (vocab s) !! k = Some n
    /\ l_mod l' = Some a
    /\ function_modules s' = <[k := a]> (function_modules s)
    /\ _modules s' = <[k := a]> (_modules s)
    /\ function_modules_num_inputs s' = <[k := n]> (function_modules_num_inputs s)
    /\ ((modules_heap s' = modules_heap s /\ l_mod l = Some a)
        \/ (exists m, plain_module m /\ modules_heap s' = modules_heap s ++ [m]
                      /\ a = length (modules_heap s)))
    /\ use_film s' = false /\ vocab s' = vocab s
    /\ sharing_patterns s' = sharing_patterns s
    /\ gammas s' = gammas s /\ betas s' = betas s
    /\ save_module_outputs s' = save_module_outputs s
    /\ stem s' = stem s /\ classifier_hidden s' = classifier_hidden s
    /\ classifier_final s' = classifier_final s.
Proof.
  intros Hf. unfold registry_step, dict_get, alloc, add_module, getlocal. unbind.
  destruct (program_token_arity (vocab s) !! k) as [n|] eqn:Hn; [|done].
  simpl. rewrite Hf. simpl.
  destruct (decide (k = "scene" ∨ n = 1)) as [Hd|Hd]; simpl; rewrite ?Hf; simpl; rewrite ?Hf; simpl.
  - intros Hs. simplify_eq. exists n, (length (modules_heap s)). simpl.
    repeat split; try done. right. by eexists (ResidualBlock _).
  - destruct (decide (n = 2)) as [->|Hn2]; simpl; rewrite ?Hf; simpl; rewrite ?Hf; simpl.
    + intros Hs. simplify_eq. exists 2, (length (modules_heap s)). simpl.
      repeat split; try done. right. by eexists (ConcatBlock _).
    + destruct (l_mod l) as [a|] eqn:El; simpl; [|done].
      intros Hs. simplify_eq. exists n, a. simpl. repeat split; try done. by left.
Qed.

Lemma registry_loop_nofilm_effect keys : forall s l s' l',
  registry_inv s l ->
  registry_loop keys (s, l) = Ok (s', l') ->
  registry_inv s' l'
  /\ vocab s' = vocab s /\ sharing_patterns s' = sharing_patterns s
  /\ gammas s' = gammas s /\ betas s' = betas s
  /\ save_module_outputs s' = save_module_outputs s
  /\ stem s' = stem s /\ classifier_hidden s' = classifier_hidden s
  /\ classifier_final s' = classifier_final s
  /\ (forall k, is_Some (function_modules s' !! k)
                <-> is_Some (function_modules s !! k) \/ k ∈ keys)
  /\ (forall k, k ∈ keys ->
        function_modules_num_inputs s' !! k = program_token_arity (vocab s) !! k)
  /\ (forall k, k ∉ keys ->
        function_modules_num_inputs s' !! k = function_modules_num_inputs s !! k).
Proof.
  induction keys as [|k keys IH]; intros s l s' l' Hinv Hl; simpl in Hl.
  - simplify_eq. split; [done|]. do 8 (split; [done|]). split; [|split].
    + intros k. split; [by left | intros [?|Hk]; [done | by apply elem_of_nil in Hk]].
    + intros k Hk. by apply elem_of_nil in Hk.
    + done.
  - unbind. destruct (registry_step k (s, l)) as [[s1 l1]| |] eqn:Es; try done.
    destruct Hinv as (Hf & Hm & Hp & Hval & Hloc).
    destruct (registry_step_nofilm_effect k s l s1 l1 Hf Es)
      as (n & a & Hn & Hl1 & Hfm & Hmod & Hni & Hheap & Hf1 & Hv1 & Hsp1 & Hg1 & Hb1 & Hsv1
          & Hst1 & Hch1 & Hcf1).
    assert (Hinv1 : registry_inv s1 l1).
    { split; [done|]. split; [by rewrite Hmod, Hfm, Hm|].
      destruct Hheap as [[Hh Hla] | (m & Hpm & Hh & ->)]; rewrite Hh.
      - split; [done|]. split.
        + intros k' a'. rewrite Hfm, lookup_insert. case_decide; [|apply Hval].
          intros ?; simplify_eq. by apply Hloc.
        + intros a'. rewrite Hl1. intros ?; simplify_eq. by apply Hloc.
      - split; [apply Forall_app; split; [done|by constructor]|].
        rewrite length_app. simpl. split.
        + intros k' a'. rewrite Hfm, lookup_insert. case_decide.
          * intros ?; simplify_eq. lia.
          * intros Hk'. apply Hval in Hk'. lia.
        + intros a'. rewrite Hl1. intros ?; simplify_eq. lia. }
    destruct (IH s1 l1 s' l' Hinv1 Hl)
      as (Hinv' & Hv' & Hsp' & Hg' & Hb' & Hsv' & Hst' & Hch' & Hcf' & Hdom & Hin & Hout).
    split; [done|]. do 8 (split; [congruence|]). split; [|split].
    + intros k'. split.
      * intros Hk'. apply Hdom in Hk' as [Hk'|Hk'].
        -- rewrite Hfm, lookup_insert in Hk'. case_decide; [subst; right; left|by left].
        -- right. by right.
      * intros [Hk'|Hk'].
        -- apply Hdom. left. rewrite Hfm, lookup_insert. case_decide; [eauto|done].
        -- apply Hdom. apply elem_of_cons in Hk' as [->|Hk']; [|by right].
           left. rewrite Hfm, lookup_insert_eq. eauto.
    + intros k' Hk'. destruct (decide (k' ∈ keys)) as [Hin'|Hnin].
      * rewrite Hin by done. by rewrite Hv1.
      * apply elem_of_cons in Hk' as [->|?]; [|done].
        rewrite Hout by done. by rewrite Hni, lookup_insert_eq.
    + intros k' Hk'. apply not_elem_of_cons in Hk' as [Hne Hk'].
      rewrite Hout by done. by rewrite Hni, lookup_insert_ne.
Qed.

Lemma init_effect v cfg uf sp self :
  __init__ v cfg uf sp = Ok self ->
  uf = false /\ use_film self = false
  /\ gammas self = None /\ betas self = None
  /\ save_module_outputs self = false
  /\ vocab self = v /\ sharing_patterns self = sp
  /\ build_stem cfg = inr (stem self)
  /\ build_classifier cfg (length (answer_idx_to_token v))
     = inr (classifier_hidden self, classifier_final self)
  /\ _modules self = function_modules self
  /\ (forall k, is_Some (function_modules self !! k)
                <-> k ∈ (program_token_to_idx v).*1)
  /\ (forall k a, function_modules self !! k = Some a ->
        exists m, modules_heap self !! a = Some m /\ plain_module m)
  /\ (forall k, k ∈ (program_token_to_idx v).*1 ->
        function_modules_num_inputs self !! k = program_token_arity v !! k)
  /\ (forall k, k ∉ (program_token_to_idx v).*1 ->
        function_modules_num_inputs self !! k = None).
Proof.
  unfold __init__, declare_film_coefficients. unbind. intros Hi.
  destruct (build_stem cfg) as [e|st]; try done.
  destruct uf; simpl in Hi; try done.
  destruct (build_classifier cfg _) as [e|[hid fin]]; try done. simpl in Hi.
  destruct (registry_loop _ _) as [[s1 l1]| |] eqn:E; try done. simplify_eq.
  apply registry_loop_nofilm_effect in E
    as ((Hf & Hm & Hp & Hval & _) & Hv & Hsp & Hg & Hb & Hsv & Hst & Hch & Hcf
        & Hdom & Hin & Hout).
  2:{ repeat split; try done; simpl; try by constructor. }
  simpl in *. do 7 (split; [done|]). split; [by rewrite Hst|].
  split; [by rewrite Hch, Hcf|]. split; [done|]. split; [|split; [|split]].
  - intros k. rewrite Hdom, lookup_empty. split; [intros [Hk|Hk]; [by destruct Hk|done] | by right].
  - intros k a Hk. apply Hval in Hk. destruct (lookup_lt_is_Some_2 _ _ Hk) as [m Hm'].
    exists m. split; [done|]. eapply Forall_lookup_1; eauto.
  - intros k Hk. by rewrite Hin.
  - intros k Hk. by rewrite Hout.
Qed.

(** X1. Whenever [ModuleNet.__init__] returns a model, [use_film] was
    off; the model has no conditioning coefficients and output capture off,
    keeps the vocabulary and the sharing switches it was given together with
    the stem and the classifier built for them; the modules registered with
    [add_module] are exactly those of [function_modules]; an operator has a
    module exactly when it is a key of [program_token_to_idx]; every registered
    address holds an unconditioned module; and [function_modules_num_inputs] is
    [program_token_arity] restricted to those keys. *)
Theorem construction_registry v cfg uf sp self :
  __init__ v cfg uf sp = Ok self ->
  uf = false /\ use_film self = false
  /\ gammas self = None /\ betas self = None
  /\ save_module_outputs self = false
  /\ vocab self = v /\ sharing_patterns self = sp
  /\ build_stem cfg = inr (stem self)
  /\ build_classifier cfg (length (answer_idx_to_token v))
     = inr (classifier_hidden self, classifier_final self)
  /\ _modules self = function_modules self
  /\ (forall k, is_Some (function_modules self !! k)
                <-> k ∈ (program_token_to_idx v).*1)
  /\ (forall k a, function_modules self !! k = Some a ->
        exists m, modules_heap self !! a = Some m /\ plain_module m)
  /\ (forall k, k ∈ (program_token_to_idx v).*1 ->
        function_modules_num_inputs self !! k = program_token_arity v !! k)
  /\ (forall k, k ∉ (program_token_to_idx v).*1 ->
        function_modules_num_inputs self !! k = None).
Proof. apply init_effect. Qed.



(** ** Token programs that always evaluate *)









(** ** The used-token mask *)

Lemma mask_inv_mark v program n i j u :
  (i < n)%nat -> operator_at v program i j ->
  mask_inv v program n u ->
  mask_inv v program n (alter (fun row => <[j := 1]> row) i u).
Proof.
  intros Hi Hop (Hlen & Hshape & Hmarked). split; [by rewrite length_alter|]. split.
  - apply Forall_alter; [done|]. intros row Hrow [Hl Hb]. split; [by rewrite length_insert|].
    apply Forall_insert; [done|by right].
  - intros i' j' row. destruct (decide (i' = i)) as [->|Hne].
    + destruct (u !! i) as [row0|] eqn:E.
      * rewrite list_lookup_alter_eq, E. simpl. intros ?; simplify_eq.
        destruct (decide (j' = j)) as [->|Hnj]; [done|].
        rewrite list_lookup_insert_ne by done. by apply Hmarked.
      * rewrite list_lookup_alter_eq, E. done.
    + rewrite list_lookup_alter_ne by done. apply Hmarked.
Qed.

Lemma keeps_mask_bind {A B} s0 program n (m : M A) (k : A -> M B) :
  keeps_mask s0 program n m -> (forall a, (exists s, (m s).2 = Ok a) -> keeps_mask s0 program n (k a)) ->
  keeps_mask s0 program n (m ≫= k).
Proof.
  intros Hm Hk s Hu Hi. unfold mbind, M_bind, Mbind. specialize (Hm s Hu Hi).
  destruct (m s) as [s' [a|e|]] eqn:E; simpl in *; try done.
  apply Hk; [|tauto|tauto]. exists s. by rewrite E.
Qed.

Lemma keeps_mask_pure {A} s0 program n (m : M A) :
  (forall s, (m s).1 = s) -> keeps_mask s0 program n m.
Proof. intros Hm s Hu Hi. by rewrite Hm. Qed.

Lemma keeps_mask_gather s0 program n (rec : nat -> M (list Row * nat)) k :
  (forall j, keeps_mask s0 program n (rec j)) ->
  forall acc j, keeps_mask s0 program n (gather_inputs rec k acc j).
Proof.
  intros Hrec. induction k as [|k IH]; intros acc j; simpl.
  - by apply keeps_mask_pure.
  - apply keeps_mask_bind; [apply Hrec|]. intros [cur j'] _. apply IH.
Qed.

Lemma keeps_mask_apply_token s0 program n (rec : nat -> M (list Row * nat)) feats i j
    (used : bool) fn_str :
  (i < n)%nat ->
  (used = true -> operator_at (vocab s0) program i j) ->
  (forall j, keeps_mask s0 program n (rec j)) ->
  keeps_mask s0 program n (apply_token rec feats i j used fn_str).
Proof.
  intros Hi Hop Hrec. unfold apply_token.
  apply keeps_mask_bind.
  { destruct used; [|by apply keeps_mask_pure].
    intros s Hu Hinv. unfold modify, mark_used. simpl. split.
    - eapply unchanged_trans; [exact Hu|]. by repeat split.
    - apply mask_inv_mark; auto. }
  intros _ _.
  repeat first [ apply keeps_mask_gather; exact Hrec
               | by apply keeps_mask_pure
               | apply keeps_mask_bind; [|intros ? _]
               | case_match ].
Qed.

Lemma keeps_mask_helper s0 program n feats i :
  (i < n)%nat ->
  forall fuel j, keeps_mask s0 program n (_forward_modules_ints_helper fuel feats program i j).
Proof.
  intros Hi. induction fuel as [|fuel IH]; intros j; simpl.
  - by apply keeps_mask_pure.
  - intros s Hu Hinv. unfold mbind at 1. unfold M_bind, Mbind.
    unfold read_token. unM.
    destruct (j <? size1 program)%nat eqn:Ej.
    + apply Nat.ltb_lt in Ej. unfold index2.
      destruct (data program !! i) as [row|] eqn:Erow; simpl; [|done].
      destruct (row !! j) as [z|] eqn:Ez; simpl; [|done].
      unfold dict_getZ. pose proof Hu as (_&_&_&_&_&_&_&_&_&_&Hvoc&_).
      destruct (program_idx_to_token (vocab s) !! z) as [name|] eqn:En; simpl; [|done].
      destruct (decide (name = "<NULL>")); [by apply keeps_mask_apply_token|].
      destruct (decide (name = "<START>")); [by apply IH|].
      apply keeps_mask_apply_token; try done.
      intros _. exists row, z, name. by rewrite <- Hvoc.
    + simpl. by apply keeps_mask_apply_token.
Qed.

Lemma keeps_mask_ints_examples s0 program n feats fuel idx :
  Forall (fun i => (i < n)%nat) idx ->
  forall acc, keeps_mask s0 program n (ints_examples fuel feats program idx acc).
Proof.
  induction idx as [|i idx IH]; intros Hidx acc; simpl.
  - by apply keeps_mask_pure.
  - apply Forall_cons in Hidx as [Hi Hidx].
    apply keeps_mask_bind; [by apply keeps_mask_helper|]. intros [cur j] _. by apply IH.
Qed.

(** X4. After every run of the token-sequence evaluator, whether it
    returns or raises, [used_fns] has the shape of the program, its entries
    are 0 or 1, and an entry is 1 only in a row of the batch, at a position
    where the program holds a token that names neither padding nor the start
    marker. *)
Theorem used_mask_shape feats program s :
  let s' := (_forward_modules_ints feats program s).1 in
  length (used_fns s') = length (data program)
  /\ Forall (fun row => length row = size1 program
                        /\ Forall (fun z => z = 0 \/ z = 1) row) (used_fns s')
  /\ forall i j row, used_fns s' !! i = Some row -> row !! j = Some 1 ->
       (i < length feats)%nat /\ operator_at (vocab s) program i j.
Proof.
  cbv zeta. unfold _forward_modules_ints. unfold mbind at 1. unfold M_bind, Mbind, modify.
  set (s1 := set_used_fns _ s).
  assert (Hu1 : unchanged s s1) by by repeat split.
  assert (Hinv1 : mask_inv (vocab s) program (length feats) (used_fns s1)).
  { simpl. split; [by rewrite length_replicate|]. split.
    - apply Forall_replicate. split; [by rewrite length_replicate|].
      apply Forall_replicate. by left.
    - intros i j row Hi Hj. apply lookup_replicate in Hi as [-> _].
      apply lookup_replicate in Hj as [? _]. done. }
  assert (Hk : keeps_mask s program (length feats)
                 (final_module_outputs ←
                    ints_examples (S (size1 program)) feats program (seq 0 (length feats)) [];
                  lift (torch_cat final_module_outputs))).
  { apply keeps_mask_bind.
    - apply keeps_mask_ints_examples. apply Forall_forall. intros i Hi.
      apply elem_of_seq in Hi. lia.
    - intros ? _. by apply keeps_mask_pure. }
  destruct (Hk s1 Hu1 Hinv1) as [_ Hinv]. exact Hinv.
Qed.

(** ** The capture buffers *)

Lemma json_node_capture feats i outs f s out :
  save_inv s ->
  node_value s feats i outs f = Ok out ->
  wp (json_node feats i outs f) s
     (fun s' r => r = Ok (outs ++ [out]) /\ captured s [out] s').
Proof.
  unfold node_value, json_node, captured. unbind. intros Hinv Hv.
  apply wp_bind, wp_get. apply wp_bind, wp_lift.
  destruct (dict_get _ _) as [a| |]; try done.
  apply wp_bind, wp_lift. destruct (deref _ a) as [m| |]; try done.
  apply wp_bind, wp_lift.
  destruct (if decide (function_to_str f = "scene") then _ else _) as [ins| |]; try done.
  apply wp_bind, wp_lift. rewrite Hv.
  apply wp_bind. destruct (save_module_outputs s) eqn:Es.
  - apply wp_bind, wp_lift. unfold append_last.
    destruct (all_module_outputs s) as [|l0 ls0 _] eqn:Eamo using rev_ind.
    { by destruct (Hinv Es). }
    rewrite last_snoc.
    apply wp_modify, wp_ret. split; [done|]. split; [by repeat split|]. split; [done|].
    exists ls0, l0. split; [done|]. simpl. rewrite length_app. simpl.
    replace (pred (length ls0 + 1)) with (length ls0 + 0)%nat by lia.
    by rewrite insert_app_r.
  - apply wp_ret, wp_ret. split; [done|]. split; [apply unchanged_refl|]. done.
Qed.

Lemma captured_trans s s1 s2 outs1 outs2 :
  captured s outs1 s1 -> captured s1 outs2 s2 -> captured s (outs1 ++ outs2) s2.
Proof.
  intros (Hu1 & Hg1 & Ha1) (Hu2 & Hg2 & Ha2).
  split; [by eapply unchanged_trans|]. split; [congruence|].
  pose proof Hu1 as (_&_&_&_&_&_&_&_&_&_&_&_&_&Hsv). rewrite Hsv in Ha2.
  destruct (save_module_outputs s).
  - destruct Ha1 as (ls & l & E1 & E1'). destruct Ha2 as (ls' & l' & E2 & E2').
    rewrite E1' in E2. apply app_inj_tail in E2 as [<- <-].
    exists ls, l. split; [done|]. by rewrite E2', <- app_assoc.
  - congruence.
Qed.

Lemma captured_save_inv s outs s' : save_inv s -> captured s outs s' -> save_inv s'.
Proof.
  intros Hinv (Hu & _ & Ha) Hs.
  pose proof Hu as (_&_&_&_&_&_&_&_&_&_&_&_&_&Hsv). rewrite Hsv in Hs. rewrite Hs in Ha.
  destruct Ha as (ls & l & _ & ->). by destruct ls.
Qed.

Lemma json_nodes_capture feats i nodes : forall prev outs s,
  save_inv s ->
  nodes_value s feats i prev nodes = Ok (prev ++ outs) ->
  wp (json_nodes feats i prev nodes) s
     (fun s' r => r = Ok (prev ++ outs) /\ captured s outs s').
Proof.
  induction nodes as [|f nodes IH]; intros prev outs s Hinv Hv; simpl in *.
  - apply wp_ret. simplify_eq. apply (f_equal length) in Hv as Hl.
    rewrite length_app in Hl. destruct outs; [|simpl in Hl; lia].
    rewrite app_nil_r. split; [done|]. split; [apply unchanged_refl|]. split; [done|].
    destruct (save_module_outputs s) eqn:Es; [|done].
    destruct (all_module_outputs s) as [|l0 ls0 _] eqn:Eamo using rev_ind.
    { by destruct (Hinv Es). }
    exists ls0, l0. by rewrite app_nil_r.
  - unbind. destruct (node_value s feats i prev f) as [out| |] eqn:En; try done.
    apply nodes_value_Ok in Hv as Hv'. destruct Hv' as (outs' & Heq & _).
    rewrite <- app_assoc in Heq. apply app_inv_head in Heq. subst outs.
    apply wp_bind. eapply wp_mono; [by apply json_node_capture|].
    intros s1 r [-> Hc1].
    eapply wp_mono; [apply (IH (prev ++ [out]) outs' s1)|].
    + by eapply captured_save_inv.
    + destruct Hc1 as [Hu1 _]. rewrite (nodes_value_unchanged s s1) by done.
      by rewrite <- app_assoc.
    + intros s2 r2 [-> Hc2]. split; [by rewrite <- app_assoc|].
      by eapply (captured_trans s s1 s2 [out] outs').
Qed.

(** After example [i] has run, the buffers hold one more list each. *)
Lemma json_example_capture feats program i s nodes outs r :
  py_index program (Z.of_nat i) = Ok nodes ->
  nodes_value s feats i [] nodes = Ok outs ->
  py_index outs (-1) = Ok r ->
  wp (json_example feats program i) s
     (fun s' res => res = Ok r /\ unchanged s s'
        /\ if save_module_outputs s
           then all_module_outputs s' = all_module_outputs s ++ [outs]
                /\ all_module_grad_outputs s'
                   = all_module_grad_outputs s ++ [replicate (length nodes) None]
           else all_module_outputs s' = all_module_outputs s
                /\ all_module_grad_outputs s' = all_module_grad_outputs s).
Proof.
  intros Hp Hv Hr. unfold json_example.
  apply wp_bind, wp_get. apply wp_bind.
  destruct (save_module_outputs s) eqn:Es.
  - apply wp_bind, wp_modify. cbv beta iota. apply wp_bind, wp_lift. rewrite Hp.
    apply wp_modify. cbv beta iota. apply wp_bind, wp_lift.
    set (s1 := set_all_module_grad_outputs _ _).
    assert (Hu1 : unchanged s s1) by by repeat split.
    assert (Hinv1 : save_inv s1) by (intros _; simpl; by destruct (all_module_outputs s)).
    apply wp_bind. eapply wp_mono; [apply (json_nodes_capture feats i nodes [] outs s1 Hinv1)|].
    { by rewrite (nodes_value_unchanged s s1). }
    intros s2 r2 [-> (Hu2 & Hg2 & Ha2)]. simpl in Ha2. rewrite Es in Ha2.
    apply wp_lift. simpl. split; [done|]. split; [by eapply unchanged_trans|].
    destruct Ha2 as (ls & l & E & ->). apply app_inj_tail in E as [<- <-].
    split; [done|]. by rewrite Hg2.
  - apply wp_ret. cbv beta iota. apply wp_bind, wp_lift. rewrite Hp.
    assert (Hinv : save_inv s) by (intros ?; congruence).
    apply wp_bind. eapply wp_mono; [by apply (json_nodes_capture feats i nodes [] outs s Hinv)|].
    intros s2 r2 [-> (Hu2 & Hg2 & Ha2)]. rewrite Es in Ha2.
    apply wp_lift. simpl. done.
Qed.

Lemma json_examples_capture feats program idx : forall acc s all rs,
  omapM (example_outs s feats program) idx = Ok all ->
  omapM (fun outs => py_index outs (-1)) all = Ok rs ->
  wp (json_examples feats program idx acc) s
     (fun s' res => res = Ok (acc ++ rs) /\ unchanged s s'
        /\ if save_module_outputs s
           then all_module_outputs s' = all_module_outputs s ++ all
                /\ all_module_grad_outputs s'
                   = all_module_grad_outputs s
                     ++ ((fun outs : list (list Row) => replicate (length outs) None) <$> all)
           else all_module_outputs s' = all_module_outputs s
                /\ all_module_grad_outputs s' = all_module_grad_outputs s).
Proof.
  induction idx as [|i idx IH]; intros acc s all rs Hall Hrs; simpl in *.
  - simplify_eq. simpl in Hrs. simplify_eq. apply wp_ret. rewrite !app_nil_r.
    split; [done|]. split; [apply unchanged_refl|]. by destruct (save_module_outputs s).
  - unbind. unfold example_outs in Hall at 1. unbind.
    destruct (py_index program (Z.of_nat i)) as [nodes| |] eqn:Ep; try done.
    destruct (nodes_value s feats i [] nodes) as [outs| |] eqn:Ev; try done.
    destruct (omapM (example_outs s feats program) idx) as [all'| |] eqn:Eall; try done.
    simplify_eq. simpl in Hrs. unbind.
    destruct (py_index outs (-1)) as [r| |] eqn:Er; try done.
    destruct (omapM _ all') as [rs'| |] eqn:Ers; try done. simplify_eq.
    apply wp_bind. eapply wp_mono; [by apply (json_example_capture feats program i s nodes outs r)|].
    intros s1 res (-> & Hu1 & Hb1).
    eapply wp_mono; [apply (IH (acc ++ [r]) s1 all' rs')|].
    + rewrite <- Eall. apply omapM_unchanged_ext. intros i'. unfold example_outs. unbind.
      destruct (py_index program (Z.of_nat i')); [|done|done]. by apply nodes_value_unchanged.
    + done.
    + intros s2 res2 (-> & Hu2 & Hb2). split; [by rewrite <- app_assoc|].
      split; [by eapply unchanged_trans|].
      pose proof Hu1 as (_&_&_&_&_&_&_&_&_&_&_&_&_&Hsv). rewrite Hsv in Hb2.
      apply nodes_value_Ok in Ev as (outs' & -> & Hlen & _). simpl in *.
      destruct (save_module_outputs s).
      * destruct Hb1 as [E1 E2], Hb2 as [E3 E4]. rewrite E3, E4, E1, E2, <- !app_assoc.
        simpl. by rewrite Hlen.
      * destruct Hb1 as [E1 E2], Hb2 as [E3 E4]. by rewrite E3, E4, E1, E2.
Qed.

Lemma example_value_outs s feats program idx : forall rs,
  omapM (example_value s feats program) idx = Ok rs ->
  exists all,
    omapM (example_outs s feats program) idx = Ok all
    /\ omapM (fun outs => py_index outs (-1)) all = Ok rs.
Proof.
  induction idx as [|i idx IH]; intros rs Hrs; simpl in *.
  - simplify_eq. by exists [].
  - unbind. unfold example_value in Hrs at 1. unfold example_outs at 1. unbind.
    destruct (py_index program (Z.of_nat i)) as [nodes| |]; try done.
    destruct (nodes_value s feats i [] nodes) as [outs| |]; try done.
    destruct (py_index outs (-1)) as [r| |] eqn:Er; try done.
    destruct (omapM (example_value s feats program) idx) as [rs'| |]; try done.
    simplify_eq. destruct (IH rs' eq_refl) as (all & -> & Hl).
    exists (outs :: all). split; [done|]. simpl. by rewrite Er, Hl.
Qed.

Lemma example_outs_unchanged s s' feats program i :
  unchanged s s' -> example_outs s' feats program i = example_outs s feats program i.
Proof.
  intros Hu. unfold example_outs. unbind.
  destruct (py_index program (Z.of_nat i)); [|done|done]. by apply nodes_value_unchanged.
Qed.

Lemma example_outs_lengths s feats program : forall n all,
  omapM (example_outs s feats program) (seq 0 n) = Ok all ->
  (fun outs : list (list Row) => replicate (length outs) (@None (list Row))) <$> all
  = (fun nodes : list Node => replicate (length nodes) None) <$> take n program.
Proof.
  intros n all Hall. apply omapM_Ok in Hall.
  apply list_eq. intros i. rewrite !list_lookup_fmap.
  destruct (decide (i < n)%nat) as [Hi|Hi].
  - pose proof (Forall2_length _ _ _ Hall) as Hlen. rewrite length_seq in Hlen.
    destruct (lookup_lt_is_Some_2 all i ltac:(lia)) as [outs Ho].
    eapply Forall2_lookup_r in Hall as (i' & Hi' & Hv); [|exact Ho].
    apply lookup_seq in Hi' as [-> _]. simpl in Hv. unfold example_outs in Hv. unbind.
    destruct (py_index program (Z.of_nat i)) as [nodes| |] eqn:Ep; try done.
    apply py_index_nat in Ep. rewrite lookup_take_lt, Ep, Ho by done. simpl.
    apply nodes_value_Ok in Hv as (outs' & -> & Hl & _). simpl. by rewrite Hl.
  - pose proof (Forall2_length _ _ _ Hall) as Hlen. rewrite length_seq in Hlen.
    rewrite (lookup_ge_None_2 all) by lia.
    by rewrite (lookup_ge_None_2 (take n program)) by (rewrite length_take; lia).
Qed.

(** X5. When the explicit-form evaluator returns: with
    [save_module_outputs] on, [all_module_outputs] holds, example by example
    in batch order, the outputs of all the nodes of the example in list order,
    and [all_module_grad_outputs] one list of [None], as long as the example's
    node list, per example; with [save_module_outputs] off both are empty. *)
Theorem capture_buffers s feats program s' out :
  _forward_modules_json feats program s = (s', Ok out) ->
  if save_module_outputs s
  then omapM (example_outs s feats program) (seq 0 (length feats))
       = Ok (all_module_outputs s')
       /\ all_module_grad_outputs s'
          = (fun nodes => replicate (length nodes) None) <$> take (length feats) program
  else all_module_outputs s' = [] /\ all_module_grad_outputs s' = [].
Proof.
  intros Hrun.
  pose proof (forward_modules_json_value feats program s) as Hval. rewrite Hrun in Hval.
  simpl in Hval. symmetry in Hval. unfold json_value in Hval. unbind.
  destruct (omapM (example_value s feats program) (seq 0 (length feats))) as [rs| |] eqn:Ers;
    try done.
  destruct (example_value_outs s feats program _ rs Ers) as (all & Hall & Hlast).
  unfold _forward_modules_json in Hrun.
  unfold mbind at 1 in Hrun. unfold M_bind, Mbind, modify in Hrun.
  unfold mbind at 1 in Hrun. unfold M_bind, Mbind in Hrun.
  set (s0 := set_all_module_grad_outputs [] (set_all_module_outputs [] s)) in *.
  assert (Hu0 : unchanged s s0) by by repeat split.
  pose proof (json_examples_capture feats program (seq 0 (length feats)) [] s0 all rs) as Hw.
  rewrite (omapM_unchanged_ext _ (example_outs s feats program)) in Hw
    by (intros; by apply example_outs_unchanged).
  specialize (Hw Hall Hlast). unfold wp in Hw.
  unfold mbind at 1 in Hrun. unfold M_bind, Mbind in Hrun.
  destruct (json_examples feats program (seq 0 (length feats)) [] s0) as [s1 r1].
  simpl in Hw. destruct Hw as (-> & Hu1 & Hb). unfold lift in Hrun. simplify_eq.
  change (save_module_outputs s0) with (save_module_outputs s) in Hb.
  destruct (save_module_outputs s).
  - destruct Hb as [-> ->]. simpl. split; [done|].
    by apply (example_outs_lengths s feats).
  - by destruct Hb as [-> ->].
Qed.

(** ** Evaluation under conditioning *)

Lemma apply_token_film (rec : nat -> M (list Row * nat)) feats i j used fn_str s :
  use_film s = true -> (forall j, keeps (rec j)) ->
  wp (apply_token rec feats i j used fn_str) s (fun _ r => forall v, r <> Ok v).
Proof.
  intros Hf Hrec. unfold apply_token.
  apply wp_bind.
  eapply (wp_mono _ _ (fun s' r => use_film s' = true /\ r = Ok tt)).
  { destruct used; [apply wp_modify | apply wp_ret]; done. }
  intros s1 r [Hf1 ->]. apply wp_bind, wp_get. apply wp_bind, wp_lift.
  destruct (dict_get _ fn_str) as [n| |]; [|done|done].
  apply wp_bind, wp_lift.
  destruct (resolve s1 fn_str _) as [[midx a]| |]; [|done|done].
  apply wp_bind.
  eapply (wp_mono _ _ (fun s' _ => use_film s' = true)).
  { case_match; [by apply wp_ret|]. unfold wp.
    destruct (keeps_gather rec (Z.to_nat n) Hrec [] (S j) s1) as [Huf _]. by rewrite Huf. }
  intros s2 [[ins j2]|e|] Hf2; [|done|done].
  apply wp_bind, wp_get. rewrite Hf2. by apply wp_lift.
Qed.

Lemma helper_film feats program i : forall fuel j s,
  use_film s = true ->
  wp (_forward_modules_ints_helper fuel feats program i j) s (fun _ r => forall v, r <> Ok v).
Proof.
  induction fuel as [|fuel IH]; intros j s Hf; simpl; [by apply wp_lift|].
  apply wp_bind.
  eapply (wp_mono _ _ (fun s' _ => use_film s' = true)).
  { unfold read_token, index2, dict_getZ. repeat first [ wp_step | case_match | done ]. }
  intros s1 [[used fn_str]|e|] Hf1; [|done|done].
  repeat case_match; first [ by apply IH | apply apply_token_film; [done|apply keeps_helper] ].
Qed.

(** X6. On a model with [use_film] set, the token-sequence evaluator
    never returns an output, and neither does [forward] on a [Variable] of
    rank 2: every run ends in an exception. *)
Theorem conditioned_evaluation_never_returns s feats :
  use_film s = true ->
  (forall program, exists e, (_forward_modules_ints feats program s).2 = Raise e)
  /\ (forall x shape rows, length shape = 2%nat ->
        exists e, (forward x (PVariable shape rows) s).2 = Raise e).
Proof.
  intros Hf.
  assert (Hints : forall feats program,
            exists e, (_forward_modules_ints feats program s).2 = Raise e).
  { clear feats. intros feats program.
    pose proof (forward_modules_ints_total feats program s) as Hfuel.
    unfold _forward_modules_ints in *. unfold mbind at 1 in Hfuel. unfold mbind at 1.
    unfold M_bind, Mbind, modify in *.
    set (s1 := set_used_fns _ s) in *.
    unfold mbind at 1 in Hfuel. unfold mbind at 1. unfold M_bind, Mbind in *.
    destruct feats as [|f feats].
    { simpl. eauto. }
    simpl seq in *. cbn [ints_examples] in *.
    unfold mbind at 1 in Hfuel. unfold mbind at 1. unfold M_bind, Mbind in *.
    pose proof (helper_film (f :: feats) program 0%nat (S (size1 program)) 0%nat s1 Hf) as Hh.
    unfold wp in Hh.
    destruct (_forward_modules_ints_helper _ _ _ _ _ _) as [s2 [[o j]|e|]]; simpl in *.
    - by destruct (Hh (o, j)).
    - eauto.
    - done. }
  split; [apply Hints|].
  intros x shape rows Hshape.
  destruct (forward_cases x (PVariable shape rows) s) as (Hok & Hbad & Herr).
  destruct (py_len (PVariable shape rows)) as [n| |] eqn:El.
  - destruct (decide (n = length x)) as [->|Hn].
    + rewrite Hok by done. cbv zeta. rewrite decide_True by done.
      unfold then_classify. unfold mbind at 1. unfold M_bind, Mbind.
      destruct (Hints (stem_forward (stem s) x) {| size1 := nth 1 shape 0%nat; data := rows |})
        as [e He].
      destruct (_forward_modules_ints _ _ _) as [s' r]. simpl in *. subst r. eauto.
    + rewrite (Hbad n) by done. eauto.
  - rewrite (Herr e) by done. eauto.
  - destruct shape; done.
Qed.

(** ** What the explicit-form evaluator can raise *)






(** ** Answer-vocabulary expansion, case by case *)

Lemma py_max_spec (l : list Z) m :
  py_max l = Ok m <-> m ∈ l /\ forall v, v ∈ l -> v <= m.
Proof.
  destruct l as [|x l]; simpl.
  - split; [done|]. intros [Hm _]. by apply elem_of_nil in Hm.
  - assert (Hf : foldr Z.max x l ∈ x :: l /\ forall v, v ∈ x :: l -> v <= foldr Z.max x l).
    { induction l as [|y l IH]; simpl.
      - split; [by left|]. intros v Hv. apply list_elem_of_singleton in Hv. lia.
      - destruct IH as [IH1 IH2]. split.
        + destruct (Z.max_spec y (foldr Z.max x l)) as [[_ ->]|[_ ->]].
          * apply elem_of_cons in IH1 as [->|?]; [by left|]. right. by right.
          * right. by left.
        + intros v Hv. apply elem_of_cons in Hv as [->|Hv].
          * specialize (IH2 x ltac:(by left)). lia.
          * apply elem_of_cons in Hv as [->|Hv]; [lia|].
            specialize (IH2 v ltac:(by right)). lia. }
    split.
    + intros ?; simplify_eq. done.
    + intros [Hm Hle]. f_equal. destruct Hf as [Hf1 Hf2].
      specialize (Hle _ Hf1). specialize (Hf2 _ Hm). lia.
Qed.

Lemma values_elem_of (a : gmap string Z) v :
  v ∈ (map_to_list a).*2 <-> exists k, a !! k = Some v.
Proof.
  rewrite list_elem_of_fmap. split.
  - intros ([k v'] & -> & Hkv). apply elem_of_map_to_list in Hkv. eauto.
  - intros [k Hk]. exists (k, v). split; [done|]. by apply elem_of_map_to_list.
Qed.

Lemma py_max_largest a m : py_max (map_to_list a).*2 = Ok m <-> largest_id a m.
Proof.
  rewrite py_max_spec. unfold largest_id. rewrite values_elem_of. split.
  - intros [Hm Hle]. split; [done|]. intros k v Hk. apply Hle, values_elem_of. eauto.
  - intros [Hm Hle]. split; [done|]. intros v Hv. apply values_elem_of in Hv as [k Hk]. eauto.
Qed.

(** X8. [expand_answer_vocab] on an empty mapping raises [ValueError].
    On a mapping whose largest id [m] is not negative, for a final layer with
    as many bias entries as weight rows: when the layer has at most [1 + m]
    rows the call returns and the layer then has [1 + m] rows and bias
    entries; when it has more, the call raises [RuntimeError]. *)
Theorem expand_answer_vocab_cases answer_to_idx std init_b self :
  (answer_to_idx = ∅ ->
   exists msg, expand_answer_vocab answer_to_idx std init_b self = Raise (ValueError msg))
  /\ (forall m,
        largest_id answer_to_idx m -> 0 <= m ->
        length (bias (classifier_final self)) = length (weight (classifier_final self)) ->
        if decide (Z.of_nat (length (weight (classifier_final self))) <= 1 + m)
        then exists self',
               expand_answer_vocab answer_to_idx std init_b self = Ok self'
               /\ length (weight (classifier_final self')) = Z.to_nat (1 + m)
               /\ length (bias (classifier_final self')) = Z.to_nat (1 + m)
        else expand_answer_vocab answer_to_idx std init_b self = Raise RuntimeError).
Proof.
  split.
  - intros ->. unfold expand_answer_vocab. rewrite map_to_list_empty. simpl. eauto.
  - intros m Hm Hpos Hb. apply py_max_largest in Hm.
    unfold expand_answer_vocab. rewrite Hm. unbind.
    assert ((1 + m <? 0) = false) as -> by lia.
    rewrite Hb, Nat.eqb_refl. simpl negb. cbv iota.
    case_decide as Hle.
    + assert ((Z.to_nat (1 + m) <? length (weight (classifier_final self)))%nat = false) as ->
        by (apply Nat.ltb_ge; lia).
      eexists. split; [reflexivity|]. simpl.
      rewrite !length_app, !length_drop, length_map, normal_length, length_replicate. lia.
    + assert ((Z.to_nat (1 + m) <? length (weight (classifier_final self)))%nat = true) as ->
        by (apply Nat.ltb_lt; lia).
      done.
Qed.

Lemma expand_same_size answer_to_idx std init_b self m :
  largest_id answer_to_idx m ->
  1 + m = Z.of_nat (length (weight (classifier_final self))) ->
  length (bias (classifier_final self)) = length (weight (classifier_final self)) ->
  expand_answer_vocab answer_to_idx std init_b self = Ok self.
Proof.
  intros Hm Heq Hb. apply py_max_largest in Hm. unfold expand_answer_vocab. rewrite Hm. unbind.
  assert ((1 + m <? 0) = false) as -> by lia.
  assert ((Z.to_nat (1 + m) <? length (weight (classifier_final self)))%nat = false) as ->
    by (apply Nat.ltb_ge; lia).
  rewrite Hb, Nat.eqb_refl. simpl.
  rewrite !drop_ge, !app_nil_r.
  - f_equal. destruct self as [? ? ? ? ? ? [? ? ?] ? ? ? ? ? ? ? ? ? ?]. done.
  - rewrite length_replicate. lia.
  - rewrite length_map, normal_length. lia.
Qed.

(** X9. Expanding the answer vocabulary a second time with the same
    mapping changes nothing, whatever [std] and [init_b] the second call is
    given: the rows added by the first call are not drawn again. *)
Theorem expand_answer_vocab_idempotent answer_to_idx std init_b std' init_b' self self' :
  expand_answer_vocab answer_to_idx std init_b self = Ok self' ->
  expand_answer_vocab answer_to_idx std' init_b' self' = Ok self'.
Proof.
  intros He.
  assert (exists m, largest_id answer_to_idx m
                    /\ Z.of_nat (length (weight (classifier_final self))) <= 1 + m
                    /\ length (bias (classifier_final self))
                       = length (weight (classifier_final self))) as (m & Hm & Hle & Hb).
  { unfold expand_answer_vocab in He. unbind.
    destruct (py_max _) as [m| |] eqn:Em; try done.
    exists m. split; [by apply py_max_largest|].
    destruct (1 + m <? 0) eqn:E1; [done|]. apply Z.ltb_ge in E1.
    destruct (Z.to_nat (1 + m) <? _)%nat eqn:E2; [done|]. apply Nat.ltb_ge in E2.
    destruct (length (bias _) =? _)%nat eqn:E3; [|done]. apply Nat.eqb_eq in E3.
    split; [lia|done]. }
  pose proof Hm as Hm'. apply py_max_largest in Hm'.
  unfold expand_answer_vocab in He. rewrite Hm' in He. unbind.
  assert ((1 + m <? 0) = false) as E1 by lia. rewrite E1 in He.
  assert ((Z.to_nat (1 + m) <? length (weight (classifier_final self)))%nat = false) as E2
    by (apply Nat.ltb_ge; lia). rewrite E2 in He.
  rewrite Hb, Nat.eqb_refl in He. simpl in He. simplify_eq.
  apply (expand_same_size _ _ _ _ m); [done| |]; simpl.
  - rewrite length_app, length_drop, length_map, normal_length. lia.
  - rewrite !length_app, !length_drop, length_map, normal_length, length_replicate. lia.
Qed.

(** ** The recursion of the helper ends *)

(** X10. Token-sequence evaluation always ends: whatever the tokens and
    the arities, a run of the evaluator stays within the recursion bound of
    one more than the row width, and a call of the helper at position [j] with
    a bound that covers the rest of the row ends, at a position past [j] when
    it returns: every recursive call is made at a later position, and a
    position past the end is evaluated without recursion. *)
Theorem token_evaluation_terminates (feats : Tensor) (program : Tensor2) (s : ModuleNet) :
  (_forward_modules_ints feats program s).2 <> Fuel
  /\ forall i j fuel, (1 <= fuel)%nat -> (size1 program + 1 <= fuel + j)%nat ->
       ends_after j (_forward_modules_ints_helper fuel feats program i j s).2.
Proof.
  split; [apply forward_modules_ints_total|].
  intros i j fuel H1 HL. exact (helper_total feats program i fuel j s H1 HL).
Qed.

End Proofs.

(** * The dataset scripts *)

Ltac unbind := unfold mbind, outcome_bind, obind, mret, outcome_ret in *.

(** ** Vocabularies built by [create_vocab] *)

Lemma dict_setitem_new {V} (d : list (string * V)) k v :
  k ∉ d.*1 -> dict_setitem d k v = d ++ [(k, v)].
Proof. intros Hk. unfold dict_setitem. by rewrite decide_False. Qed.

Lemma add_word_spec d w :
  dense d ->
  dense (add_word d w)
  /\ d `prefix_of` add_word d w
  /\ (forall k, k ∈ (add_word d w).*1 <-> k ∈ d.*1 \/ k = w).
Proof.
  intros [Hnd Hids]. unfold add_word.
  destruct (decide (w ∈ d.*1)) as [Hin|Hnin].
  - split; [done|]. split; [done|]. intros k. split; [by left|]. by intros [?| ->].
  - rewrite dict_setitem_new by done. split; [split|split].
    + rewrite fmap_app. simpl. apply NoDup_app. split; [done|]. split.
      * intros k Hk Hk'. apply list_elem_of_singleton in Hk'. by subst.
      * apply NoDup_singleton.
    + rewrite fmap_app, Hids, length_app. simpl.
      by rewrite seq_app, fmap_app.
    + by apply prefix_app_r.
    + intros k. rewrite fmap_app, elem_of_app. simpl. by rewrite list_elem_of_singleton.
Qed.

Lemma add_words_spec q : forall d,
  dense d ->
  dense (foldl add_word d q)
  /\ d `prefix_of` foldl add_word d q
  /\ (forall k, k ∈ (foldl add_word d q).*1 <-> k ∈ d.*1 \/ k ∈ q).
Proof.
  induction q as [|w q IH]; intros d Hd; simpl.
  - split; [done|]. split; [done|]. intros k. split; [by left|]. intros [?|Hk]; [done|].
    by apply elem_of_nil in Hk.
  - destruct (add_word_spec d w Hd) as (Hd1 & Hp1 & Hk1).
    destruct (IH _ Hd1) as (Hd2 & Hp2 & Hk2).
    split; [done|]. split; [by etrans|]. intros k. rewrite Hk2, Hk1, elem_of_cons. tauto.
Qed.

Lemma create_vocab_from_spec qs : forall d,
  dense d ->
  let v := foldl (fun question_vocab q => foldl add_word question_vocab q) d qs in
  dense v /\ d `prefix_of` v
  /\ (forall k, k ∈ v.*1 <-> k ∈ d.*1 \/ exists q, q ∈ qs /\ k ∈ q).
Proof.
  induction qs as [|q qs IH]; intros d Hd; simpl.
  - split; [done|]. split; [done|]. intros k. split; [by left|].
    intros [?|(q & Hq & _)]; [done|]. by apply elem_of_nil in Hq.
  - destruct (add_words_spec q d Hd) as (Hd1 & Hp1 & Hk1).
    destruct (IH _ Hd1) as (Hd2 & Hp2 & Hk2).
    split; [done|]. split; [by etrans|]. intros k. rewrite Hk2, Hk1. split.
    + intros [[?|?]|(q' & ? & ?)]; [by left| |].
      * right. exists q. split; [by left|done].
      * right. exists q'. split; [by right|done].
    + intros [?|(q' & Hq' & ?)]; [by left; left|].
      apply elem_of_cons in Hq' as [->|?]; [by left; right|]. right. by exists q'.
Qed.

Lemma sentinels_dense : dense sentinels.
Proof. split; [|done]. apply (bool_decide_unpack _). by vm_compute. Qed.

Lemma dict_item_elem_of {V} (d : list (string * V)) k v :
  NoDup d.*1 -> dict_item d k = Some v <-> (k, v) ∈ d.
Proof.
  induction d as [|[k' v'] d IH]; simpl; intros Hnd.
  - split; [done|]. intros Hk. by apply elem_of_nil in Hk.
  - apply NoDup_cons in Hnd as [Hnin Hnd]. destruct (decide (k' = k)) as [->|Hne].
    + split.
      * intros ?; simplify_eq. by left.
      * intros Hk. apply elem_of_cons in Hk as [?|Hk]; [by simplify_eq|].
        exfalso. apply Hnin. apply list_elem_of_fmap. by exists (k, v).
    + rewrite IH by done. split; [by right|].
      intros Hk. apply elem_of_cons in Hk as [?|Hk]; [by simplify_eq|done].
Qed.

Lemma dense_lookup d i k z :
  dense d -> d !! i = Some (k, z) -> z = Z.of_nat i.
Proof.
  intros [_ Hids] Hi. apply (f_equal (fmap snd)) in Hi as Hz.
  rewrite <- list_lookup_fmap, Hids, list_lookup_fmap in Hz. simpl in Hz.
  apply lookup_lt_Some in Hi. rewrite lookup_seq_lt in Hz by done. simpl in Hz. by simplify_eq.
Qed.

(** In a dense dict the id of a key is its position. *)
Lemma dense_item d k z :
  dense d -> dict_item d k = Some z <-> 0 <= z /\ d.*1 !! Z.to_nat z = Some k.
Proof.
  intros Hd. pose proof Hd as [Hnd Hids]. rewrite dict_item_elem_of by done. split.
  - intros Hk. apply list_elem_of_lookup in Hk as [i Hi].
    pose proof (dense_lookup d i k z Hd Hi) as ->. split; [lia|].
    by rewrite Nat2Z.id, list_lookup_fmap, Hi.
  - intros [Hz Hk]. rewrite list_lookup_fmap in Hk.
    destruct (d !! Z.to_nat z) as [[k' z']|] eqn:E; [|done]. simpl in Hk. simplify_eq.
    pose proof (dense_lookup d _ k z' Hd E) as Hz'. rewrite Z2Nat.id in Hz' by done.
    subst z'. by eapply list_elem_of_lookup_2.
Qed.

Lemma create_vocab_spec (questions : list (list string)) :
  let v := create_vocab questions in
  take 3 v = [("<NULL>", 0); ("<START>", 1); ("<END>", 2)]
  /\ NoDup v.*1
  /\ v.*2 = Z.of_nat <$> seq 0 (length v)
  /\ (forall w, w ∈ v.*1 <->
        w ∈ ["<NULL>"; "<START>"; "<END>"] \/ exists q, q ∈ questions /\ w ∈ q)
  /\ (forall w z, dict_item v w = Some z <-> 0 <= z /\ v.*1 !! Z.to_nat z = Some w)
  /\ (forall more, v `prefix_of` create_vocab (questions ++ more)).
Proof.
  cbv zeta. unfold create_vocab.
  destruct (create_vocab_from_spec questions sentinels sentinels_dense) as (Hd & Hp & Hk).
  cbv zeta in *. fold sentinels. split; [|split; [|split; [|split; [|split]]]].
  - destruct Hp as [rest ->]. done.
  - by destruct Hd.
  - by destruct Hd.
  - exact Hk.
  - intros w z. by apply dense_item.
  - intros more. rewrite foldl_app.
    by destruct (create_vocab_from_spec more _ Hd) as (_ & ? & _).
Qed.

(** X11. The vocabulary [create_vocab] returns starts with the three
    sentinels at ids 0, 1 and 2; its keys are distinct and the [i]-th key, in
    insertion order, has id [i]; its keys are the sentinels and the words of
    the questions, no others; a key has id [z] exactly when it is at position
    [z]; and the vocabulary of more questions extends it, ids unchanged. *)
Theorem create_vocab_ids (questions : list (list string)) :
  let v := create_vocab questions in
  take 3 v = [("<NULL>", 0); ("<START>", 1); ("<END>", 2)]
  /\ NoDup v.*1
  /\ v.*2 = Z.of_nat <$> seq 0 (length v)
  /\ (forall w, w ∈ v.*1 <->
        w ∈ ["<NULL>"; "<START>"; "<END>"] \/ exists q, q ∈ questions /\ w ∈ q)
  /\ (forall w z, dict_item v w = Some z <-> 0 <= z /\ v.*1 !! Z.to_nat z = Some w)
  /\ (forall more, v `prefix_of` create_vocab (questions ++ more)).
Proof. apply create_vocab_spec. Qed.

(** Encoding with the vocabulary built from the questions themselves. *)
Lemma omapM_Forall2 {A B} (f : A -> outcome B) (P : A -> B -> Prop) l :
  (forall a, a ∈ l -> exists b, f a = Ok b /\ P a b) ->
  exists bs, omapM f l = Ok bs /\ Forall2 P l bs.
Proof.
  induction l as [|a l IH]; intros Hf; simpl.
  - exists []. by split.
  - destruct (Hf a ltac:(by left)) as (b & -> & Hb).
    destruct IH as (bs & -> & Hbs); [intros a' Ha'; apply Hf; by right|].
    exists (b :: bs). split; [done|]. by constructor.
Qed.

(** X12. Encoding the questions a vocabulary was created from never
    raises [KeyError], and every id decodes back to its word: the word is the
    key at the position the id gives. *)
Theorem create_vocab_encodes (questions : list (list string)) :
  let v := create_vocab questions in
  exists ids,
    omapM (omapM (dict_getitem v)) questions = Ok ids
    /\ Forall2 (Forall2 (fun w z => 0 <= z /\ v.*1 !! Z.to_nat z = Some w)) questions ids.
Proof.
  cbv zeta.
  destruct (create_vocab_spec questions) as (_ & Hnd & Hids & Hk & Hitem & _). cbv zeta in *.
  apply omapM_Forall2. intros q Hq. apply omapM_Forall2. intros w Hw.
  assert (w ∈ (create_vocab questions).*1) as Hin by (apply Hk; right; by exists q).
  apply list_elem_of_fmap in Hin as ([w' z] & -> & Hin). simpl.
  assert (dict_item (create_vocab questions) w' = Some z) as Hz by by apply dict_item_elem_of.
  exists z. unfold dict_getitem. rewrite Hz. split; [done|]. by apply Hitem.
Qed.

(** ** Programs built from parsed queries *)

Lemma PyObj_nested_ind (P : PyObj -> Prop) :
  (forall s, P (PyStr s)) ->
  (forall items, Forall P items -> P (PyTuple items)) ->
  forall p, P p.
Proof.
  intros Hs Ht. fix IH 1. intros [s|items]; [apply Hs|].
  apply Ht. induction items as [|p items IHl]; constructor; [apply IH|apply IHl].
Qed.

Lemma head_module_spec head :
  match module_of_head head with
  | Some m =>
      head_module head = Ok m
      /\ String.prefix "_Find" m = false /\ _arity m = 1
      /\ m <> "scene" /\ m <> "<NULL>" /\ m <> "<START>"
  | None => head_module head = Raise (UnboundLocalError "module")
  end.
Proof.
  destruct head as [h|items]; simpl; [|done]. repeat case_decide; done.
Qed.

Lemma with_scenes_app l1 : forall l2 buf,
  with_scenes (l1 ++ l2) buf = (b ← with_scenes l1 buf; with_scenes l2 b).
Proof.
  induction l1 as [|[token|items] l1 IH]; intros l2 buf; simpl; [done| |done].
  apply IH.
Qed.

Lemma flattens_leaf s : flattens_to (PyTuple [PyStr ("_Find[" +:+ s +:+ "]")])
                          (Unary ("_Find[" +:+ s +:+ "]") Scene).
Proof. exists ["_Find[" +:+ s +:+ "]"]. split; [done|]. intros buf. done. Qed.

Lemma flattens_unary m l t :
  String.prefix "_Find" m = false -> flattens_to l t ->
  flattens_to (PyTuple [PyStr m; l]) (Unary m t).
Proof.
  intros Hm (toks & Hf & Hw). exists (m :: toks). split.
  - simpl. unbind. by rewrite Hf.
  - intros buf. simpl. rewrite Hm. cbv iota. rewrite Hw. by rewrite <- app_assoc.
Qed.

Lemma flattens_and l1 l2 t1 t2 :
  flattens_to l1 t1 -> flattens_to l2 t2 ->
  flattens_to (PyTuple [PyStr "_And"; l1; l2]) (Binary "_And" t1 t2).
Proof.
  intros (toks1 & Hf1 & Hw1) (toks2 & Hf2 & Hw2). exists ("_And" :: toks1 ++ toks2). split.
  - simpl. unbind. rewrite Hf1, Hf2. simpl. by rewrite ?fmap_app, <- ?app_assoc.
  - intros buf. simpl. rewrite fmap_app, with_scenes_app, Hw1. unbind. rewrite Hw2.
    by rewrite <- !app_assoc.
Qed.

Lemma layout_from_parsing_spec parse :
  match query_tree parse with
  | Some t =>
      arity_ok _arity t
      /\ exists l, layout_from_parsing parse = Ok l /\ flattens_to l t
  | None => exists e, layout_from_parsing parse = Raise e /\ layout_error e
  end.
Proof.
  induction parse as [s|items IH] using PyObj_nested_ind.
  - simpl. split; [done|]. eexists. split; [done|]. apply flattens_leaf.
  - destruct items as [|head [|p1 [|p2 [|p3 rest]]]].
    + simpl. exists IndexError. split; [done|by left].
    + simpl. exists IndexError. split; [done|by left].
    + apply Forall_cons in IH as [_ IH]. apply Forall_cons in IH as [IH1 _].
      cbn [query_tree layout_from_parsing]. unbind. simpl.
      pose proof (head_module_spec head) as Hh.
      destruct (query_tree p1) as [t1|].
      * destruct IH1 as (Ha1 & l1 & -> & Hfl1). simpl.
        destruct (module_of_head head) as [m|].
        -- destruct Hh as (-> & Hnf & Har & Hn1 & Hn2 & Hn3). simpl.
           split; [done|]. eexists. split; [done|]. by apply flattens_unary.
        -- rewrite Hh. eexists. split; [done|]. right. by right.
      * destruct IH1 as (e & -> & He). simpl. by exists e.
    + apply Forall_cons in IH as [_ IH]. apply Forall_cons in IH as [IH1 IH].
      apply Forall_cons in IH as [IH2 _].
      cbn [query_tree layout_from_parsing]. unbind. simpl.
      pose proof (head_module_spec head) as Hh.
      destruct (query_tree p1) as [t1|].
      * destruct IH1 as (Ha1 & l1 & -> & Hfl1). simpl.
        destruct (query_tree p2) as [t2|].
        -- destruct IH2 as (Ha2 & l2 & -> & Hfl2). simpl.
           destruct (module_of_head head) as [m|].
           ++ destruct Hh as (-> & Hnf & Har & Hn1 & Hn2 & Hn3). simpl.
              split; [done|]. eexists. split; [done|].
              apply flattens_unary; [done|]. by apply flattens_and.
           ++ rewrite Hh. eexists. split; [done|]. right. by right.
        -- destruct IH2 as (e & -> & He). simpl. by exists e.
      * destruct IH1 as (e & -> & He). simpl. by exists e.
    + simpl. exists AssertionError. split; [done|]. right. by left.
Qed.

Lemma program_of_line_spec parse :
  match query_tree parse with
  | Some t =>
      arity_ok _arity t
      /\ program_of_line parse = Ok (["<START>"] ++ prefix_names t ++ ["<END>"])
  | None => exists e, program_of_line parse = Raise e /\ layout_error e
  end.
Proof.
  pose proof (layout_from_parsing_spec parse) as Hl. unfold program_of_line. unbind.
  destruct (query_tree parse) as [t|].
  - destruct Hl as (Ha & l & -> & toks & -> & Hw). split; [done|]. by rewrite Hw.
  - destruct Hl as (e & -> & He). by exists e.
Qed.

(** X13. For a parsed query that is a string, or a head among [is],
    [above], [below], [left_of] and [right_of] over one or two such queries,
    the program [main] builds is the start marker, the query's tree in prefix
    notation, head first, with [scene] after every [_Find] token, and the end
    marker; every operator stands in it at the arity [_arity] gives it.  For
    any other parsed query the construction raises [IndexError],
    [AssertionError] or [UnboundLocalError]. *)
Theorem queries_become_prefix_programs parse :
  match query_tree parse with
  | Some t =>
      arity_ok _arity t
      /\ program_of_line parse = Ok (["<START>"] ++ prefix_names t ++ ["<END>"])
  | None =>
      exists e, program_of_line parse = Raise e
                /\ (e = IndexError \/ e = AssertionError \/ e = UnboundLocalError "module")
  end.
Proof. apply program_of_line_spec. Qed.

(** ** Models built on the vocabularies the scripts write *)

Section ScriptRuns.
Context `{Layers}.

Lemma saved_vocab_arity pv arity k :
  k ∈ pv.*1 -> program_token_arity (saved_vocab pv arity) !! k = Some (arity k).
Proof.
  intros Hk. simpl. apply elem_of_list_to_map_1'.
  - intros y Hy. apply list_elem_of_fmap in Hy as (k' & Heq & _). by simplify_eq.
  - apply list_elem_of_fmap. by exists k.
Qed.

Lemma saved_vocab_operator_ok pv arity :
  arities_ok pv.*1 arity -> Forall (operator_ok (saved_vocab pv arity)) pv.*1.
Proof.
  intros Har. apply Forall_forall. intros k Hk. exists (arity k).
  split; [by apply saved_vocab_arity|]. by apply Har.
Qed.

Lemma saved_vocab_model pv arity cfg sp self :
  dense pv -> arities_ok pv.*1 arity ->
  __init__ (saved_vocab pv arity) cfg false sp = Ok self ->
  use_film self = false
  /\ (forall k, k ∈ pv.*1 ->
        program_idx_to_token (vocab self) !! token_id pv k = Some k
        /\ function_modules_num_inputs self !! k = Some (arity k)
        /\ function_modules self !! k = Some (Z.to_nat (token_id pv k))
        /\ modules_heap self !! Z.to_nat (token_id pv k)
           = Some (block_of (saved_vocab pv arity) (Z.to_nat (token_id pv k)) k)).
Proof.
  intros Hd Har Hi. pose proof Hd as [Hnd Hids].
  destruct (init_effect _ _ _ _ _ Hi) as (_&Hf&_&_&_&Hv&_&Hst&Hcl&_).
  destruct (init_nofilm_registry (saved_vocab pv arity) cfg sp _ _ _ Hst Hcl Hnd
              (saved_vocab_operator_ok pv arity Har)) as (self' & Hi' & _ & Hkeys & _).
  rewrite Hi in Hi'. simplify_eq. split; [done|].
  intros k Hk. apply list_elem_of_lookup in Hk as [i Hik].
  destruct (Hkeys i k Hik) as (Hfm & Hh & Hni). simpl in Hik.
  assert (Htok : token_id pv k = Z.of_nat i).
  { unfold token_id. rewrite list_lookup_fmap in Hik.
    destruct (pv !! i) as [[k' z]|] eqn:E; [|done]. simpl in Hik. simplify_eq.
    pose proof (dense_lookup pv i k z Hd E) as ->.
    assert (dict_item pv k = Some (Z.of_nat i)) as ->; [|done].
    apply dict_item_elem_of; [done|]. by eapply list_elem_of_lookup_2. }
  rewrite Htok, Nat2Z.id, Hv. split; [|split; [|done]].
  - simpl. apply elem_of_list_to_map_1.
    + rewrite <- list_fmap_compose.
      replace (fst ∘ prod_swap) with (@snd string Z) by done.
      rewrite Hids. apply NoDup_fmap; [apply _|apply NoDup_seq].
    + apply list_elem_of_fmap. exists (k, Z.of_nat i). split; [done|].
      rewrite list_lookup_fmap in Hik.
      destruct (pv !! i) as [[k' z]|] eqn:E; [|done]. simpl in Hik. simplify_eq.
      pose proof (dense_lookup pv i k z Hd E) as ->. by eapply list_elem_of_lookup_2.
  - rewrite Hni. apply saved_vocab_arity. by eapply list_elem_of_lookup_2.
Qed.

Lemma saved_vocab_tree pv arity cfg sp self t :
  dense pv -> arities_ok pv.*1 arity ->
  __init__ (saved_vocab pv arity) cfg false sp = Ok self ->
  tree_in pv.*1 t -> arity_ok arity t ->
  tree_ok self (token_id pv) t
  /\ forall feat,
       tree_value self feat t = Ok (tree_apply (fun k => Z.to_nat (token_id pv k)) feat t).
Proof.
  intros Hd Har Hi.
  destruct (saved_vocab_model pv arity cfg sp self Hd Har Hi) as [Hf Hkeys].
  induction t as [|op t IH|op t1 IH1 t2 IH2]; simpl.
  - intros Hk _. destruct (Hkeys _ Hk) as (Htok & Hni & Hfm & Hh).
    split; [split; [done|by eexists]|]. intros feat.
    unfold dict_get, deref. rewrite Hfm. simpl. rewrite Hh. simpl.
    done.
  - intros [Hk Hin] (Ha & Hn1 & Hn2 & Hn3 & Hok).
    destruct (Hkeys _ Hk) as (Htok & Hni & Hfm & Hh). destruct (IH Hin Hok) as [IHok IHv].
    split; [by rewrite Hni, Ha|]. intros feat. rewrite IHv. simpl.
    unfold dict_get, deref. rewrite Hfm. simpl. rewrite Hh. simpl.
    unfold block_of, unary_class. rewrite saved_vocab_arity, Ha by done.
    rewrite decide_True by by right. done.
  - intros (Hk & Hin1 & Hin2) (Ha & Hn1 & Hn2 & Hn3 & Hok1 & Hok2).
    destruct (Hkeys _ Hk) as (Htok & Hni & Hfm & Hh).
    destruct (IH1 Hin1 Hok1) as [IHok1 IHv1]. destruct (IH2 Hin2 Hok2) as [IHok2 IHv2].
    split; [by rewrite Hni, Ha|]. intros feat. rewrite IHv1, IHv2. simpl.
    unfold dict_get, deref. rewrite Hfm. simpl. rewrite Hh. simpl.
    unfold block_of, unary_class. rewrite saved_vocab_arity, Ha by done.
    rewrite decide_False; [done|]. intros [?|?]; [done|by simplify_eq].
Qed.

Lemma saved_vocab_run pv arity cfg sp self feats L (specs : list (nat * Tree * list Z)) :
  dense pv -> arities_ok pv.*1 arity -> "<START>" ∈ pv.*1 ->
  __init__ (saved_vocab pv arity) cfg false sp = Ok self ->
  Forall (fun r => length (row_of (token_id pv) r) = L
                   /\ tree_in pv.*1 r.1.2 /\ arity_ok arity r.1.2) specs ->
  length feats = length specs -> feats <> [] ->
  _forward_modules_ints feats {| size1 := L; data := row_of (token_id pv) <$> specs |} self
  = (set_used_fns (mask_of <$> specs) self,
     Ok (concat (imap (fun i r => tree_apply (fun k => Z.to_nat (token_id pv k))
                                    (slice feats i) r.1.2) specs))).
Proof.
  intros Hd Har Hstart Hi Hspecs Hlen Hne.
  destruct (saved_vocab_model pv arity cfg sp self Hd Har Hi) as [Hf Hkeys].
  apply forward_modules_ints_trees; try done.
  - by destruct (Hkeys _ Hstart) as (? & _).
  - eapply Forall_impl; [exact Hspecs|]. intros r (Hl & Hin & Hok). split; [done|].
    by destruct (saved_vocab_tree pv arity cfg sp self r.1.2 Hd Har Hi Hin Hok).
  - rewrite Hlen. apply Forall2_same_length_lookup_2.
    + by rewrite length_seq, length_imap.
    + intros i i' v Hi' Hv. apply lookup_seq in Hi' as [-> Hlt].
      rewrite list_lookup_imap in Hv.
      destruct (specs !! i) as [r|] eqn:Er; [|done]. simpl in Hv. simplify_eq.
      exists r. split; [done|].
      eapply Forall_lookup_1 in Hspecs as (_ & Hin & Hok); [|exact Er].
      by destruct (saved_vocab_tree pv arity cfg sp self r.1.2 Hd Har Hi Hin Hok) as [_ ->].
Qed.

Lemma programs_of_lines parses ts :
  Forall2 (fun p t => query_tree p = Some t) parses ts ->
  omapM program_of_line parses = Ok (tree_program <$> ts)
  /\ Forall (arity_ok _arity) ts.
Proof.
  induction 1 as [|p t parses ts Hp _ [IH1 IH2]]; simpl; [done|].
  pose proof (program_of_line_spec p) as Hs. rewrite Hp in Hs. destruct Hs as [Ha ->].
  rewrite IH1. split; [done|]. by constructor.
Qed.

Lemma tree_in_names keys t :
  (forall w, w ∈ prefix_names t -> w ∈ keys) -> tree_in keys t.
Proof.
  induction t as [|op t IH|op t1 IH1 t2 IH2]; simpl; intros Hk.
  - apply Hk. by left.
  - split; [apply Hk; by left|]. apply IH. intros w Hw. apply Hk. by right.
  - split; [apply Hk; by left|]. split.
    + apply IH1. intros w Hw. apply Hk. right. apply elem_of_app. by left.
    + apply IH2. intros w Hw. apply Hk. right. apply elem_of_app. by right.
Qed.

Lemma prefix_names_length t : length (prefix_names t) = tree_size t.
Proof. induction t; simpl; rewrite ?length_app; lia. Qed.

Lemma arities_ok_shapes keys : arities_ok keys _arity.
Proof.
  intros k _. unfold _arity. destruct (String.prefix "_And" k); [by right; right|].
  case_decide; [by left|by right; left].
Qed.

Lemma dict_getitem_in (pv : list (string * Z)) w :
  w ∈ pv.*1 -> dict_getitem pv w = Ok (token_id pv w).
Proof.
  intros Hw. unfold dict_getitem, token_id.
  destruct (dict_item pv w) as [z|] eqn:Ez; [done|]. exfalso.
  induction pv as [|[k v] pv IH]; simpl in *; [by apply elem_of_nil in Hw|].
  case_decide; [done|]. apply elem_of_cons in Hw as [?|?]; [by subst|]. by apply IH.
Qed.

Lemma encode_words (pv : list (string * Z)) (p : list string) :
  (forall w, w ∈ p -> w ∈ pv.*1) ->
  omapM (dict_getitem pv) p = Ok (token_id pv <$> p).
Proof.
  induction p as [|w p IH]; intros Hp; simpl; [done|].
  rewrite dict_getitem_in by (apply Hp; by left). unbind.
  rewrite IH; [done|]. intros w' Hw'. apply Hp. by right.
Qed.

Lemma encode_with_vocab (pv : list (string * Z)) (progs : list (list string)) :
  (forall p w, p ∈ progs -> w ∈ p -> w ∈ pv.*1) ->
  omapM (omapM (dict_getitem pv)) progs
  = Ok ((fun p : list string => token_id pv <$> p) <$> progs).
Proof.
  intros Hk. induction progs as [|p progs IH]; simpl; [done|].
  rewrite encode_words by (intros w; apply Hk; by left). unbind.
  rewrite IH; [done|]. intros p' w Hp'. apply Hk. by right.
Qed.

Lemma pad_tree_row (pv : list (string * Z)) t L :
  token_id pv "<START>" = 1 -> token_id pv "<END>" = 2 ->
  pad_row L (token_id pv <$> tree_program t)
  = row_of (token_id pv) (1%nat, t, [2] ++ replicate (L - (tree_size t + 2)) 0).
Proof.
  intros Hs He. unfold pad_row, tree_program, row_of, encode.
  rewrite !fmap_app, !length_app, !length_fmap, prefix_names_length.
  change (token_id pv <$> ["<START>"]) with [token_id pv "<START>"].
  change (token_id pv <$> ["<END>"]) with [token_id pv "<END>"].
  rewrite Hs, He, <- !app_assoc. simpl. do 4 f_equal. lia.
Qed.

(** X14. For a non-empty training set of such queries, [main] builds a
    vocabulary, a width and padded rows, and every model constructed without
    conditioning on that vocabulary, with the arities [_arity] gives,
    evaluates the rows whole: the output is, example by example, the modules of
    the query's tree applied to the example's feature map, the module of a
    token being the one allocated at its id, and [used_fns] is set exactly on
    the tokens of each tree, neither on the markers nor on the padding. *)
Theorem shapes_programs_run (parses : list PyObj) (ts : list Tree) :
  parses <> [] ->
  Forall2 (fun p t => query_tree p = Some t) parses ts ->
  exists pv L rows,
    train_programs parses = Ok (pv, L, rows)
    /\ forall cfg sp self feats,
         __init__ (saved_vocab pv _arity) cfg false sp = Ok self ->
         length feats = length parses ->
         _forward_modules_ints feats {| size1 := L; data := rows |} self
         = (set_used_fns
              ((fun t => [0] ++ replicate (tree_size t) 1
                         ++ replicate (L - 1 - tree_size t) 0) <$> ts) self,
            Ok (concat (imap (fun i t => tree_apply
                                (fun k => Z.to_nat (token_id pv k))
                                (slice feats i) t) ts))).
Proof.
  intros Hne Hts.
  destruct (programs_of_lines parses ts Hts) as [Hprogs Hariok].
  pose proof (Forall2_length _ _ _ Hts) as Hlen.
  unfold train_programs. rewrite Hprogs. unbind.
  destruct (py_max ((fun p : list string => Z.of_nat (length p)) <$> (tree_program <$> ts)))
    as [m| |] eqn:Em.
  2:{ destruct ts; [by destruct parses|done]. }
  2:{ by destruct ts. }
  apply py_max_spec in Em as [Hm Hmax].
  destruct (create_vocab_spec (tree_program <$> ts)) as (Htake & Hnd & Hids & Hk & _).
  cbv zeta in *.
  remember (create_vocab (tree_program <$> ts)) as pv eqn:Epv.
  assert (Hd : dense pv) by by split.
  assert (Hwords : forall p w, p ∈ tree_program <$> ts -> w ∈ p -> w ∈ pv.*1).
  { intros p w Hp Hw. apply Hk. right. by exists p. }
  rewrite (encode_with_vocab pv _ Hwords). cbv beta iota zeta.
  eexists _, _, _. split; [reflexivity|].
  intros cfg sp self feats Hi Hfl.
  set (L := Z.to_nat m).
  assert (Hlens : forall t, t ∈ ts -> (tree_size t + 2 <= L)%nat).
  { intros t Ht. specialize (Hmax (Z.of_nat (length (tree_program t)))).
    rewrite <- list_fmap_compose in Hmax.
    specialize (Hmax ltac:(apply list_elem_of_fmap; by exists t)).
    unfold tree_program in Hmax. rewrite !length_app, prefix_names_length in Hmax.
    simpl in Hmax. lia. }
  assert (Hstart : token_id pv "<START>" = 1 /\ token_id pv "<END>" = 2).
  { unfold token_id. clear -Htake.
    destruct pv as [|a [|b [|c pv]]]; simpl in Htake; simplify_eq. done. }
  destruct Hstart as [Hs He].
  set (specs := (fun t => (1%nat, t, [2] ++ replicate (L - (tree_size t + 2)) 0)) <$> ts).
  assert (Hrows : pad_row L <$> ((fun p : list string => token_id pv <$> p)
                                   <$> (tree_program <$> ts))
                  = row_of (token_id pv) <$> specs).
  { unfold specs. rewrite <- !list_fmap_compose. apply list_fmap_ext. intros i t Ht.
    by apply pad_tree_row. }
  assert (Hmasks : (fun t => [0] ++ replicate (tree_size t) 1
                             ++ replicate (L - 1 - tree_size t) 0) <$> ts
                   = mask_of <$> specs).
  { unfold specs. rewrite <- list_fmap_compose. apply list_fmap_ext. intros i t Ht. simpl.
    apply list_elem_of_lookup_2 in Ht. specialize (Hlens t Ht).
    rewrite length_replicate. do 2 f_equal.
    replace (L - 1 - tree_size t)%nat with (S (L - (tree_size t + 2))) by lia. done. }
  assert (Hvals : imap (fun i t => tree_apply (fun k => Z.to_nat (token_id pv k))
                                     (slice feats i) t) ts
                  = imap (fun i (r : nat * Tree * list Z) =>
                            tree_apply (fun k => Z.to_nat (token_id pv k))
                              (slice feats i) r.1.2) specs).
  { unfold specs. by rewrite imap_fmap. }
  rewrite Hrows, Hmasks, Hvals.
  apply (saved_vocab_run pv _arity cfg sp self feats L specs); try done.
  - apply arities_ok_shapes.
  - apply Hk. left. apply (bool_decide_unpack _). by vm_compute.
  - unfold specs. apply Forall_fmap, Forall_forall. intros t Ht. simpl.
    specialize (Hlens t Ht). split; [|split].
    + unfold encode. rewrite !length_app, length_fmap, prefix_names_length. simpl.
      rewrite length_replicate. lia.
    + apply tree_in_names. intros w Hw. apply (Hwords (tree_program t)).
      * apply list_elem_of_fmap. by exists t.
      * unfold tree_program. rewrite !elem_of_app. right. by left.
    + eapply Forall_forall in Hariok; eauto.
  - unfold specs. rewrite length_fmap. lia.
  - destruct feats; [|done]. simpl in Hfl. by destruct parses.
Qed.

Lemma program_vocab_dense : dense program_vocab.
Proof. split; [apply (bool_decide_unpack _); by vm_compute | by vm_compute]. Qed.

Lemma arities_ok_flatqa keys : arities_ok keys arity.
Proof. intros k _. unfold arity. repeat case_decide; auto. Qed.

Ltac elem_cases H :=
  repeat (apply elem_of_cons in H as [->|H]); [..|by apply elem_of_nil in H].

Lemma flatqa_rows_spec shape color :
  shape ∈ SHAPES -> color ∈ COLORS ->
  flatqa_rows shape color
  = Ok ([3; 4; 5; token_id question_vocab color; token_id question_vocab shape],
        row_of (token_id program_vocab) (1%nat, flatqa_tree (shape, color), [2]))
  /\ tree_in program_vocab.*1 (flatqa_tree (shape, color))
  /\ arity_ok arity (flatqa_tree (shape, color)).
Proof.
  intros Hs Hc. elem_cases Hs; elem_cases Hc.
  all: split; [by vm_compute|]; split;
    [ cbn [tree_in flatqa_tree fst snd]; repeat split; apply (bool_decide_unpack _); by vm_compute
    | cbn [arity_ok flatqa_tree fst snd]; repeat split; done ].
Qed.

#[local] Opaque question_vocab program_vocab.

(** X15. For every batch of shapes and colours of the generator,
    [generate_dataset] writes five question ids and seven program ids per
    example without [KeyError], and every model constructed without
    conditioning on the vocabulary it saves evaluates the program rows whole: the
    output is, example by example, the [And] module applied to the shape's and
    the colour's modules, each on the scene module of the example's feature
    map, and [used_fns] is set on the five tokens between the markers. *)
Theorem flatqa_programs_run (objs : list (string * string)) :
  objs <> [] ->
  Forall (fun o => o.1 ∈ SHAPES /\ o.2 ∈ COLORS) objs ->
  exists rows,
    omapM (fun o => flatqa_rows o.1 o.2) objs = Ok rows
    /\ Forall (fun r => length r.1 = 5%nat /\ length r.2 = 7%nat) rows
    /\ forall cfg sp self feats,
         __init__ (saved_vocab program_vocab arity) cfg false sp = Ok self ->
         length feats = length objs ->
         _forward_modules_ints feats {| size1 := 7; data := rows.*2 |} self
         = (set_used_fns (replicate (length objs) [0; 1; 1; 1; 1; 1; 0]) self,
            Ok (concat (imap (fun i o => tree_apply
                                (fun k => Z.to_nat (token_id program_vocab k))
                                (slice feats i) (flatqa_tree o)) objs))).
Proof.
  intros Hne Hobjs.
  set (specs := (fun o => (1%nat, flatqa_tree o, [2])) <$> objs).
  assert (Hrows : omapM (fun o => flatqa_rows o.1 o.2) objs
                  = Ok ((fun o => ([3; 4; 5; token_id question_vocab o.2;
                                    token_id question_vocab o.1],
                                   row_of (token_id program_vocab)
                                     (1%nat, flatqa_tree o, [2]))) <$> objs)).
  { clear Hne specs. induction objs as [|[shape color] objs IH]; simpl; [done|].
    apply Forall_cons in Hobjs as [[Hs Hc] Hobjs]. simpl in Hs, Hc.
    destruct (flatqa_rows_spec shape color Hs Hc) as (-> & _). unbind.
    by rewrite (IH Hobjs). }
  eexists. split; [exact Hrows|]. split.
  { apply Forall_fmap, Forall_forall. intros o _. cbn [fst snd]. split; [done|].
    cbv [row_of]. cbn [fst snd]. by rewrite !length_app, length_replicate, encode_length. }
  intros cfg sp self feats Hi Hlen.
  rewrite <- list_fmap_compose.
  change (snd ∘ _) with (fun o => row_of (token_id program_vocab) (1%nat, flatqa_tree o, [2])).
  replace ((fun o => row_of (token_id program_vocab) (1%nat, flatqa_tree o, [2])) <$> objs)
    with (row_of (token_id program_vocab) <$> specs)
    by (unfold specs; by rewrite <- list_fmap_compose).
  replace (replicate (length objs) [0; 1; 1; 1; 1; 1; 0]) with (mask_of <$> specs).
  2:{ unfold specs. rewrite <- list_fmap_compose. clear. induction objs; simpl; by f_equal. }
  replace (imap _ objs)
    with (imap (fun i (r : nat * Tree * list Z) =>
                  tree_apply (fun k => Z.to_nat (token_id program_vocab k))
                    (slice feats i) r.1.2) specs)
    by (unfold specs; by rewrite imap_fmap).
  apply (saved_vocab_run program_vocab arity cfg sp self feats 7 specs).
  - apply program_vocab_dense.
  - apply arities_ok_flatqa.
  - apply (bool_decide_unpack _). by vm_compute.
  - done.
  - unfold specs. apply Forall_fmap, Forall_forall. intros [shape color] Ho.
    eapply Forall_forall in Hobjs as [Hs Hc]; [|exact Ho]. simpl in Hs, Hc.
    destruct (flatqa_rows_spec shape color Hs Hc) as (_ & Hin & Hok). cbn [fst snd].
    split; [|done]. cbv [row_of]. by rewrite !length_app, length_replicate, encode_length.
  - unfold specs. by rewrite length_fmap.
  - destruct feats; [|done]. by destruct objs.
Qed.


End ScriptRuns.

(** ** The held-out splits *)

(** X17. In the CoGenT split, an object that validation or test may ask
    about is a square of a colour of [set2] or a triangle of a colour of
    [set1], and training admits it neither in a scene nor in a question. *)
Theorem cogent_split_disjoint (shape color purpose purpose' : string) :
  purpose <> "generate" ->
  RestrictSquaresAndTriangles set2 set1 true (shape, color) purpose = true ->
  ((shape = "square" /\ color ∈ set2) \/ (shape = "triangle" /\ color ∈ set1))
  /\ RestrictSquaresAndTriangles set1 set2 false (shape, color) purpose' = false.
Proof.
  intros Hp. unfold RestrictSquaresAndTriangles.
  destruct (decide (shape = "square")) as [->|Hs].
  - intros Hc. apply bool_decide_eq_true in Hc. split; [by left|].
    apply bool_decide_eq_false. intros Hc'.
    unfold set1, set2 in *.
    repeat (apply elem_of_cons in Hc as [->|Hc]); try (by apply elem_of_nil in Hc);
      repeat (apply elem_of_cons in Hc' as [?|Hc']); try done; by apply elem_of_nil in Hc'.
  - destruct (decide (shape = "triangle")) as [->|Ht].
    + intros Hc. apply bool_decide_eq_true in Hc. split; [by right|].
      apply bool_decide_eq_false. intros Hc'.
      unfold set1, set2 in *.
      repeat (apply elem_of_cons in Hc as [->|Hc]); try (by apply elem_of_nil in Hc);
        repeat (apply elem_of_cons in Hc' as [?|Hc']); try done; by apply elem_of_nil in Hc'.
    + rewrite bool_decide_eq_false_2 by done. done.
Qed.

Lemma list_index_elem_of l x : x ∈ l -> exists i, list_index l x = Ok i /\ l !! i = Some x.
Proof.
  intros Hx. unfold list_index.
  destruct (list_find (fun y => y = x) l) as [[i y]|] eqn:E.
  - apply list_find_Some in E as (Hi & -> & _). eauto.
  - apply list_find_None in E. exfalso. eapply Forall_forall in E; eauto.
Qed.

(** X18. In the diagonal split, for a shape and a colour of the
    generator, validation and test ask about the object exactly when training
    excludes it, which is when shape and colour have the same position in
    [SHAPES] and [COLORS]; and they admit every object in a scene. *)
Theorem diagonal_split_complementary (shape color purpose purpose' : string) :
  shape ∈ SHAPES -> color ∈ COLORS -> purpose <> "generate" ->
  exists diagonal,
    ExcludeDiagonal true (shape, color) purpose = Ok diagonal
    /\ ExcludeDiagonal false (shape, color) purpose' = Ok (negb diagonal)
    /\ ExcludeDiagonal true (shape, color) "generate" = Ok true
    /\ (diagonal = true <->
        exists i, SHAPES !! i = Some shape /\ COLORS !! i = Some color).
Proof.
  intros Hs Hc Hp. unfold ExcludeDiagonal.
  destruct (list_index_elem_of _ _ Hs) as (i & -> & Hi).
  destruct (list_index_elem_of _ _ Hc) as (j & -> & Hj). simpl.
  exists (bool_decide (i = j)). rewrite (bool_decide_eq_false_2 (purpose = "generate")) by done.
  simpl. split; [done|]. split; [done|]. split; [done|].
  rewrite bool_decide_eq_true. split.
  - intros ->. eauto.
  - intros (k & Hk & Hk').
    assert (NoDup SHAPES) as Hn1 by (apply (bool_decide_unpack _); by vm_compute).
    assert (NoDup COLORS) as Hn2 by (apply (bool_decide_unpack _); by vm_compute).
    rewrite (NoDup_lookup _ _ _ _ Hn1 Hi Hk). by rewrite (NoDup_lookup _ _ _ _ Hn2 Hj Hk').
Qed.

(** X19. In the leave-one-out split, validation and test admit every
    object in a scene and ask only about the red square; training asks about
    every other object and no red square, and keeps the red square out of its
    scenes exactly when [restrict_scene] is not 0. *)
Theorem leave_one_out_split (obj : string * string) (purpose : string) (restrict_scene : Z) :
  let train := ObjectRestriction ExcludeRedSquare_allow false restrict_scene in
  let test := ObjectRestriction ExcludeRedSquare_allow true 0 in
  test obj "generate" = true
  /\ (purpose <> "generate" ->
      test obj purpose = bool_decide (obj = ("square", "red"))
      /\ train obj purpose = negb (test obj purpose))
  /\ (restrict_scene <> 0 ->
      train obj "generate" = negb (bool_decide (obj = ("square", "red"))))
  /\ (restrict_scene = 0 -> train obj "generate" = true).
Proof.
  cbv zeta. unfold ObjectRestriction, ExcludeRedSquare_allow. split; [done|]. split; [|split].
  - intros Hp. rewrite !(bool_decide_eq_false_2 (purpose = "generate")) by done.
    by rewrite !andb_false_r.
  - intros Hr. by rewrite (bool_decide_eq_false_2 (restrict_scene = 0)) by done.
  - intros ->. done.
Qed.

(** * The theorems at concrete inputs *)

#[local] Existing Instance sample_layers.

Lemma sample_function_to_str_plain (f : Node) :
  value_inputs f = [] -> sample_function_to_str f = function f.
Proof. intros Hf. unfold sample_function_to_str. by rewrite Hf. Qed.

Lemma sample_model_built : __init__ sample_vocab tt false [0; 0] = Ok sample_model.
Proof. by vm_compute. Qed.

Lemma scenario_model_built : __init__ scenario_vocab tt false [1; 1] = Ok scenario_model.
Proof. by vm_compute. Qed.

Lemma explicit_form_evaluation_witness :
  exists self,
    __init__ scenario_vocab tt false [1; 1] = Ok self
    /\ (_forward_modules_json [10; 20] (replicate 2 scenario_program) self).2
       = Ok [95; 175].
Proof.
  exact (proj2 explicit_form_evaluation tt [1; 1] tt tt
           {| in_features := 1; weight := [[1]; [1]]; bias := [0; 0] |} [10; 20]
           eq_refl eq_refl sample_function_to_str_plain ltac:(discriminate)).
Defined.

Ltac tree_ok_tac :=
  repeat match goal with
         | |- _ /\ _ => split
         | |- _ <> _ => discriminate
         | |- is_Some _ => eexists; vm_compute; reflexivity
         | |- _ = _ => vm_compute; reflexivity
         end.

Lemma sample_specs_ok :
  Forall (fun r => length (row_of (tok_of sample_vocab) r) = 7%nat
                   /\ tree_ok sample_model (tok_of sample_vocab) r.1.2) sample_specs.
Proof. repeat constructor; simpl; tree_ok_tac. Qed.

Lemma sample_values :
  Forall2 (fun i v => exists r, sample_specs !! i = Some r
                                /\ tree_value sample_model (slice [10; 20] i) r.1.2 = Ok v)
    (seq 0 (length [10; 20])) [[447]; [775]].
Proof.
  repeat constructor; eexists; (split; [reflexivity | vm_compute; reflexivity]).
Qed.

Lemma token_sequence_consumption_witness :
  _forward_modules_ints [10; 20] {| size1 := 7; data := sample_rows |} sample_model
  = (set_used_fns [[0; 1; 1; 1; 1; 1; 0]; [0; 1; 1; 1; 1; 1; 0]] sample_model,
     Ok [447; 775]).
Proof.
  exact (proj1 (proj2 (proj2 (proj2 token_sequence_consumption))
                  sample_model (tok_of sample_vocab) [10; 20] 7%nat sample_specs
                  [[447]; [775]] eq_refl eq_refl sample_specs_ok eq_refl
                  ltac:(discriminate) sample_values)).
Defined.

Lemma explicit_and_token_forms_agree_witness :
  (_forward_modules_json [10; 20] ((fun r => to_json 0 r.1.2) <$> sample_specs)
     sample_model).2 = Ok [447; 775]
  /\ (_forward_modules_ints [10; 20] {| size1 := 7; data := sample_rows |} sample_model).2
     = Ok [447; 775]
  /\ (forward [10; 20] (PList ((fun r => to_json 0 r.1.2) <$> sample_specs)) sample_model).2
     = Ok [[447; 447]; [775; 775]]
  /\ (forward [10; 20] (PVariable [2; 7]%nat sample_rows) sample_model).2
     = Ok [[447; 447]; [775; 775]].
Proof.
  exact (explicit_and_token_forms_agree sample_model (tok_of sample_vocab)
           [10; 20] [10; 20] 7%nat sample_specs [[447]; [775]]
           eq_refl eq_refl sample_function_to_str_plain sample_specs_ok
           eq_refl eq_refl eq_refl ltac:(discriminate) sample_values).
Defined.

(** C3 as stated fails: on the soft form [forward] raises, where the
    explicit form of the same batch returns. *)
Lemma soft_form_has_no_evaluator :
  (forward [10; 20] (PList ((fun r => to_json 0 r.1.2) <$> sample_specs)) sample_model).2
  = Ok [[447; 447]; [775; 775]]
  /\ py_len (PTensor [2; 7; 9]%nat) = Ok 2%nat
  /\ (forward [10; 20] (PTensor [2; 7; 9]%nat) sample_model).2
     = Raise (AttributeError "_forward_modules_probs").
Proof. by vm_compute. Qed.




Lemma forward_dispatch_witness :
  forward [10; 20] (PVariable [2; 7]%nat sample_rows) sample_model
  = then_classify (_forward_modules_ints [10; 20] {| size1 := 7; data := sample_rows |})
      sample_model.
Proof.
  exact (proj1 (forward_dispatch [10; 20] (PVariable [2; 7]%nat sample_rows) sample_model)
           eq_refl).
Defined.

(** C5 as stated fails: a plain tensor of rank 2 and a [Variable] of
    rank 3, each of the batch's length, are rejected, not evaluated. *)
Lemma plain_rank2_tensor_rejected :
  py_len (PTensor [2; 7]%nat) = Ok (length [10; 20])
  /\ (forward [10; 20] (PTensor [2; 7]%nat) sample_model).2
     = Raise (ValueError "Unrecognized program format")
  /\ py_len (PVariable [2; 7; 9]%nat []) = Ok (length [10; 20])
  /\ (forward [10; 20] (PVariable [2; 7; 9]%nat []) sample_model).2
     = Raise (ValueError "Unrecognized program format").
Proof. by vm_compute. Qed.





Lemma film_model_never_constructed_witness :
  __init__ sample_vocab tt true [1; 1] = Raise (AttributeError "fn_str_2_filmId")
  /\ use_film sample_model = false.
Proof.
  split.
  - exact (proj1 (proj2 film_model_never_constructed) sample_vocab tt [1; 1] tt eq_refl).
  - exact (proj1 (proj2 (proj2 (proj2 film_model_never_constructed))
                    sample_vocab tt false [0; 0] sample_model sample_model_built)).
Defined.


(** * The further theorems at concrete inputs *)

Lemma construction_registry_witness :
  _modules sample_model = function_modules sample_model /\ gammas sample_model = None.
Proof.
  pose proof (@construction_registry sample_layers sample_vocab tt false [0; 0] sample_model
                sample_model_built) as (_ & _ & Hg & _ & _ & _ & _ & _ & _ & Hm & _).
  exact (conj Hm Hg).
Defined.




Lemma capture_buffers_witness :
  let r := @_forward_modules_json sample_layers [10; 20] (replicate 2 scenario_program)
             capturing_model in
  r.2 = Ok [95; 175]
  /\ all_module_outputs r.1 = [[[21]; [46]; [95]]; [[41]; [86]; [175]]]
  /\ all_module_grad_outputs r.1 = [[None; None; None]; [None; None; None]].
Proof.
  cbv zeta.
  set (r := @_forward_modules_json sample_layers [10; 20] (replicate 2 scenario_program)
              capturing_model).
  assert (E : r = (r.1, Ok [95; 175])) by (vm_compute; reflexivity).
  pose proof (@capture_buffers sample_layers capturing_model [10; 20]
                (replicate 2 scenario_program) r.1 [95; 175] E) as Hc.
  change (save_module_outputs capturing_model) with true in Hc. cbv iota in Hc.
  destruct Hc as [Ho Hg]. split; [by rewrite E|]. split.
  - by vm_compute.
  - rewrite Hg. by vm_compute.
Defined.

Lemma conditioned_evaluation_never_returns_witness :
  exists e, (_forward_modules_ints [10] {| size1 := 1; data := [[3]] |} conditioned_model).2
            = Raise e.
Proof.
  exact (proj1 (@conditioned_evaluation_never_returns sample_layers conditioned_model [10]
                  eq_refl) {| size1 := 1; data := [[3]] |}).
Defined.


Lemma expand_answer_vocab_idempotent_witness :
  exists self',
    expand_answer_vocab sample_answers 3 (-50) sample_model = Ok self'
    /\ expand_answer_vocab sample_answers 7 0 self' = Ok self'.
Proof.
  destruct (@expand_answer_vocab sample_layers sample_answers 3 (-50) sample_model)
    as [self'| |] eqn:E;
    [|vm_compute in E; discriminate..].
  exists self'. split; [reflexivity|].
  exact (@expand_answer_vocab_idempotent sample_layers sample_answers 3 (-50) 7 0
           sample_model self' E).
Defined.

Lemma shapes_programs_run_witness :
  exists pv L rows, train_programs sample_parses = Ok (pv, L, rows).
Proof.
  destruct (@shapes_programs_run sample_layers sample_parses sample_query_trees)
    as (pv & L & rows & E & _).
  - discriminate.
  - repeat constructor.
  - by exists pv, L, rows.
Defined.

Lemma flatqa_programs_run_witness :
  exists rows, omapM (fun o => flatqa_rows o.1 o.2) [("square", "red")] = Ok rows.
Proof.
  destruct (@flatqa_programs_run sample_layers [("square", "red")]) as (rows & E & _).
  - discriminate.
  - repeat constructor; apply (bool_decide_unpack _); by vm_compute.
  - by exists rows.
Defined.


Lemma cogent_split_disjoint_witness :
  RestrictSquaresAndTriangles set1 set2 false ("square", "red") "generate" = false.
Proof.
  exact (proj2 (cogent_split_disjoint "square" "red" "ask" "generate"
                  ltac:(discriminate) eq_refl)).
Defined.

Lemma diagonal_split_complementary_witness :
  exists diagonal,
    ExcludeDiagonal true ("circle", "blue") "ask" = Ok diagonal
    /\ ExcludeDiagonal false ("circle", "blue") "generate" = Ok (negb diagonal).
Proof.
  destruct (diagonal_split_complementary "circle" "blue" "ask" "generate")
    as (d & H1 & H2 & _).
  - apply (bool_decide_unpack _). by vm_compute.
  - apply (bool_decide_unpack _). by vm_compute.
  - discriminate.
  - by exists d.
Defined.
